(** * Generalized-Procrustes MUSE: dictionary induction, Procrustes
      refinement and learning-rate scheduling

    A shallow embedding of [src/dico_builder.py] and [src/trainer.py].

    - Python values keep their shape: [LongTensor]s of index pairs are
      lists of pairs of [Z]; dictionaries keyed by language are
      insertion-ordered association lists ([pydict]) or [gmap]s; Python
      [set]s of pairs are [gset]s; exceptions are the [Raise] outcome of a
      small state-and-exception monad [Py]; the logger is a list of
      records kept in the state.
    - Scores, margins and losses are IEEE floats ([PrimFloat]).  The
      score tensors of the dictionary builder are single precision: their
      entries are carried by binary64 values, and the tensor operations
      round to binary32 ([float32], [sub32]).
    - The learning-rate schedule is embedded twice.  [Schedule] takes its
      numbers as exact rationals ([Q]) and has the whole of [save_best]
      and [update_lr], for what depends on the comparisons of the metrics
      and on the control flow; [FloatSchedule] has [update_lr] on
      binary64 floats, for what depends on the rounded products and on
      the values that are not numbers.
    - What lives outside the repository (torch's [sort], [topk] and [mm],
      scipy's [svd], the optimizers) enters as a [Variable] of a
      [Section]. *)

From Stdlib Require Import ZArith QArith String List Lia.
From Stdlib Require Import Floats.PrimFloat Floats.SpecFloat Floats.FloatOps
  Floats.FloatAxioms.
From stdpp Require Import gmap strings list.

Local Open Scope Z_scope.

(** ** Python outcomes: a state-and-exception monad *)

Module PyM.

Inductive exn : Type :=
  | AssertionError
  | KeyError (key : string)
  | IndexError
  | TypeError
  | AttributeError
  | SystemExit.

Inductive result (A : Type) : Type :=
  | Ok (a : A)
  | Raise (e : exn).
Arguments Ok {A} a.
Arguments Raise {A} e.

Inductive level : Type := INFO | WARNING | ERROR.

Definition log_record : Type := level * string.

(** [Py S A]: a computation over a mutable state [S] that returns an [A]
    or raises.  The state reached when the exception is raised is kept. *)
Definition Py (S A : Type) : Type := S -> result A * S.

Definition ret {S A} (a : A) : Py S A := fun s => (Ok a, s).

Definition bind {S A B} (m : Py S A) (f : A -> Py S B) : Py S B :=
  fun s => match m s with
           | (Ok a, s') => f a s'
           | (Raise e, s') => (Raise e, s')
           end.

Definition raise {S A} (e : exn) : Py S A := fun s => (Raise e, s).

Definition get {S} : Py S S := fun s => (Ok s, s).
Definition modify {S} (f : S -> S) : Py S unit := fun s => (Ok tt, f s).

(** [assert c] *)
Definition py_assert {S} (c : bool) : Py S unit :=
  if c then ret tt else raise AssertionError.

End PyM.
Import PyM.

(** stdpp's monad notations ([x ← m; k] and [m;; k]) are used for [Py]. *)
#[global] Instance Py_ret {S} : MRet (Py S) := fun A => @ret S A.
#[global] Instance Py_bind {S} : MBind (Py S) := fun A B f m => @bind S A B m f.

(** ** Python strings *)

(** [pat in s] on strings: substring test. *)
Definition str_in (pat s : string) : bool :=
  match String.index 0 pat s with Some _ => true | None => false end.

(** [s.startswith(pat)] *)
Definition startswith (s pat : string) : bool := String.prefix pat s.

(** ** src/dico_builder.py *)

Module DicoBuilder.

(** The fields of [params] read by the dictionary builder. *)
Record Params : Type := {
  dico_method : string;
  dico_build : string;
  dico_max_rank : Z;
  dico_max_size : Z;
  dico_min_size : Z;
  dico_threshold : float
}.

(** A logger call appends a record. *)
Definition logger (lv : level) (msg : string) : Py (list log_record) unit :=
  modify (fun l => l ++ [(lv, msg)]).

(** *** Single precision

    [all_scores] is a [FloatTensor]: its entries are binary32 numbers
    (precision 24, exponents up to 128).  Here they are the binary64
    values that are binary32 numbers, and an operation of the tensor
    rounds its exact result to binary32, to nearest with ties to even. *)

(** The binary32 number next to a number; infinities, zeros and NaN stay. *)
Definition SFround32 (f : spec_float) : spec_float :=
  match f with
  | S754_finite s m e => binary_round 24 128 s m e
  | _ => f
  end.

(** A Python float that enters a [FloatTensor] operation (a scalar
    operand, a value written into the tensor). *)
Definition float32 (x : float) : float := SF2Prim (SFround32 (Prim2SF x)).

(** [a - b] on entries of a [FloatTensor]: the binary32 difference of two
    binary32 numbers (a carrier that is not one stands for the nearest). *)
Definition sub32 (a b : float) : float :=
  SF2Prim (SFsub 24 128 (SFround32 (Prim2SF a)) (SFround32 (Prim2SF b))).

(** The sentinel margin of the min-size override: [1e9], written into the
    margin tensor (it is a binary32 number). *)
Definition sentinel : float := float32 1e9%float.

(** A two-column score row and a two-column index row. *)
Abbreviation score_row := (float * float)%type.
Abbreviation index_row := (Z * Z)%type.

(** [all_scores[:, 0] - all_scores[:, 1]] *)
Definition margins (all_scores : list score_row) : list float :=
  map (fun s => sub32 (fst s) (snd s)) all_scores.

(** [t[idx]] for an index tensor [idx]: the rows of [t] at those
    positions; an index out of range raises. *)
Definition index_rows {S A} (t : list A) (idx : list nat) : Py S (list A) :=
  match mapM (fun i => t !! i) idx with
  | Some rows => ret rows
  | None => raise IndexError
  end.

(** [all_pairs]: column 0 is [arange(0, all_targets.size(0))], column 1 is
    [all_targets[:, 0]]. *)
Definition make_pairs (all_targets : list index_row) : list index_row :=
  imap (fun i t => (Z.of_nat i, fst t)) all_targets.

(** "max dico words rank": rows whose larger index is at most
    [dico_max_rank] are kept, in both tensors. *)
Definition rank_keep (p : Params) (row : score_row * index_row) : bool :=
  Z.max (fst (snd row)) (snd (snd row)) <=? dico_max_rank p.

Definition rank_filter (p : Params) (rows : list (score_row * index_row))
  : list (score_row * index_row) :=
  if 0 <? dico_max_rank p then List.filter (rank_keep p) rows else rows.

(** "max dico size": [t[:dico_max_size]] *)
Definition size_cap (p : Params) (rows : list (score_row * index_row))
  : list (score_row * index_row) :=
  if 0 <? dico_max_size p then take (Z.to_nat (dico_max_size p)) rows else rows.

(** "min dico size": [diff[:dico_min_size] = 1e9] *)
Definition min_size_override (p : Params) (diff : list float) : list float :=
  if 0 <? dico_min_size p then
    let k := Z.to_nat (dico_min_size p) in
    replicate (Nat.min k (length diff)) sentinel ++ drop k diff
  else diff.

(** [diff > dico_threshold], elementwise: the comparison of a
    [FloatTensor] with a Python float is made in single precision, with
    the scalar converted to it. *)
Definition above (p : Params) (d : float) : bool :=
  PrimFloat.ltb (float32 (dico_threshold p)) d.

(** [all_pairs.masked_select(mask).view(-1, 2)] *)
Definition masked_select (mask : list bool) (pairs : list index_row)
  : list index_row :=
  map snd (List.filter fst (zip mask pairs)).

(** "confidence threshold" *)
Definition threshold_filter (p : Params) (diff : list float)
    (pairs : list index_row) : Py (list log_record) (list index_row) :=
  if PrimFloat.ltb 0%float (dico_threshold p) then
    let mask := map (above p) diff in
    logger INFO "Selected %i / %i pairs above the confidence threshold.";;
    ret (masked_select mask pairs)
  else ret pairs.

(** Lines 123-140 of [get_candidates]: size cap, min-size override,
    threshold. *)
Definition cap_and_threshold (p : Params) (rows : list (score_row * index_row))
  : Py (list log_record) (list index_row) :=
  let rows := size_cap p rows in
  let diff := margins (map fst rows) in
  let diff := min_size_override p diff in
  threshold_filter p diff (map snd rows).

Section Selector.

(** [diff.sort(0, descending=True)[1]]: torch's sort, returning the
    indices of a descending ordering. *)
Variable argsort_desc : list float -> list nat.

(** Lines 110-114: "sort pairs by score confidence". *)
Definition sort_by_confidence (all_scores : list score_row)
    (all_pairs : list index_row)
  : Py (list log_record) (list (score_row * index_row)) :=
  let diff := margins all_scores in
  let reordered := argsort_desc diff in
  all_scores ← index_rows all_scores reordered;
  all_pairs ← index_rows all_pairs reordered;
  ret (zip all_scores all_pairs).

(** Lines 102-140 of [get_candidates]: from the scorer's [all_scores] and
    [all_targets] (both [n_src] x 2) to the candidate pairs. *)
Definition select_candidates (p : Params) (n_src : Z)
    (all_scores : list score_row) (all_targets : list index_row)
  : Py (list log_record) (list index_row) :=
  let all_pairs := make_pairs all_targets in
  py_assert ((Z.of_nat (length all_scores) =? n_src)
             && (Z.of_nat (length all_pairs) =? n_src));;
  sorted ← sort_by_confidence all_scores all_pairs;
  cap_and_threshold p (rank_filter p sorted).

(** The embeddings and the scorer (lines 31-100: the [nn],
    [invsm_beta_] and [csls_knn_] searches with [topk(2)]). *)
Variable Emb : Type.
Variable size0 : Emb -> Z.
Variable scorer : Emb -> Emb -> Params -> Z
                  -> result (list score_row * list index_row).

(** "number of source words to consider" *)
Definition n_src_of (emb1 : Emb) (p : Params) : Z :=
  if (0 <? dico_max_rank p) && negb (startswith (dico_method p) "invsm_beta_")
  then dico_max_rank p else size0 emb1.

Definition get_candidates (emb1 emb2 : Emb) (p : Params)
  : Py (list log_record) (list index_row) :=
  let n_src := n_src_of emb1 p in
  match scorer emb1 emb2 p n_src with
  | Raise e => raise e
  | Ok (all_scores, all_targets) =>
      select_candidates p n_src all_scores all_targets
  end.

(** [torch.cat([t[:, 1:], t[:, :1]], 1)]: the two columns exchanged. *)
Definition swap_columns (t : list index_row) : list index_row :=
  map (fun r => (snd r, fst r)) t.

(** [set([(a, b) for a, b in t.numpy()])] *)
Definition pair_set (t : list index_row) : gset index_row := list_to_set t.

(** [x.numpy()] where [x] may be [None]. *)
Definition numpy_of {S} (c : option (list index_row)) : Py S (list index_row) :=
  match c with Some t => ret t | None => raise AttributeError end.

(** [len(dico)] raises on [None]. *)
Definition len_checked {S} (c : option (list index_row)) : Py S (list index_row) :=
  match c with Some t => ret t | None => raise TypeError end.

(** [if c is None: c = compute()] *)
Definition or_compute {S} (c : option (list index_row))
    (compute : Py S (list index_row)) : Py S (option (list index_row)) :=
  match c with
  | Some t => ret (Some t)
  | None => t ← compute; ret (Some t)
  end.

(** Lines 148-158 of [build_pairwise_dictionary]: the candidates of each
    direction that takes part in [dico_build]; those of the T2S direction
    are searched with the target as the query, and their columns are then
    exchanged, whether they were searched here or passed in. *)
Definition prepare_candidates (src_emb tgt_emb : Emb) (p : Params)
    (s2t_candidates t2s_candidates : option (list index_row))
  : Py (list log_record) (option (list index_row) * option (list index_row)) :=
  let s2t := str_in "S2T" (dico_build p) in
  let t2s := str_in "T2S" (dico_build p) in
  py_assert (s2t || t2s);;
  s2t_candidates ←
    (if s2t then or_compute s2t_candidates (get_candidates src_emb tgt_emb p)
     else ret s2t_candidates);
  t2s_candidates ←
    (if t2s then
       c ← or_compute t2s_candidates (get_candidates tgt_emb src_emb p);
       ret (swap_columns <$> c)
     else ret t2s_candidates);
  ret (s2t_candidates, t2s_candidates).

(** Lines 160-182: the build policy.  The result is [None] (the early
    [return None], marked [inl tt]) or the pairs; [return_tensor] only
    chooses their container (a tensor or an array), both are the list
    here.  The order in which a Python set is listed is not fixed by the
    language; [elements] stands for it. *)
Definition apply_policy (p : Params)
    (s2t_candidates t2s_candidates : option (list index_row))
  : Py (list log_record) (option (list index_row)) :=
  flow ←
    (if String.eqb (dico_build p) "S2T" then
       ret (inr s2t_candidates)
     else if String.eqb (dico_build p) "T2S" then
       ret (inr t2s_candidates)
     else
       a ← numpy_of s2t_candidates;
       b ← numpy_of t2s_candidates;
       let s2t_set := pair_set a in
       let t2s_set := pair_set b in
       if String.eqb (dico_build p) "S2T|T2S" then
         ret (inr (Some (elements (s2t_set ∪ t2s_set))))
       else
         py_assert (String.eqb (dico_build p) "S2T&T2S");;
         let final_pairs := s2t_set ∩ t2s_set in
         if decide (size final_pairs = 0%nat) then
           logger WARNING "Empty intersection ...";;
           ret (inl tt)
         else ret (inr (Some (elements final_pairs))));
  match flow with
  | inl tt => ret None
  | inr dico =>
      dico ← len_checked dico;
      logger INFO "New train dictionary of %i pairs.";;
      ret (Some dico)
  end.

Definition build_pairwise_dictionary (src_emb tgt_emb : Emb) (p : Params)
    (s2t_candidates t2s_candidates : option (list index_row))
  : Py (list log_record) (option (list index_row)) :=
  logger INFO "Building the train dictionary ...";;
  c ← prepare_candidates src_emb tgt_emb p s2t_candidates t2s_candidates;
  apply_policy p (fst c) (snd c).

End Selector.

(** *** Concrete stand-ins for the external parts *)

(** A sort by descending margin on which the examples are run: insertion
    from the right, an element going before the first one that is not
    larger. *)
Fixpoint insert_desc (x : nat * float) (l : list (nat * float))
  : list (nat * float) :=
  match l with
  | [] => [x]
  | y :: l' =>
      if PrimFloat.ltb (snd x) (snd y) then y :: insert_desc x l' else x :: l
  end.

Definition insertion_argsort (diff : list float) : list nat :=
  map fst (foldr insert_desc [] (imap (fun i d => (i, d)) diff)).

(** A scorer that reads its answer from a table: an "embedding" is the
    pair of tensors the search returns when it is the query. *)
Definition table_emb : Type := list score_row * list index_row.

Definition table_size0 (e : table_emb) : Z := Z.of_nat (length (fst e)).

Definition table_scorer (emb1 emb2 : table_emb) (p : Params) (n_src : Z)
  : result (list score_row * list index_row) :=
  Ok emb1.

(** The intersection policy, with no rank filter, cap, floor or
    threshold. *)
Definition params_both : Params :=
  {| dico_method := "nn"; dico_build := "S2T&T2S"; dico_max_rank := 0;
     dico_max_size := 0; dico_min_size := 0; dico_threshold := 0%float |}.

(** At most three pairs, at least two, and a confidence threshold. *)
Definition params_sized (threshold : float) : Params :=
  {| dico_method := "nn"; dico_build := "S2T"; dico_max_rank := 0;
     dico_max_size := 3; dico_min_size := 2; dico_threshold := threshold |}.

(** Three queries with margins 0.75, 0.25 and 0.125, and their two best
    targets. *)
Definition scores3 : list score_row :=
  [(0.875, 0.125); (0.75, 0.5); (0.625, 0.5)]%float.
Definition targets3 : list index_row := [(7, 1); (8, 2); (9, 3)].

(** Three queries with margins 5e9, 4e9 and 3e9. *)
Definition scores3_huge : list score_row :=
  [(5e9, 0); (4e9, 0); (3e9, 0)]%float.

(** A one-word embedding whose best targets are 4 and 5. *)
Definition emb1 : table_emb := ([(0.875, 0.125)%float], [(4, 5)]).

End DicoBuilder.

(** ** Python dictionaries that are iterated: insertion-ordered *)

Module PyDict.

Definition pydict (V : Type) : Type := list (string * V).

(** [d[k] = v]: an existing key keeps its place. *)
Fixpoint dict_set {V} (k : string) (v : V) (d : pydict V) : pydict V :=
  match d with
  | [] => [(k, v)]
  | (k', v') :: d' =>
      if String.eqb k' k then (k', v) :: d' else (k', v') :: dict_set k v d'
  end.

Fixpoint dict_get {V} (k : string) (d : pydict V) : option V :=
  match d with
  | [] => None
  | (k', v') :: d' => if String.eqb k' k then Some v' else dict_get k d'
  end.

(** [d.keys()] *)
Definition keys {V} (d : pydict V) : list string := map fst d.

End PyDict.
Import PyDict.

(** ** src/trainer.py: the alignment solver *)

Module Procrustes.

Section Solver.

(** Tensors and the numerical routines of torch, numpy and scipy. *)
Variable Tensor : Type.
(** [a.mm(b)] *)
Variable mm : Tensor -> Tensor -> Tensor.
(** [a.transpose(0, 1)] *)
Variable transpose : Tensor -> Tensor.
(** [scipy.linalg.svd(M, full_matrices=True)], giving [(U, S, V_t)] *)
Variable svd : Tensor -> Tensor * Tensor * Tensor.
(** [U.dot(V_t)] *)
Variable dot : Tensor -> Tensor -> Tensor.
(** [torch.mean(torch.stack(ts), 0)] *)
Variable mean_stack : list Tensor -> Tensor.
(** [emb.weight.data[dico[:, i]]]: the rows of an embedding matrix at the
    indices of column [i] of the dictionary; [None] when an index is out
    of range. *)
Variable rows_at : Tensor -> Tensor -> nat -> option Tensor.

(** The trainer's fields used by the solver.  [mapping] holds the weight
    of each language's mapping; it is the only part that is written. *)
Record Trainer : Type := {
  src_emb : Tensor;
  tgt_emb : gmap string Tensor;
  mapping : gmap string Tensor;
  dico : Tensor;
  src_lang : string;
  tgt_lang : list string
}.

Definition with_mapping (m : gmap string Tensor) (t : Trainer) : Trainer :=
  {| src_emb := src_emb t; tgt_emb := tgt_emb t; mapping := m;
     dico := dico t; src_lang := src_lang t; tgt_lang := tgt_lang t |}.

(** [d[k]] on a dictionary keyed by language *)
Definition getitem {S} (d : gmap string Tensor) (k : string) : Py S Tensor :=
  match d !! k with Some v => ret v | None => raise (KeyError k) end.

(** [d[k]] on an insertion-ordered dictionary *)
Definition dict_getitem {S} (d : pydict Tensor) (k : string) : Py S Tensor :=
  match dict_get k d with Some v => ret v | None => raise (KeyError k) end.

(** [l[0]], [l[-1]] *)
Definition first_item {S} (l : list string) : Py S string :=
  match l with x :: _ => ret x | [] => raise IndexError end.

Definition last_item {S} (l : list string) : Py S string :=
  match last l with Some x => ret x | None => raise IndexError end.

(** [emb.weight.data[self.dico[:, i]]] *)
Definition matched_points {S} (emb dico : Tensor) (i : nat) : Py S Tensor :=
  match rows_at emb dico i with Some x => ret x | None => raise IndexError end.

(** The orthogonal matrix [U.dot(V_t)] of [U, S, V_t = svd(M)]. *)
Definition polar (M : Tensor) : Tensor :=
  let '(U, _, V_t) := svd M in dot U V_t.

(** [T[lang].copy_(w)]: [T[lang]] is the weight tensor of
    [self.mapping[lang]] itself, so the copy writes the mapping. *)
Definition copy_to_mapping (lang : string) (w : Tensor) : Py Trainer unit :=
  t ← get;
  _ ← getitem (mapping t) lang;
  modify (with_mapping (<[lang := w]> (mapping t))).

(** [simple_procrustes] *)
Definition simple_procrustes : Py Trainer unit :=
  t ← get;
  A ← matched_points (src_emb t) (dico t) 0;
  last_lang ← last_item (tgt_lang t);
  e ← getitem (tgt_emb t) last_lang;
  B ← matched_points e (dico t) 1;
  _ ← getitem (mapping t) (src_lang t);
  let M := mm (transpose B) A in
  copy_to_mapping (src_lang t) (polar M).

(** [get_group_average(X, T)]; [T[lang]] reads the current mapping. *)
Definition get_group_average (X : pydict Tensor) : Py Trainer Tensor :=
  t ← get;
  mapped ← mapM (M := Py Trainer)
             (fun kv => w ← getitem (mapping t) (fst kv); ret (mm (snd kv) w)) X;
  ret (mean_stack mapped).

(** [for _ in range(n): body], threading the local variables the body
    rebinds. *)
Fixpoint for_range {S L} (n : nat) (body : L -> Py S L) (l : L) : Py S L :=
  match n with
  | O => ret l
  | S n' => l' ← body l; for_range n' body l'
  end.

(** [{lang: self.tgt_emb[lang].weight.data[self.dico[:, i]]
      for i, lang in enumerate(lang_list, i)}], added to [X]. *)
Fixpoint target_points (t : Trainer) (i : nat) (lang_list : list string)
    (X : pydict Tensor) : Py Trainer (pydict Tensor) :=
  match lang_list with
  | [] => ret X
  | lang :: rest =>
      e ← getitem (tgt_emb t) lang;
      x ← matched_points e (dico t) i;
      target_points t (S i) rest (dict_set lang x X)
  end.

(** Lines 202-205 of [generalized_procrustes]: the matched points [X] of
    every participating language.  [T] is built from the same keys; its
    values are the mappings' own weight tensors, so building it only
    checks that each language has a mapping. *)
Definition assemble (support : bool) : Py Trainer (pydict Tensor) :=
  t ← get;
  lang_list ← (if negb support then l ← last_item (tgt_lang t); ret [l]
               else ret (tgt_lang t));
  X ← target_points t 1 lang_list [];
  x0 ← matched_points (src_emb t) (dico t) 0;
  let X := dict_set (src_lang t) x0 X in
  _ ← mapM (M := Py Trainer) (getitem (mapping t)) (src_lang t :: lang_list);
  ret X.

(** Lines 212-215: "superimpose all instances to current reference
    shape". *)
Definition superimpose (X : pydict Tensor) (G : Tensor) : Py Trainer unit :=
  _ ← mapM (M := Py Trainer)
        (fun kv => copy_to_mapping (fst kv) (polar (mm (transpose G) (snd kv))))
        X;
  ret tt.

(** The body of the loop; it leaves [initial_run] false. *)
Definition iteration (X : pydict Tensor) (initial_run : bool)
  : Py Trainer bool :=
  t ← get;
  G ← (if initial_run then
         l0 ← first_item (tgt_lang t);
         dict_getitem X l0
       else get_group_average X);
  superimpose X G;;
  ret false.

(** [generalized_procrustes] *)
Definition generalized_procrustes (support initial_run : bool)
  : Py Trainer unit :=
  X ← assemble support;
  _ ← for_range 100 (iteration X) initial_run;
  ret tt.

(** *** What one iteration computes *)

(** The mapped points [X[lang].mm(T[lang])] under the mappings [m]. *)
Definition mapped_points (X : pydict Tensor) (m : gmap string Tensor)
  : option (list Tensor) :=
  mapM (fun kv => w ← m !! fst kv; Some (mm (snd kv) w)) X.

(** The mappings after every language of [X] is superimposed on [G]. *)
Definition superimposed (X : pydict Tensor) (G : Tensor)
    (m : gmap string Tensor) : gmap string Tensor :=
  foldl (fun m kv => <[fst kv := polar (mm (transpose G) (snd kv))]> m) m X.

(** *** The shape of a run *)

(** Every language of [X] has a mapping. *)
Definition covers (X : pydict Tensor) (m : gmap string Tensor) : Prop :=
  forall k, k ∈ keys X -> is_Some (m !! k).

(** The languages whose points are assembled. *)
Definition lang_list_of (support : bool) (t : Trainer)
    (lang_list : list string) : Prop :=
  if support then lang_list = tgt_lang t
  else exists l, last (tgt_lang t) = Some l /\ lang_list = [l].

(** The reference of an iteration: the first target language's points
    when [initial_run] holds, the mean of the mapped points otherwise. *)
Definition reference_of (t : Trainer) (X : pydict Tensor)
    (initial_run : bool) (m : gmap string Tensor) (G : Tensor) : Prop :=
  if initial_run
  then exists l0, head (tgt_lang t) = Some l0 /\ dict_get l0 X = Some G
  else exists pts, mapped_points X m = Some pts /\ G = mean_stack pts.

(** The run of [n] iterations: [refs] lists the reference of each
    iteration, [maps] the mappings before the first iteration and after
    each one. *)
Definition run_trace (t : Trainer) (X : pydict Tensor) (initial_run : bool)
    (n : nat) (refs : list Tensor) (maps : list (gmap string Tensor)) : Prop :=
  length refs = n /\ length maps = S n
  /\ maps !! 0%nat = Some (mapping t)
  /\ forall k G m, refs !! k = Some G -> maps !! k = Some m ->
       reference_of t X (initial_run && (k =? 0)%nat) m G
       /\ maps !! S k = Some (superimposed X G m).

End Solver.

(** *** A concrete instance: one word per language, one dimension

    Every tensor is then a 1x1 matrix, a rational number. *)

Definition scalar_svd (m : Q) : Q * Q * Q :=
  if Qle_bool 0 m then (1%Q, m, 1%Q) else ((-1)%Q, Qopp m, 1%Q).

Definition scalar_mean (ts : list Q) : Q :=
  Qred (Qdiv (foldr Qplus 0%Q ts) (inject_Z (Z.of_nat (length ts)))).

Definition scalar_rows (emb : Q) (dico : Q) (i : nat) : option Q :=
  if (i <? 3)%nat then Some emb else None.

Abbreviation scalar_solver :=
  (generalized_procrustes Q Qmult (fun x => x) scalar_svd Qmult scalar_mean
     scalar_rows).

(** English mapped to Spanish and French. *)
Definition trainer_en_es_fr : Trainer Q :=
  {| src_emb := 2%Q;
     tgt_emb := {[ "es"%string := 3%Q; "fr"%string := (-5)%Q ]};
     mapping := {[ "en"%string := 1%Q; "es"%string := 1%Q; "fr"%string := 1%Q ]};
     dico := 0%Q;
     src_lang := "en";
     tgt_lang := ["es"%string; "fr"%string] |}.

End Procrustes.

(** ** src/trainer.py: the adversarial steps *)

Module Steps.

(** [loss != loss]: true of NaN only. *)
Definition is_nan (x : float) : bool := negb (PrimFloat.eqb x x).

Section Adversarial.

(** The discriminator (its parameters, their gradients, its mode and the
    state of its optimizer), the source mapping (likewise) and whatever
    else a step reads or changes (the random generator,
    [params.dis_most_frequent]). *)
Variable Dis : Type.
Variable Map : Type.
Variable World : Type.
(** Batches, smoothed labels and predictions. *)
Variable Batch : Type.
Variable Labels : Type.
Variable Preds : Type.

(** [self.discriminator.train()], [self.discriminator.eval()] *)
Variable train_mode : Dis -> Dis.
Variable eval_mode : Dis -> Dis.
(** [self.get_dis_xy(volatile)] *)
Variable get_dis_xy : bool -> Map -> World -> Batch * Labels * World.
(** [self.discriminator(x)] *)
Variable forward : Dis -> Batch -> Preds.
(** [F.binary_cross_entropy(preds, y)] and [1 - y] *)
Variable binary_cross_entropy : Preds -> Labels -> float.
Variable flip : Labels -> Labels.
(** The discriminator's optimizer: [zero_grad()], [loss.backward()],
    [step()], then [clip_parameters]. *)
Variable dis_zero_grad : Dis -> Dis.
Variable dis_backward : Dis -> Batch -> Labels -> Dis.
Variable dis_optim_step : Dis -> Dis.
Variable clip_parameters : Dis -> float -> Dis.
(** The mapping's optimizer; the backward pass of the fooling loss runs
    through the discriminator into the mapping. *)
Variable map_zero_grad : Map -> Map.
Variable map_backward : float -> Map * Dis -> Batch -> Labels -> Map * Dis.
Variable map_optim_step : Map -> Map.
(** [self.orthogonalize()] *)
Variable orthogonalize : Map -> Map.

Record Params : Type := {
  dis_lambda : float;
  dis_clip_weights : float;
  batch_size : Z
}.

Record Trainer : Type := {
  discriminator : Dis;
  mapping : Map;
  world : World;
  dis_costs : list float;
  log : list log_record
}.

Definition set_discriminator (d : Dis) (t : Trainer) : Trainer :=
  {| discriminator := d; mapping := mapping t; world := world t;
     dis_costs := dis_costs t; log := log t |}.

Definition set_mapping (m : Map) (t : Trainer) : Trainer :=
  {| discriminator := discriminator t; mapping := m; world := world t;
     dis_costs := dis_costs t; log := log t |}.

Definition set_world (w : World) (t : Trainer) : Trainer :=
  {| discriminator := discriminator t; mapping := mapping t; world := w;
     dis_costs := dis_costs t; log := log t |}.

(** [stats['DIS_COSTS'].append(c)] *)
Definition append_cost (c : float) (t : Trainer) : Trainer :=
  {| discriminator := discriminator t; mapping := mapping t; world := world t;
     dis_costs := dis_costs t ++ [c]; log := log t |}.

Definition log_error (msg : string) (t : Trainer) : Trainer :=
  {| discriminator := discriminator t; mapping := mapping t;
     world := world t; dis_costs := dis_costs t;
     log := log t ++ [(ERROR, msg)] |}.

(** [exit()] *)
Definition exit {A} : Py Trainer A := raise SystemExit.

(** The call of [get_dis_xy]. *)
Definition sample (volatile : bool) : Py Trainer (Batch * Labels) :=
  t ← get;
  let '(x, y, w) := get_dis_xy volatile (mapping t) (world t) in
  modify (set_world w);;
  ret (x, y).

(** The optimizer part of [dis_step], lines 101-105. *)
Definition dis_optim (p : Params) (x : Batch) (y : Labels) : Py Trainer unit :=
  modify (fun t => set_discriminator (dis_zero_grad (discriminator t)) t);;
  modify (fun t => set_discriminator (dis_backward (discriminator t) x y) t);;
  modify (fun t => set_discriminator (dis_optim_step (discriminator t)) t);;
  modify (fun t =>
    set_discriminator (clip_parameters (discriminator t) (dis_clip_weights p)) t).

(** [dis_step] *)
Definition dis_step (p : Params) : Py Trainer unit :=
  modify (fun t => set_discriminator (train_mode (discriminator t)) t);;
  xy ← sample true;
  t ← get;
  let preds := forward (discriminator t) (fst xy) in
  let loss := binary_cross_entropy preds (snd xy) in
  modify (append_cost loss);;
  (if is_nan loss then
     modify (log_error "NaN detected (discriminator)");; exit
   else ret tt);;
  dis_optim p (fst xy) (snd xy).

(** The optimizer part of [mapping_step], lines 127-131. *)
Definition map_optim (p : Params) (x : Batch) (y : Labels) : Py Trainer unit :=
  modify (fun t => set_mapping (map_zero_grad (mapping t)) t);;
  modify (fun t =>
    let md := map_backward (dis_lambda p) (mapping t, discriminator t) x y in
    set_discriminator (snd md) (set_mapping (fst md) t));;
  modify (fun t => set_mapping (map_optim_step (mapping t)) t);;
  modify (fun t => set_mapping (orthogonalize (mapping t)) t).

(** [mapping_step] *)
Definition mapping_step (p : Params) : Py Trainer Z :=
  if PrimFloat.eqb (dis_lambda p) 0%float then ret 0
  else
    modify (fun t => set_discriminator (eval_mode (discriminator t)) t);;
    xy ← sample false;
    t ← get;
    let preds := forward (discriminator t) (fst xy) in
    let loss := binary_cross_entropy preds (flip (snd xy)) in
    let loss := PrimFloat.mul (dis_lambda p) loss in
    (if is_nan loss then
       modify (log_error "NaN detected (fool discriminator)");; exit
     else ret tt);;
    map_optim p (fst xy) (flip (snd xy));;
    ret (2 * batch_size p).

(** The loss a discriminator step computes in state [t], and the loss a
    mapping step computes. *)
Definition dis_loss (t : Trainer) : float :=
  let '(x, y, _) := get_dis_xy true (mapping t) (world t) in
  binary_cross_entropy (forward (train_mode (discriminator t)) x) y.

Definition fool_loss (p : Params) (t : Trainer) : float :=
  let '(x, y, _) := get_dis_xy false (mapping t) (world t) in
  PrimFloat.mul (dis_lambda p)
    (binary_cross_entropy (forward (eval_mode (discriminator t)) x) (flip y)).

End Adversarial.

(** *** A concrete instance: a discriminator that is a single weight *)

(** Each object records the calls made on it. *)
Inductive call : Type :=
  | TrainMode | EvalMode | ZeroGrad | Backward | OptimStep | Clip
  | Orthogonalize.

Definition toy_trainer : Trainer (list call) (list call) unit :=
  {| discriminator := []; mapping := []; world := tt; dis_costs := [];
     log := [] |}.

Definition toy_dis_step (loss : float) :=
  dis_step (list call) (list call) unit unit unit unit
    (fun d => d ++ [TrainMode]) (fun _ _ w => (tt, tt, w))
    (fun _ _ => tt) (fun _ _ => loss)
    (fun d => d ++ [ZeroGrad]) (fun d _ _ => d ++ [Backward])
    (fun d => d ++ [OptimStep]) (fun d _ => d ++ [Clip]).

Definition toy_mapping_step (loss : float) :=
  mapping_step (list call) (list call) unit unit unit unit
    (fun d => d ++ [EvalMode]) (fun _ _ w => (tt, tt, w))
    (fun _ _ => tt) (fun _ _ => loss) (fun y => y)
    (fun m => m ++ [ZeroGrad])
    (fun _ md _ _ => (fst md ++ [Backward], snd md ++ [Backward]))
    (fun m => m ++ [OptimStep]) (fun m => m ++ [Orthogonalize]).

Definition toy_params (lambda : float) : Params :=
  {| dis_lambda := lambda; dis_clip_weights := 0%float; batch_size := 32 |}.

End Steps.

(** ** src/trainer.py: validation, learning rate and checkpoints *)

Module Schedule.

Local Open Scope Q_scope.

(** Python's comparisons and [max] on numbers. *)
Definition Qleb (a b : Q) : bool := Qle_bool a b.
Definition Qltb (a b : Q) : bool := negb (Qle_bool b a).

(** [max(a, b)]: [b] when it is larger, else [a]. *)
Definition py_max (a b : Q) : Q := if Qltb a b then b else a.

Record Params : Type := {
  map_optimizer : string;
  min_lr : Q;
  lr_decay : Q;
  lr_shrink : Q;
  (** [[src_lang] + tgt_lang] *)
  langs : list string
}.

(** The trainer's scheduling state: the learning rate of the mapping
    optimizer ([param_groups[0]['lr']]), the best validation metric, the
    flag [decrease_lr], the checkpoint files written and the log. *)
Record Trainer : Type := {
  lr : Q;
  best_valid_metric : Q;
  decrease_lr : bool;
  saved : list string;
  log : list log_record
}.

(** [__init__]: "best validation score" and the flag. *)
Definition init (lr0 : Q) : Trainer :=
  {| lr := lr0; best_valid_metric := - (1000000000000 # 1);
     decrease_lr := false; saved := []; log := [] |}.

Definition set_lr (x : Q) (t : Trainer) : Trainer :=
  {| lr := x; best_valid_metric := best_valid_metric t;
     decrease_lr := decrease_lr t; saved := saved t; log := log t |}.

Definition set_decrease_lr (b : bool) (t : Trainer) : Trainer :=
  {| lr := lr t; best_valid_metric := best_valid_metric t;
     decrease_lr := b; saved := saved t; log := log t |}.

Definition set_best (x : Q) (t : Trainer) : Trainer :=
  {| lr := lr t; best_valid_metric := x;
     decrease_lr := decrease_lr t; saved := saved t; log := log t |}.

Definition logger_info (msg : string) (t : Trainer) : Trainer :=
  {| lr := lr t; best_valid_metric := best_valid_metric t;
     decrease_lr := decrease_lr t; saved := saved t;
     log := log t ++ [(INFO, msg)] |}.

(** [torch.save(W[lang], path[lang])], after its log line. *)
Definition save_mapping (lang : string) (t : Trainer) : Trainer :=
  let t := logger_info "* Saving the mapping to %s ..." t in
  {| lr := lr t; best_valid_metric := best_valid_metric t;
     decrease_lr := decrease_lr t;
     saved := saved t ++ [("best_mapping." ++ lang ++ ".pth")%string];
     log := log t |}.

Definition msg_decreasing : string := "Decreasing learning rate: %.8f -> %.8f".
Definition msg_smaller : string :=
  "Validation metric is smaller than the best: %.5f vs %.5f".
Definition msg_shrinking : string := "Shrinking the learning rate: %.5f -> %.5f".
(** The format has the metric's name between double quotes (character 34). *)
Definition msg_best : string :=
  ("* Best value for " ++ String (Ascii.ascii_of_nat 34) "%s"
   ++ String (Ascii.ascii_of_nat 34) ": %.5f")%string.

(** Lines 234-238 of [update_lr]: the decay. *)
Definition decay (p : Params) (t : Trainer) : Trainer :=
  let old_lr := lr t in
  let new_lr := py_max (min_lr p) (old_lr * lr_decay p) in
  if Qltb new_lr old_lr then set_lr new_lr (logger_info msg_decreasing t)
  else t.

(** Lines 240-251 of [update_lr]: the shrink. *)
Definition shrink (p : Params) (metric : Q) (t : Trainer) : Trainer :=
  if Qltb (lr_shrink p) 1 && Qleb (- (10000000 # 1)) metric then
    if Qltb metric (best_valid_metric t) then
      let t := logger_info msg_smaller t in
      let t :=
        if decrease_lr t then
          logger_info msg_shrinking (set_lr (lr t * lr_shrink p) t)
        else t in
      set_decrease_lr true t
    else t
  else t.

(** [update_lr(to_log, metric)], given the value [to_log[metric]]. *)
Definition update_lr (p : Params) (metric : Q) (t : Trainer) : Trainer :=
  if negb (str_in "sgd" (map_optimizer p)) then t
  else shrink p metric (decay p t).

(** [save_best(to_log, metric)] *)
Definition save_best (p : Params) (metric : Q) (t : Trainer) : Trainer :=
  if Qltb (best_valid_metric t) metric then
    let t := set_best metric t in
    let t := logger_info msg_best t in
    foldl (fun t lang => save_mapping lang t) t (langs p)
  else t.

(** The calls made on the trainer at the end of an epoch, in any order
    and number. *)
Inductive call : Type :=
  | SaveBest (metric : Q)
  | UpdateLr (metric : Q).

Definition do_call (p : Params) (c : call) (t : Trainer) : Trainer :=
  match c with
  | SaveBest m => save_best p m t
  | UpdateLr m => update_lr p m t
  end.

Definition run (p : Params) (cs : list call) (t : Trainer) : Trainer :=
  foldl (fun t c => do_call p c t) t cs.

(** An evaluated epoch: the checkpoint, then the learning rate; and the
    same two calls the other way round. *)
Definition epoch (metric : Q) : list call := [SaveBest metric; UpdateLr metric].
Definition epoch_lr_first (metric : Q) : list call :=
  [UpdateLr metric; SaveBest metric].

(** The number of records with a given message. *)
Definition count_msg (msg : string) (l : list log_record) : nat :=
  length (List.filter (fun r => String.eqb (snd r) msg) l).

(** SGD with no decay and a halving shrink. *)
Definition params_halving : Params :=
  {| map_optimizer := "sgd,lr=1"; min_lr := 0; lr_decay := 1;
     lr_shrink := 1 # 2; langs := ["en"%string; "es"%string] |}.

(** Three epochs with metrics 5, 4 and 6, then the checkpoint call of a
    fourth with metric 5. *)
Definition calls_5_4_6 : list call := epoch 5 ++ epoch 4 ++ epoch 6.
Definition calls_5_4_6_5 : list call := calls_5_4_6 ++ [SaveBest 5].

(** Three epochs with metrics 5, 4 and 3, then the checkpoint call of a
    fourth with metric 2. *)
Definition calls_5_4_3_2 : list call :=
  epoch 5 ++ epoch 4 ++ epoch 3 ++ [SaveBest 2].

End Schedule.

(** ** [update_lr] on Python floats

    The same lines 228-251 with the numbers as the code has them:
    binary64 floats, whose product is rounded and whose comparisons are
    all false on NaN. *)

Module FloatSchedule.

(** [max(a, b)]: [b] when [b > a], else [a]. *)
Definition py_max (a b : float) : float := if PrimFloat.ltb a b then b else a.

Record Params : Type := {
  map_optimizer : string;
  min_lr : float;
  lr_decay : float;
  lr_shrink : float
}.

(** The learning rate of the mapping optimizer
    ([param_groups[0]['lr']]), the best validation metric, the flag
    [decrease_lr] and the log. *)
Record Trainer : Type := {
  lr : float;
  best_valid_metric : float;
  decrease_lr : bool;
  log : list log_record
}.

Definition set_lr (x : float) (t : Trainer) : Trainer :=
  {| lr := x; best_valid_metric := best_valid_metric t;
     decrease_lr := decrease_lr t; log := log t |}.

Definition set_decrease_lr (b : bool) (t : Trainer) : Trainer :=
  {| lr := lr t; best_valid_metric := best_valid_metric t;
     decrease_lr := b; log := log t |}.

Definition logger_info (msg : string) (t : Trainer) : Trainer :=
  {| lr := lr t; best_valid_metric := best_valid_metric t;
     decrease_lr := decrease_lr t; log := log t ++ [(INFO, msg)] |}.

(** Lines 234-238 of [update_lr]: the decay. *)
Definition decay (p : Params) (t : Trainer) : Trainer :=
  let old_lr := lr t in
  let new_lr := py_max (min_lr p) (PrimFloat.mul old_lr (lr_decay p)) in
  if PrimFloat.ltb new_lr old_lr
  then set_lr new_lr (logger_info Schedule.msg_decreasing t)
  else t.

(** Lines 240-251 of [update_lr]: the shrink. *)
Definition shrink (p : Params) (metric : float) (t : Trainer) : Trainer :=
  if PrimFloat.ltb (lr_shrink p) 1 && PrimFloat.leb (-1e7) metric then
    if PrimFloat.ltb metric (best_valid_metric t) then
      let t := logger_info Schedule.msg_smaller t in
      let t :=
        if decrease_lr t then
          logger_info Schedule.msg_shrinking
            (set_lr (PrimFloat.mul (lr t) (lr_shrink p)) t)
        else t in
      set_decrease_lr true t
    else t
  else t.

(** [update_lr(to_log, metric)], given the value [to_log[metric]]. *)
Definition update_lr (p : Params) (metric : float) (t : Trainer) : Trainer :=
  if negb (str_in "sgd" (map_optimizer p)) then t
  else shrink p metric (decay p t).





End FloatSchedule.

(** ** More inputs for the dictionary builder *)

Module DicoBuilderInputs.
Import DicoBuilder.

(** A rank filter and nothing else. *)
Definition params_ranked (max_rank : Z) : Params :=
  {| dico_method := "nn"; dico_build := "S2T"; dico_max_rank := max_rank;
     dico_max_size := 0; dico_min_size := 0; dico_threshold := 0%float |}.

(** A threshold of one half and no floor. *)
Definition params_thresholded : Params :=
  {| dico_method := "nn"; dico_build := "S2T"; dico_max_rank := 0;
     dico_max_size := 0; dico_min_size := 0; dico_threshold := 0.5%float |}.

(** The policies. *)
Definition params_policy (build : string) : Params :=
  {| dico_method := "nn"; dico_build := build; dico_max_rank := 0;
     dico_max_size := 0; dico_min_size := 0; dico_threshold := 0%float |}.

(** Both directions named, in an order that is no known policy, and a
    threshold of one half. *)
Definition params_unknown : Params :=
  {| dico_method := "nn"; dico_build := "T2S|S2T"; dico_max_rank := 0;
     dico_max_size := 0; dico_min_size := 0; dico_threshold := 0.5%float |}.

(** The log lines of a successful build. *)
Definition building : list log_record :=
  [(INFO, "Building the train dictionary ..."%string)].
Definition built : list log_record :=
  [(INFO, "New train dictionary of %i pairs."%string)].

End DicoBuilderInputs.

(** ** src/dico_builder.py: the multilingual dictionary *)

Module CrossMatch.
Import DicoBuilder.

(** A pairwise dictionary: an array of shape (n, 2), source index then
    target index. *)
Abbreviation table := (list index_row).

(** Dictionaries keyed by language; an entry may be [None], the answer of
    [build_pairwise_dictionary] on an empty intersection. *)
Abbreviation tables := (gmap string (option table)).

(** [d[lang]] as an array: a missing key raises, and [None] can be
    neither iterated nor sliced. *)
Definition table_of {S} (d : tables) (lang : string) : Py S table :=
  match d !! lang with
  | None => raise (KeyError lang)
  | Some None => raise TypeError
  | Some (Some t) => ret t
  end.

(** The answer of a routine that may raise. *)
Definition of_result {S A} (r : result A) : Py S A :=
  match r with Ok a => ret a | Raise e => raise e end.

(** [l[i]] *)
Definition item {S} (l : list string) (i : nat) : Py S string :=
  match l !! i with Some x => ret x | None => raise IndexError end.

(** [l[-1]] *)
Definition last_of {S} (l : list string) : Py S string :=
  match last l with Some x => ret x | None => raise IndexError end.

(** [x in t[:, 0]] and [x in t[:, 1]] *)
Definition in_sources (x : Z) (t : table) : bool :=
  existsb (fun r => fst r =? x) t.
Definition in_targets (x : Z) (t : table) : bool :=
  existsb (fun r => snd r =? x) t.

(** [t[np.where(t[:, 0] == x)][0]] and [t[np.where(t[:, 1] == x)][0]]:
    the first row with that source, or with that target. *)
Definition first_with_source {S} (x : Z) (t : table) : Py S index_row :=
  match List.find (fun r => fst r =? x) t with
  | Some r => ret r
  | None => raise IndexError
  end.
Definition first_with_target {S} (x : Z) (t : table) : Py S index_row :=
  match List.find (fun r => snd r =? x) t with
  | Some r => ret r
  | None => raise IndexError
  end.

(** [for x in l: acc = body(x, acc)] *)
Fixpoint for_each {S A B} (l : list A) (body : A -> B -> Py S B) (acc : B)
  : Py S B :=
  match l with
  | [] => ret acc
  | x :: l' => acc' ← body x acc; for_each l' body acc'
  end.

Section Matcher.

(** [params.tgt_lang] *)
Variable tgt_lang : list string.

(** The bridged row of the [elif] branch, lines 194-197. *)
Definition bridge_forward (dico_inbn : tables) (row : index_row)
    (final_dico : list (list Z)) : Py (list log_record) (list (list Z)) :=
  l1 ← item tgt_lang 1;
  b ← table_of dico_inbn l1;
  if in_sources (snd row) b then
    r ← first_with_source (snd row) b;
    ret (final_dico ++ [[fst row; snd row; snd r]])
  else ret final_dico.

(** The body of the first loop, lines 188-197. *)
Definition match_row (lang_list : list string) (dico : tables)
    (dico_inbn : option tables) (row : index_row) (final_dico : list (list Z))
  : Py (list log_record) (list (list Z)) :=
  let src_word := fst row in
  found ← mapM (M := Py (list log_record))
            (fun lang => t ← table_of dico lang; ret (in_sources src_word t))
            lang_list;
  if forallb (fun b : bool => b) found then
    targets ← mapM (M := Py (list log_record))
                (fun lang => t ← table_of dico lang;
                             r ← first_with_source src_word t;
                             ret (snd r))
                lang_list;
    ret (final_dico ++ [src_word :: targets])
  else
    match dico_inbn with
    | Some inbn => bridge_forward inbn row final_dico
    | None => ret final_dico
    end.

(** The body of the second loop, lines 200-206. *)
Definition bridge_backward (dico : tables) (dico_inbn : tables)
    (row : index_row) (final_dico : list (list Z))
  : Py (list log_record) (list (list Z)) :=
  let src_word := fst row in
  l0 ← item tgt_lang 0;
  t0 ← table_of dico l0;
  if negb (in_sources src_word t0) then
    l1 ← item tgt_lang 1;
    b ← table_of dico_inbn l1;
    if in_targets (snd row) b then
      r ← first_with_target (snd row) b;
      ret (final_dico ++ [[src_word; fst r; snd row]])
    else ret final_dico
  else ret final_dico.

(** [cross_match_dictionary].  The result is the list [final_dico] of
    rows; [np.array] and [torch.from_numpy] then turn it into a tensor,
    which takes rows of one length.  Rows of different lengths can only
    come from a dictionary between the target languages together with
    more than two listed languages; the properties below stay clear of
    that case. *)
Definition cross_match_dictionary (lang_list : list string) (dico : tables)
    (dico_inbn : option tables) : Py (list log_record) (list (list Z)) :=
  l0 ← item lang_list 0;
  first ← table_of dico l0;
  final_dico ← for_each first (match_row lang_list dico dico_inbn) [];
  final_dico ←
    match dico_inbn with
    | Some inbn =>
        l ← last_of tgt_lang;
        rows ← table_of dico l;
        for_each rows (bridge_backward dico inbn) final_dico
    | None => ret final_dico
    end;
  logger INFO "New FINAL train dictionary of %i pairs.";;
  ret final_dico.

End Matcher.

Section Builder.

Variable argsort_desc : list float -> list nat.
Variable Emb : Type.
Variable size0 : Emb -> Z.
Variable scorer : Emb -> Emb -> Params -> Z
                  -> result (list score_row * list index_row).

(** [tgt_emb[lang]] *)
Definition emb_of {S} (tgt_emb : gmap string Emb) (lang : string) : Py S Emb :=
  match tgt_emb !! lang with Some e => ret e | None => raise (KeyError lang) end.

(** "only consider the last target language if no support" *)
Definition lang_list_for {S} (support : bool) (tgt_lang : list string)
  : Py S (list string) :=
  if negb support then l ← last_of tgt_lang; ret [l] else ret tgt_lang.

(** [build_dictionary] *)
Definition build_dictionary (src_emb : Emb) (tgt_emb : gmap string Emb)
    (p : Params) (tgt_lang : list string) (support : bool)
    (s2t_candidates t2s_candidates : option (list index_row))
  : Py (list log_record) (list (list Z)) :=
  lang_list ← lang_list_for support tgt_lang;
  dico ← for_each lang_list
           (fun lang (dico : tables) =>
              e ← emb_of tgt_emb lang;
              d ← build_pairwise_dictionary argsort_desc Emb size0 scorer
                    src_emb e p s2t_candidates t2s_candidates;
              ret (<[lang := d]> dico))
           ∅;
  dico_inbn ←
    (if support && (1 <? length lang_list)%nat then
       l0 ← item tgt_lang 0;
       e0 ← emb_of tgt_emb l0;
       l1 ← item tgt_lang 1;
       e1 ← emb_of tgt_emb l1;
       d ← build_pairwise_dictionary argsort_desc Emb size0 scorer
             e0 e1 p s2t_candidates t2s_candidates;
       l1 ← item tgt_lang 1;
       ret (Some (<[l1 := d]> (∅ : tables)))
     else ret None);
  cross_match_dictionary tgt_lang lang_list dico dico_inbn.

End Builder.

Section Loader.

(** The word-to-index tables and the loaders of
    [evaluation.word_translation]; a loader raises when it finds no file
    or no pair. *)
Variable Vocab : Type.
Variable load_identical_char_dico : Vocab -> Vocab -> result table.
Variable load_identical_num_dico : Vocab -> Vocab -> result table.
Variable load_dictionary : string -> Vocab -> Vocab -> result table.
(** [os.path.join(DIC_EVAL_PATH, '%s-%s.0-5000.txt' % (src_lang, lang))] *)
Variable default_path : string -> string -> string.

Definition vocab_of {S} (tgt_dico : gmap string Vocab) (lang : string)
  : Py S Vocab :=
  match tgt_dico !! lang with Some v => ret v | None => raise (KeyError lang) end.

(** The dictionary of one target language, lines 148-162 of
    [load_training_dico]. *)
Definition load_for (dico_train src_lang : string) (word2id1 word2id2 : Vocab)
    (lang : string) : result table :=
  if String.eqb dico_train "identical_char" then
    load_identical_char_dico word2id1 word2id2
  else if String.eqb dico_train "identical_num" then
    load_identical_num_dico word2id1 word2id2
  else if String.eqb dico_train "default" then
    load_dictionary (default_path src_lang lang) word2id1 word2id2
  else load_dictionary dico_train word2id1 word2id2.

(** [Trainer.load_training_dico]; the result is what it stores in
    [self.dico].  The dictionary between the target languages starts as
    [{}], not as [None]. *)
Definition load_training_dico (src_lang : string) (tgt_lang : list string)
    (src_dico : Vocab) (tgt_dico : gmap string Vocab)
    (dico_train : string) (support : bool)
  : Py (list log_record) (list (list Z)) :=
  dico ← for_each tgt_lang
           (fun lang (dico : tables) =>
              word2id2 ← vocab_of tgt_dico lang;
              t ← of_result (load_for dico_train src_lang src_dico
                               word2id2 lang);
              ret (<[lang := Some t]> dico))
           ∅;
  dico_inbn ←
    (if support && (1 <? length tgt_lang)%nat then
       l0 ← item tgt_lang 0;
       v0 ← vocab_of tgt_dico l0;
       l1 ← item tgt_lang 1;
       v1 ← vocab_of tgt_dico l1;
       t ← of_result (load_identical_char_dico v0 v1);
       l1 ← item tgt_lang 1;
       ret (<[l1 := Some t]> (∅ : tables))
     else ret (∅ : tables));
  cross_match_dictionary tgt_lang tgt_lang dico (Some dico_inbn).

(** The language has a vocabulary, and its dictionary loads as [t]. *)
Definition loads (src_lang dico_train : string) (src_dico : Vocab)
    (tgt_dico : gmap string Vocab) (lang : string) (t : table) : Prop :=
  exists v, tgt_dico !! lang = Some v
            /\ load_for dico_train src_lang src_dico v lang = Ok t.

End Loader.

(** The target a table records first for a source. *)
Definition first_target (t : table) (x : Z) : option Z :=
  snd <$> List.find (fun r => fst r =? x) t.

(** Every language of the list has a table. *)
Definition all_present (dico : tables) (lang_list : list string) : Prop :=
  forall lang, lang ∈ lang_list -> exists t, dico !! lang = Some (Some t).

(** A source that every listed table knows. *)
Definition known_everywhere (dico : tables) (lang_list : list string) (x : Z)
  : Prop :=
  forall lang t, lang ∈ lang_list -> dico !! lang = Some (Some t) ->
                 in_sources x t = true.

(** A row of the result that agrees with every table: a source of the
    first table, then for every listed language the target its table
    records first for that source. *)
Definition consistent_row (dico : tables) (lang_list : list string)
    (first : table) (out : list Z) : Prop :=
  exists row targets,
    row ∈ first /\ out = fst row :: targets
    /\ Forall2 (fun lang y => exists t, dico !! lang = Some (Some t)
                                        /\ first_target t (fst row) = Some y)
               lang_list targets.

(** Two dictionaries of English with Spanish and with French, and a
    dictionary between Spanish and French. *)
Definition en_es : table := [(0, 10); (1, 11); (1, 12); (3, 13)].
Definition en_fr : table := [(1, 21); (0, 20); (4, 24)].
Definition es_fr : table := [(13, 23); (15, 24)].

Definition dico_es_fr : tables :=
  {[ "es"%string := Some en_es; "fr"%string := Some en_fr ]}.
Definition bridge_es_fr : tables := {[ "fr"%string := Some es_fr ]}.

(** Vocabularies that are their own dictionary with the source language,
    for a loader that reads nothing. *)
Definition vocab_es_fr : gmap string table :=
  {[ "es"%string := en_es; "fr"%string := en_fr ]}.
Definition load_table (v1 v2 : table) : result table := Ok v2.
Definition load_table_at (path : string) (v1 v2 : table) : result table := Ok v2.
Definition path_of (src_lang lang : string) : string := (src_lang ++ "-" ++ lang)%string.

End CrossMatch.

(** ** More inputs for the scheduler *)

Module ScheduleInputs.
Import Schedule.

Local Open Scope Q_scope.

(** Adam: no learning-rate schedule. *)
Definition params_adam : Params :=
  {| map_optimizer := "adam,lr=0.001"; min_lr := 1 # 2; lr_decay := 1 # 2;
     lr_shrink := 1 # 2; langs := ["en"%string; "es"%string] |}.

(** SGD with a halving decay down to 1/4 and the shrink switched off. *)
Definition params_decaying : Params :=
  {| map_optimizer := "sgd,lr=1"; min_lr := 1 # 4; lr_decay := 1 # 2;
     lr_shrink := 1; langs := ["en"%string; "es"%string] |}.

(** The metrics that [save_best] was called with. *)
Definition saved_metrics (cs : list call) : list Q :=
  omap (fun c => match c with SaveBest m => Some m | UpdateLr _ => None end) cs.

End ScheduleInputs.

(** ** Inputs of the alignment solver *)

Module ProcrustesInputs.
Import Procrustes PyDict.


(** French named twice as the target language. *)
Definition trainer_en_fr_fr : Trainer Q :=
  {| src_emb := 2%Q;
     tgt_emb := {[ "fr"%string := (-5)%Q ]};
     mapping := {[ "en"%string := 1%Q; "fr"%string := 1%Q ]};
     dico := 0%Q;
     src_lang := "en";
     tgt_lang := ["fr"%string; "fr"%string] |}.

(** The source language named again as the first target language. *)
Definition trainer_en_en_fr : Trainer Q :=
  {| src_emb := 2%Q;
     tgt_emb := {[ "en"%string := 7%Q; "fr"%string := (-5)%Q ]};
     mapping := {[ "en"%string := 1%Q; "fr"%string := 1%Q ]};
     dico := 0%Q;
     src_lang := "en";
     tgt_lang := ["en"%string; "fr"%string] |}.

End ProcrustesInputs.

(** ** What the alignment solver may change *)

Module ProcrustesFrames.
Import Procrustes.

(** The two trainers differ at most in their mappings. *)
Definition only_mappings_differ {Tensor} (t t' : Trainer Tensor) : Prop :=
  t' = with_mapping Tensor (mapping Tensor t') t.

(** The languages whose mapping [generalized_procrustes] leaves out: not
    the source, and not a target that takes part. *)
Definition left_out {Tensor} (support : bool) (t : Trainer Tensor)
    (lang : string) : Prop :=
  lang <> src_lang Tensor t
  /\ if support then lang ∉ tgt_lang Tensor t
     else last (tgt_lang Tensor t) <> Some lang.

End ProcrustesFrames.

(** ** src/trainer.py: saving and reloading the best mapping *)

Module Checkpoint.

Section Files.

(** Tensors, their shape ([W.size()]) and [x.type_as(W)]; numpy arrays
    and the two conversions [W.cpu().numpy()] and [torch.from_numpy]. *)
Variable Tensor : Type.
Variable Array : Type.
Variable size : Tensor -> list Z.
Variable type_as : Tensor -> Tensor -> Tensor.
Variable to_numpy : Tensor -> Array.
Variable from_numpy : Array -> Tensor.
(** The file system, [torch.save(obj, path)] and [torch.load(path)];
    loading raises when the file is missing or cannot be read. *)
Variable Files : Type.
Variable torch_save : string -> Array -> Files -> Files.
Variable torch_load : Files -> string -> result Array.
(** [os.path.join(exp_path, name)] *)
Variable path_join : string -> string -> string.

(** The trainer's mappings, the files and the log. *)
Record Trainer : Type := {
  mapping : gmap string Tensor;
  files : Files;
  log : list log_record
}.

Record Params : Type := {
  exp_path : string;
  src_lang : string;
  tgt_lang : list string
}.

Definition set_mapping (lang : string) (w : Tensor) (t : Trainer) : Trainer :=
  {| mapping := <[lang := w]> (mapping t); files := files t; log := log t |}.

Definition set_files (f : Files) (t : Trainer) : Trainer :=
  {| mapping := mapping t; files := f; log := log t |}.

Definition logger_info (msg : string) (t : Trainer) : Trainer :=
  {| mapping := mapping t; files := files t; log := log t ++ [(INFO, msg)] |}.

(** [path[lang]] *)
Definition path_of (p : Params) (lang : string) : string :=
  path_join (exp_path p) ("best_mapping." ++ lang ++ ".pth").

(** [d[k]] *)
Definition getitem {A} (d : gmap string A) (k : string) : Py Trainer A :=
  match d !! k with Some v => ret v | None => raise (KeyError k) end.

(** [for x in l: body(x)] *)
Fixpoint for_in {S A} (l : list A) (body : A -> Py S unit) : Py S unit :=
  match l with
  | [] => ret tt
  | x :: l' => body x;; for_in l' body
  end.

(** Lines 263-267 of [save_best], "save the mapping": the dictionary [W]
    of the arrays of every language is built first, then each is
    written. *)
Definition save_mappings (p : Params) : Py Trainer unit :=
  t ← get;
  W ← mapM (M := Py Trainer)
        (fun lang => w ← getitem (mapping t) lang; ret (lang, to_numpy w))
        (src_lang p :: tgt_lang p);
  for_in (src_lang p :: tgt_lang p)
    (fun lang =>
       modify (logger_info "* Saving the mapping to %s ...");;
       a ← getitem (foldl (fun d kv => <[fst kv := snd kv]> d)
                      (∅ : gmap string Array) W) lang;
       modify (fun t => set_files (torch_save (path_of p lang) a (files t)) t)).

(** The body of the loop of [reload_best], lines 277-281: [W] is the
    weight tensor of [self.mapping[lang]] itself, so the copy writes the
    mapping. *)
Definition reload_one (p : Params) (lang : string) : Py Trainer unit :=
  t ← get;
  to_reload ← (match torch_load (files t) (path_of p lang) with
               | Ok a => ret (from_numpy a)
               | Raise e => raise e
               end);
  W ← getitem (mapping t) lang;
  modify (logger_info "* Reloading the best model from %s ...");;
  py_assert (bool_decide (size to_reload = size W));;
  modify (set_mapping lang (type_as to_reload W)).

(** [reload_best] *)
Definition reload_best (p : Params) : Py Trainer unit :=
  for_in (tgt_lang p ++ [src_lang p]) (reload_one p).

(** The file of the language loads as the array [a], the language has
    the mapping [w], and the two have the same shape. *)
Definition reloadable (p : Params) (t : Trainer) (lang : string)
    (a : Array) (w : Tensor) : Prop :=
  torch_load (files t) (path_of p lang) = Ok a
  /\ mapping t !! lang = Some w
  /\ size (from_numpy a) = size w.

(** What the file system promises: a file holds what was saved to it
    last. *)
Definition keeps_files : Prop :=
  (forall f path a, torch_load (torch_save path a f) path = Ok a)
  /\ (forall f path path' a, path <> path' ->
         torch_load (torch_save path' a f) path = torch_load f path).

(** Distinct languages have distinct files. *)
Definition distinct_paths (p : Params) : Prop :=
  forall lang lang', path_of p lang = path_of p lang' -> lang = lang'.

End Files.

(** The log line of one language. *)
Definition reloading : log_record :=
  (INFO, "* Reloading the best model from %s ..."%string).

(** *** A concrete instance: a tensor is a list of numbers, a file system
    is a table of paths *)

Definition vec_size (v : list Z) : list Z := [Z.of_nat (length v)].
Definition vec_type_as (a w : list Z) : list Z := a.
Definition vec_id (v : list Z) : list Z := v.

Definition disk : gmap string (list Z) :=
  {[ "exp/best_mapping.en.pth"%string := [1; 0];
     "exp/best_mapping.es.pth"%string := [0; 1];
     "exp/best_mapping.fr.pth"%string := [7; 7; 7] ]}.

Definition disk_save (path : string) (a : list Z) (f : gmap string (list Z))
  : gmap string (list Z) := <[path := a]> f.

(** Reading the table; a path with no file stands for the loader's
    failure. *)
Definition disk_load (f : gmap string (list Z)) (path : string)
  : result (list Z) :=
  match f !! path with Some v => Ok v | None => Raise (KeyError path) end.

Definition slash_join (a b : string) : string := (a ++ "/" ++ b)%string.

Definition params_exp (tgt : list string) : Params :=
  {| exp_path := "exp"; src_lang := "en"; tgt_lang := tgt |}.

Definition trainer_2d : Trainer (list Z) (gmap string (list Z)) :=
  {| mapping := {[ "en"%string := [5; 5]; "es"%string := [6; 6];
                   "fr"%string := [8; 8] ]};
     files := disk;
     log := [] |}.

(** The same mappings before anything is saved. *)
Definition trainer_new : Trainer (list Z) (gmap string (list Z)) :=
  {| mapping := {[ "en"%string := [5; 5]; "es"%string := [6; 6] ]};
     files := ∅;
     log := [] |}.

End Checkpoint.

(** ** src/trainer.py: [save_best], with what can fail in it *)

Module BestCheckpoint.

Section Files.

(** Tensors, numpy arrays and [W.cpu().numpy()]. *)
Variable Tensor : Type.
Variable Array : Type.
Variable to_numpy : Tensor -> Array.
(** The file system and [torch.save(obj, path)]: the write returns or
    raises, and leaves the file system in some state either way. *)
Variable Files : Type.
Variable torch_save : string -> Array -> Files -> result unit * Files.
(** [os.path.join(exp_path, name)] *)
Variable path_join : string -> string -> string.

(** The trainer's mappings, its best validation metric, the files and
    the log. *)
Record Trainer : Type := {
  mapping : gmap string Tensor;
  best_valid_metric : float;
  files : Files;
  log : list log_record
}.

Record Params : Type := {
  exp_path : string;
  src_lang : string;
  tgt_lang : list string
}.

Definition set_best (x : float) (t : Trainer) : Trainer :=
  {| mapping := mapping t; best_valid_metric := x; files := files t;
     log := log t |}.

Definition set_files (f : Files) (t : Trainer) : Trainer :=
  {| mapping := mapping t; best_valid_metric := best_valid_metric t;
     files := f; log := log t |}.

Definition logger_info (msg : string) (t : Trainer) : Trainer :=
  {| mapping := mapping t; best_valid_metric := best_valid_metric t;
     files := files t; log := log t ++ [(INFO, msg)] |}.

(** The format has the metric's name between double quotes (character 34). *)
Definition msg_best : string :=
  ("* Best value for " ++ String (Ascii.ascii_of_nat 34) "%s"
   ++ String (Ascii.ascii_of_nat 34) ": %.5f")%string.
Definition msg_saving : string := "* Saving the mapping to %s ...".

(** [[self.params.src_lang] + self.params.tgt_lang] *)
Definition langs (p : Params) : list string := src_lang p :: tgt_lang p.

(** [path[lang]] *)
Definition path_of (p : Params) (lang : string) : string :=
  path_join (exp_path p) ("best_mapping." ++ lang ++ ".pth").

(** [d[k]] *)
Definition getitem {A} (d : gmap string A) (k : string) : Py Trainer A :=
  match d !! k with Some v => ret v | None => raise (KeyError k) end.

(** [for x in l: body(x)] *)
Fixpoint for_in {S A} (l : list A) (body : A -> Py S unit) : Py S unit :=
  match l with
  | [] => ret tt
  | x :: l' => body x;; for_in l' body
  end.

(** [lang: self.mapping[lang].weight.data.cpu().numpy()]: one entry of
    the dictionary [W]. *)
Definition entry_of (t : Trainer) (lang : string)
  : Py Trainer (string * Array) :=
  w ← getitem (mapping t) lang; ret (lang, to_numpy w).

(** [torch.save(a, path)] on the trainer's files. *)
Definition save (path : string) (a : Array) : Py Trainer unit :=
  fun t => let '(r, f) := torch_save path a (files t) in (r, set_files f t).

(** The body of the loop of lines 265-267. *)
Definition save_one (p : Params) (W : gmap string Array) (lang : string)
  : Py Trainer unit :=
  modify (logger_info msg_saving);;
  a ← getitem W lang;
  save (path_of p lang) a.

(** [save_best(to_log, metric)], lines 253-267: the best value is stored
    and logged, then the dictionary [W] of the arrays of every language
    is built, then each array is written. *)
Definition save_best (p : Params) (to_log : gmap string float)
    (metric : string) : Py Trainer unit :=
  m ← getitem to_log metric;
  t ← get;
  if PrimFloat.ltb (best_valid_metric t) m then
    modify (set_best m);;
    modify (logger_info msg_best);;
    t ← get;
    W ← mapM (entry_of t) (langs p);
    for_in (langs p)
      (save_one p (foldl (fun d kv => <[fst kv := snd kv]> d)
                     (∅ : gmap string Array) W))
  else ret tt.

(** The file system after the arrays of the languages are written, in
    that order. *)
Definition written (p : Params) (t : Trainer) (ls : list string) (f : Files)
  : Files :=
  foldl (fun f lang =>
           match mapping t !! lang with
           | Some w => snd (torch_save (path_of p lang) (to_numpy w) f)
           | None => f
           end) f ls.

End Files.

(** *** A concrete instance: a table of paths in which the files under
    [ro/] cannot be written *)

Definition table_save (path : string) (a : list Z) (f : gmap string (list Z))
  : result unit * gmap string (list Z) :=
  if String.prefix "ro/" path then (Raise (KeyError path), f)
  else (Ok tt, <[path := a]> f).

Definition slash_join (a b : string) : string := (a ++ "/" ++ b)%string.

Definition params_en_es (dir : string) : Params :=
  {| exp_path := dir; src_lang := "en"; tgt_lang := ["es"%string] |}.

Definition params_en_es_fr : Params :=
  {| exp_path := "exp"; src_lang := "en"; tgt_lang := ["es"; "fr"]%string |}.

(** Mappings for English and Spanish, nothing saved yet. *)
Definition trainer_new : Trainer (list Z) (gmap string (list Z)) :=
  {| mapping := {[ "en"%string := [5; 5]; "es"%string := [6; 6] ]};
     best_valid_metric := (-1e12)%float;
     files := ∅;
     log := [] |}.

Definition to_log_half : gmap string float :=
  {[ "mean_cosine"%string := 0.5%float ]}.

End BestCheckpoint.

(** ** src/evaluation/evaluator.py: cross-lingual word similarity *)

Module WordSim.

Section Evaluator.

(** Embedding matrices, mappings, dictionaries of words and score
    values. *)
Variable Emb : Type.
Variable Map : Type.
Variable Dico : Type.
Variable V : Type.
(** [mapping(emb.weight).data.cpu().numpy()] *)
Variable apply_mapping : Map -> Emb -> Emb.
(** [get_crosslingual_wordsim_scores(lang1, word2id1, emb1, lang2,
    word2id2, emb2)]: the score of each data set, or [None] when there is
    no data for the pair of languages. *)
Variable get_crosslingual_wordsim_scores :
  Dico -> Emb -> Dico -> Emb -> result (option (list (string * V))).
(** [np.mean(list(scores.values()))] *)
Variable np_mean : list V -> V.

Record Evaluator : Type := {
  src_emb : Emb;
  tgt_emb : gmap string Emb;
  src_dico : Dico;
  tgt_dico : gmap string Dico;
  mapping : gmap string Map;
  src_lang : string;
  tgt_lang : list string
}.

(** The dictionary [to_log] and the log. *)
Record Out : Type := {
  to_log : gmap string V;
  log : list log_record
}.

Definition logger_info (msg : string) (o : Out) : Out :=
  {| to_log := to_log o; log := log o ++ [(INFO, msg)] |}.

(** [to_log[k] = v] *)
Definition setitem (k : string) (v : V) (o : Out) : Out :=
  {| to_log := <[k := v]> (to_log o); log := log o |}.

(** [to_log.update({prefix + k: v for k, v in scores.items()})] *)
Definition update_prefixed (prefix : string) (scores : list (string * V))
    (o : Out) : Out :=
  foldl (fun o kv => setitem (prefix ++ fst kv) (snd kv) o) o scores.

(** [d[k]] *)
Definition getitem {A} (d : gmap string A) (k : string) : Py Out A :=
  match d !! k with Some v => ret v | None => raise (KeyError k) end.

Definition ws_key (lang : string) : string :=
  ("ws_crosslingual_scores_" ++ lang)%string.

(** The loop of [crosslingual_wordsim], lines 79-91; the [return] of line
    87 ends the loop and the function. *)
Fixpoint wordsim_loop (ev : Evaluator) (src : Emb) (langs : list string)
  : Py Out unit :=
  match langs with
  | [] => ret tt
  | lang :: rest =>
      m ← getitem (mapping ev) lang;
      e ← getitem (tgt_emb ev) lang;
      let tgt := apply_mapping m e in
      d ← getitem (tgt_dico ev) lang;
      src_tgt_ws_scores ←
        (match get_crosslingual_wordsim_scores (src_dico ev) src d tgt with
         | Ok r => ret r
         | Raise err => raise err
         end);
      match src_tgt_ws_scores with
      | None => ret tt
      | Some scores =>
          let ws_crosslingual_scores := np_mean (map snd scores) in
          modify (logger_info
                    "Cross-lingual word similarity score average %s: %.5f");;
          modify (setitem (ws_key lang) ws_crosslingual_scores);;
          modify (update_prefixed ("src_tgt_" ++ lang) scores);;
          wordsim_loop ev src rest
      end
  end.

(** [crosslingual_wordsim] *)
Definition crosslingual_wordsim (ev : Evaluator) : Py Out unit :=
  m ← getitem (mapping ev) (src_lang ev);
  let src := apply_mapping m (src_emb ev) in
  wordsim_loop ev src (tgt_lang ev).

(** The language can be evaluated, and the scorer answers [r]. *)
Definition evaluates (ev : Evaluator) (lang : string)
    (r : option (list (string * V))) : Prop :=
  exists m0 m e d,
    mapping ev !! src_lang ev = Some m0
    /\ mapping ev !! lang = Some m
    /\ tgt_emb ev !! lang = Some e
    /\ tgt_dico ev !! lang = Some d
    /\ get_crosslingual_wordsim_scores (src_dico ev)
         (apply_mapping m0 (src_emb ev)) d (apply_mapping m e) = Ok r.

End Evaluator.

(** *** A concrete instance: data for Spanish and Italian, none for
    French *)

Definition toy_scores (d1 : string) (e1 : unit) (d2 : string) (e2 : unit)
  : result (option (list (string * Z))) :=
  if String.eqb d2 "fr" then Ok None
  else Ok (Some [("SEMEVAL17"%string, 3)]).

Definition toy_mean (l : list Z) : Z :=
  foldr Z.add 0 l / Z.of_nat (length l).

Definition evaluator_es_fr_it : Evaluator unit unit string :=
  {| src_emb := tt;
     tgt_emb := {[ "es"%string := tt; "fr"%string := tt; "it"%string := tt ]};
     src_dico := "en";
     tgt_dico := {[ "es"%string := "es"%string; "fr"%string := "fr"%string;
                    "it"%string := "it"%string ]};
     mapping := {[ "en"%string := tt; "es"%string := tt; "fr"%string := tt;
                   "it"%string := tt ]};
     src_lang := "en";
     tgt_lang := ["es"%string; "fr"%string; "it"%string] |}.

Definition out_empty : Out Z := {| to_log := ∅; log := [] |}.

End WordSim.

(** ** src/dico_builder.py: the nearest-neighbour search of
    [get_candidates] *)

Module NearestNeighbours.
Import DicoBuilder.

(** [range(0, stop, step)] for a positive [step] *)
Definition range_step (stop step : Z) : list Z :=
  map (fun k => Z.of_nat k * step)
      (seq 0 (Z.to_nat ((stop + step - 1) / step))).

(** [t[i:j]] for [0 <= i]: the rows [i] to [j - 1], as far as they
    exist. *)
Definition rows_between {A} (t : list A) (i j : Z) : list A :=
  take (Z.to_nat (j - i)) (drop (Z.to_nat i) t).

Section Search.

(** An embedding matrix is the list of its rows. *)
Variable Row : Type.
(** [emb2.mm(batch.transpose(0, 1)).transpose(0, 1)] followed by
    [topk(2, dim=1, largest=True, sorted=True)]: for the rows of a batch
    of [emb1], the two best scores and the two best rows of [emb2]. *)
Variable topk2 : list Row -> list Row
                 -> result (list score_row * list index_row).
(** [torch.cat(tensors, 0)] *)
Variable cat_scores : list (list score_row) -> result (list score_row).
Variable cat_targets : list (list index_row) -> result (list index_row).
(** The other searches, lines 49-100. *)
Variable other_search : list Row -> list Row -> Params -> Z
                        -> result (list score_row * list index_row).

Definition bs : Z := 128.

(** The loop of lines 35-43 over the batch starts. *)
Fixpoint nn_batches (emb1 emb2 : list Row) (n_src : Z) (starts : list Z)
  : result (list (list score_row) * list (list index_row)) :=
  match starts with
  | [] => Ok ([], [])
  | i :: rest =>
      match topk2 emb2 (rows_between emb1 i (Z.min n_src (i + bs))) with
      | Raise e => Raise e
      | Ok (best_scores, best_targets) =>
          match nn_batches emb1 emb2 n_src rest with
          | Raise e => Raise e
          | Ok (all_scores, all_targets) =>
              Ok (best_scores :: all_scores, best_targets :: all_targets)
          end
      end
  end.

(** Lines 32-46: "nearest neighbors". *)
Definition nn_search (emb1 emb2 : list Row) (n_src : Z)
  : result (list score_row * list index_row) :=
  match nn_batches emb1 emb2 n_src (range_step n_src bs) with
  | Raise e => Raise e
  | Ok (all_scores, all_targets) =>
      match cat_scores all_scores with
      | Raise e => Raise e
      | Ok all_scores =>
          match cat_targets all_targets with
          | Raise e => Raise e
          | Ok all_targets => Ok (all_scores, all_targets)
          end
      end
  end.

(** Lines 31-100: the search chosen by [dico_method]. *)
Definition search (emb1 emb2 : list Row) (p : Params) (n_src : Z)
  : result (list score_row * list index_row) :=
  if String.eqb (dico_method p) "nn" then nn_search emb1 emb2 n_src
  else other_search emb1 emb2 p n_src.

(** [emb.size(0)] *)
Definition size0 (emb : list Row) : Z := Z.of_nat (length emb).

(** What torch promises of the two routines: [topk(2, dim=1)] of the
    scores against [emb2] has one row per row of the batch, and [cat]
    of a list that is not empty is the concatenation. *)
Definition one_row_per_query (emb2 : list Row) : Prop :=
  forall batch, exists sc tg,
    topk2 emb2 batch = Ok (sc, tg)
    /\ length sc = length batch /\ length tg = length batch.

Definition concatenates : Prop :=
  (forall l, l <> [] -> cat_scores l = Ok (concat l))
  /\ (forall l, l <> [] -> cat_targets l = Ok (concat l)).

End Search.

(** *** A concrete instance: rows are numbers, every row has the same
    two best targets *)

Definition flat_topk2 (emb2 batch : list Z)
  : result (list score_row * list index_row) :=
  Ok (map (fun _ => (0.875, 0.125)%float) batch, map (fun _ => (0, 1)) batch).

Definition list_cat {A} (l : list (list A)) : result (list A) := Ok (concat l).

(** The instance has no other search. *)
Definition no_search (emb1 emb2 : list Z) (p : Params) (n_src : Z)
  : result (list score_row * list index_row) := Raise AttributeError.

End NearestNeighbours.

(** ** src/evaluation/evaluator.py: the model selection criterion *)

Module MeanCosine.
Import DicoBuilder NearestNeighbours.

Section Evaluator.

Variable Row : Type.
Variable Map : Type.
(** A mapping applied to a row, and the row divided by its norm:
    [mapping(emb.weight).data] followed by
    [emb / emb.norm(2, 1, keepdim=True).expand_as(emb)], row by row. *)
Variable prepare : Map -> Row -> Row.
Variable topk2 : list Row -> list Row
                 -> result (list score_row * list index_row).
Variable cat_scores : list (list score_row) -> result (list score_row).
Variable cat_targets : list (list index_row) -> result (list index_row).
Variable other_search : list Row -> list Row -> Params -> Z
                        -> result (list score_row * list index_row).
Variable argsort_desc : list float -> list nat.
(** [(src_emb[dico[:, 0]] * tgt_emb[dico[:, 1]]).sum(1).mean().item()] *)
Variable mean_cosine : list Row -> list Row -> list index_row -> float.

Record Evaluator : Type := {
  src_emb : list Row;
  tgt_emb : gmap string (list Row);
  mapping : gmap string Map;
  src_lang : string;
  tgt_lang : list string
}.

Record Out : Type := {
  to_log : gmap string float;
  log : list log_record
}.

(** A computation of the dictionary builder, which only logs, run by the
    evaluator. *)
Definition on_log {A} (m : Py (list log_record) A) : Py Out A :=
  fun o =>
    let '(r, l) := m (log o) in (r, {| to_log := to_log o; log := l |}).

Definition setitem (k : string) (v : float) (o : Out) : Out :=
  {| to_log := <[k := v]> (to_log o); log := log o |}.

Definition getitem {A} (d : gmap string A) (k : string) : Py Out A :=
  match d !! k with Some v => ret v | None => raise (KeyError k) end.

(** [_params], lines 191-200: every field the builder reads is set. *)
Definition selection_params (method : string) : Params :=
  {| dico_method := method; dico_build := "S2T"; dico_max_rank := 10000;
     dico_max_size := 10000; dico_min_size := 0; dico_threshold := 0%float |}.

Definition mean_cosine_key (method lang : string) : string :=
  ("mean_cosine-" ++ method ++ "-S2T-10000_" ++ lang)%string.

(** Lines 191-212, for one language and one method.  A dictionary that
    is [None] gives the Python float [-1e9], which has no [item]. *)
Definition criterion (src tgt : list Row) (lang method : string)
  : Py Out unit :=
  let _params := selection_params method in
  s2t_candidates ←
    on_log (get_candidates argsort_desc (list Row) (size0 Row)
              (search Row topk2 cat_scores cat_targets other_search)
              src tgt _params);
  t2s_candidates ←
    on_log (get_candidates argsort_desc (list Row) (size0 Row)
              (search Row topk2 cat_scores cat_targets other_search)
              tgt src _params);
  dico ←
    on_log (build_pairwise_dictionary argsort_desc (list Row) (size0 Row)
              (search Row topk2 cat_scores cat_targets other_search)
              src tgt _params (Some s2t_candidates) (Some t2s_candidates));
  mean ← (match dico with
          | None => raise AttributeError
          | Some d => ret (mean_cosine src tgt (take (Z.to_nat 10000) d))
          end);
  on_log (logger INFO "Mean cosine (%s method, %s build, %i max size): %.5f");;
  modify (setitem (mean_cosine_key method lang) mean).

Fixpoint for_in {A} (l : list A) (body : A -> Py Out unit) : Py Out unit :=
  match l with
  | [] => ret tt
  | x :: l' => body x;; for_in l' body
  end.

(** [dist_mean_cosine] *)
Definition dist_mean_cosine (ev : Evaluator) : Py Out unit :=
  m0 ← getitem (mapping ev) (src_lang ev);
  let src := map (prepare m0) (src_emb ev) in
  for_in (tgt_lang ev)
    (fun lang =>
       m ← getitem (mapping ev) lang;
       e ← getitem (tgt_emb ev) lang;
       let tgt := map (prepare m) e in
       for_in ["nn"; "csls_knn_10"]%string (criterion src tgt lang)).

End Evaluator.

(** *** A concrete instance *)

Definition evaluator_small : Evaluator Z unit :=
  {| src_emb := [10; 20; 30];
     tgt_emb := {[ "es"%string := [1; 2] ]};
     mapping := {[ "en"%string := tt; "es"%string := tt ]};
     src_lang := "en";
     tgt_lang := ["es"%string] |}.

Definition out_empty : Out := {| to_log := ∅; log := [] |}.

End MeanCosine.

(** ** src/evaluation/evaluator.py: the discriminator's predictions *)

Module DisEval.
Import NearestNeighbours.

Section Evaluator.

Variable Row : Type.
Variable Map : Type.
Variable Dis : Type.
(** [self.discriminator.eval()] *)
Variable eval_mode : Dis -> Dis.
(** [self.discriminator(mapping(Variable(batch, volatile=True)))
      .data.cpu().tolist()]: the predictions for the rows of a batch. *)
Variable predict : Dis -> Map -> list Row -> list float.
(** [np.mean] of a list of numbers and of a list of truth values. *)
Variable np_mean : list float -> float.
Variable np_mean_bool : list bool -> float.
(** A Python integer as a double. *)
Variable float_of_int : Z -> float.

Record Evaluator : Type := {
  src_emb : list Row;
  tgt_emb : gmap string (list Row);
  mapping : gmap string Map;
  src_lang : string;
  tgt_lang : list string
}.

(** The discriminator, the dictionary [to_log] and the log. *)
Record Out : Type := {
  discriminator : Dis;
  to_log : gmap string float;
  log : list log_record
}.

Definition set_discriminator (d : Dis) (o : Out) : Out :=
  {| discriminator := d; to_log := to_log o; log := log o |}.

Definition logger_info (msg : string) (o : Out) : Out :=
  {| discriminator := discriminator o; to_log := to_log o;
     log := log o ++ [(INFO, msg)] |}.

Definition setitem (k : string) (v : float) (o : Out) : Out :=
  {| discriminator := discriminator o; to_log := <[k := v]> (to_log o);
     log := log o |}.

Definition getitem {A} (d : gmap string A) (k : string) : Py Out A :=
  match d !! k with Some v => ret v | None => raise (KeyError k) end.

(** [for i in starts: preds.extend(body(i))] *)
Fixpoint extend_each (starts : list Z) (body : Z -> Py Out (list float))
    (preds : list float) : Py Out (list float) :=
  match starts with
  | [] => ret preds
  | i :: rest => ps ← body i; extend_each rest body (preds ++ ps)
  end.

Definition msg_predictions : string :=
  "Discriminator source / target %s predictions: %.5f / %.5f".
Definition msg_accuracy : string :=
  "Discriminator source / target %s / global accuracy: %.5f / %.5f / %.5f".

(** The loop of [eval_dis] over the target languages, lines 232-259.  The
    lists [src_preds] and [tgt_preds] are created before the loop and
    only ever extended. *)
Fixpoint eval_dis_loop (ev : Evaluator) (langs : list string)
    (src_preds tgt_preds : list float) : Py Out unit :=
  match langs with
  | [] => ret tt
  | lang :: rest =>
      modify (fun o => set_discriminator (eval_mode (discriminator o)) o);;
      src_preds ←
        extend_each (range_step (size0 Row (src_emb ev)) 128)
          (fun i =>
             let emb := rows_between (src_emb ev) i (i + 128) in
             o ← get;
             m ← getitem (mapping ev) (src_lang ev);
             ret (predict (discriminator o) m emb))
          src_preds;
      e ← getitem (tgt_emb ev) lang;
      tgt_preds ←
        extend_each (range_step (size0 Row e) 128)
          (fun i =>
             e ← getitem (tgt_emb ev) lang;
             let emb := rows_between e i (i + 128) in
             o ← get;
             m ← getitem (mapping ev) lang;
             ret (predict (discriminator o) m emb))
          tgt_preds;
      let src_pred := np_mean src_preds in
      let tgt_pred := np_mean tgt_preds in
      modify (logger_info msg_predictions);;
      let src_accu := np_mean_bool (map (fun x => PrimFloat.leb 0.5 x) src_preds) in
      let tgt_accu := np_mean_bool (map (fun x => PrimFloat.ltb x 0.5) tgt_preds) in
      e ← getitem (tgt_emb ev) lang;
      let n_src := size0 Row (src_emb ev) in
      let n_tgt := size0 Row e in
      let dis_accu :=
        PrimFloat.div
          (PrimFloat.add (PrimFloat.mul src_accu (float_of_int n_src))
                         (PrimFloat.mul tgt_accu (float_of_int n_tgt)))
          (float_of_int (n_src + n_tgt)) in
      modify (logger_info msg_accuracy);;
      modify (setitem ("dis_accu_" ++ lang) dis_accu);;
      modify (setitem ("dis_src_pred_" ++ lang) src_pred);;
      modify (setitem ("dis_tgt_pred_" ++ lang) tgt_pred);;
      eval_dis_loop ev rest src_preds tgt_preds
  end.

(** [eval_dis] *)
Definition eval_dis (ev : Evaluator) : Py Out unit :=
  eval_dis_loop ev (tgt_lang ev) [] [].

(** *** The predictions of one language *)

(** All predictions for an embedding matrix, batch after batch. *)
Definition predictions (d : Dis) (m : Map) (emb : list Row) : list float :=
  concat (map (fun i => predict d m (rows_between emb i (i + 128)))
              (range_step (size0 Row emb) 128)).

(** The target predictions of the language at position [j] of the loop
    that starts with the discriminator [d]: by then [eval()] was called
    [j + 1] times. *)
Definition tgt_predictions (ev : Evaluator) (d : Dis) (j : nat)
    (lang : string) : list float :=
  match mapping ev !! lang, tgt_emb ev !! lang with
  | Some m, Some e => predictions (Nat.iter (S j) eval_mode d) m e
  | _, _ => []
  end.

(** The language has a mapping and an embedding matrix. *)
Definition evaluable (ev : Evaluator) (lang : string) : Prop :=
  is_Some (mapping ev !! lang) /\ is_Some (tgt_emb ev !! lang).

End Evaluator.

(** *** A concrete instance: a row is its own prediction *)

Definition evaluator_es_fr : Evaluator float unit :=
  {| src_emb := [0.75%float];
     tgt_emb := {[ "es"%string := [0.25%float];
                   "fr"%string := [0.125%float; 0.875%float] ]};
     mapping := {[ "en"%string := tt; "es"%string := tt; "fr"%string := tt ]};
     src_lang := "en";
     tgt_lang := ["es"%string; "fr"%string] |}.

(** The first prediction of the list stands for its mean. *)
Definition first_or_zero (l : list float) : float :=
  match l with x :: _ => x | [] => 0%float end.

Definition out_start : Out unit :=
  {| discriminator := tt; to_log := ∅; log := [] |}.

End DisEval.

(** ** Running [Py] computations *)

Module PyFacts.

Lemma run_bind {S A B} (m : Py S A) (f : A -> Py S B) (s : S) :
  (m ≫= f) s = match m s with
               | (Ok a, s') => f a s'
               | (Raise e, s') => (Raise e, s')
               end.
Proof. reflexivity. Qed.

Lemma run_bind_ok {S A B} (m : Py S A) (f : A -> Py S B) (s s' : S) (a : A) :
  m s = (Ok a, s') -> (m ≫= f) s = f a s'.
Proof. intros H. rewrite run_bind, H. reflexivity. Qed.

Lemma run_bind_raise {S A B} (m : Py S A) (f : A -> Py S B) (s s' : S) e :
  m s = (Raise e, s') -> (m ≫= f) s = (Raise e, s').
Proof. intros H. rewrite run_bind, H. reflexivity. Qed.

Lemma run_mapM_nil {S A B} (f : A -> Py S B) (s : S) :
  mapM f [] s = (Ok [], s).
Proof. reflexivity. Qed.

Lemma run_mapM_cons {S A B} (f : A -> Py S B) (x : A) (l : list A) (s : S) :
  mapM f (x :: l) s
  = match f x s with
    | (Ok y, s1) =>
        match mapM f l s1 with
        | (Ok k, s2) => (Ok (y :: k), s2)
        | (Raise e, s2) => (Raise e, s2)
        end
    | (Raise e, s1) => (Raise e, s1)
    end.
Proof.
  cbn [mapM]. rewrite run_bind. destruct (f x s) as [[y|e] s1]; [|reflexivity].
  rewrite run_bind. destruct (mapM f l s1) as [[k|e] s2]; reflexivity.
Qed.

End PyFacts.
Import PyFacts.

(** ** Properties of the dictionary builder *)

Module DicoBuilderSpec.
Import DicoBuilder.

Lemma run_logger lv msg (l : list log_record) :
  logger lv msg l = (Ok tt, l ++ [(lv, msg)]).
Proof. reflexivity. Qed.

Ltac py_unfold H :=
  unfold mbind, Py_bind, bind, mret, Py_ret, ret, raise in H.


(** *** The threshold mask *)

Lemma masked_select_cons_true mask x pairs :
  masked_select (true :: mask) (x :: pairs) = x :: masked_select mask pairs.
Proof. reflexivity. Qed.

Lemma masked_select_forced (m : nat) (rest : list bool) (pairs : list index_row) :
  (Nat.min m (length pairs) <= length (masked_select (replicate m true ++ rest) pairs))%nat.
Proof.
  revert pairs. induction m as [|m IH]; intros pairs; [simpl; lia|].
  destruct pairs as [|x pairs]; [simpl; lia|].
  cbn [replicate app]. rewrite masked_select_cons_true. cbn [length].
  specialize (IH pairs). lia.
Qed.

Lemma above_sentinel (p : Params) :
  PrimFloat.ltb (float32 (dico_threshold p)) sentinel = true -> above p sentinel = true.
Proof. intros H. exact H. Qed.

Lemma mask_of_override (p : Params) (diff : list float) :
  (0 < dico_min_size p) ->
  PrimFloat.ltb (float32 (dico_threshold p)) sentinel = true ->
  map (above p) (min_size_override p diff)
  = replicate (Nat.min (Z.to_nat (dico_min_size p)) (length diff)) true
    ++ map (above p) (drop (Z.to_nat (dico_min_size p)) diff).
Proof.
  intros Hmin Hthr. unfold min_size_override.
  destruct (Z.ltb_spec 0 (dico_min_size p)) as [_|]; [|lia].
  rewrite map_app. f_equal.
  induction (Nat.min _ _) as [|k IH]; [reflexivity|].
  cbn [replicate map]. rewrite IH, (above_sentinel p Hthr). reflexivity.
Qed.

Lemma size_cap_length (p : Params) (rows : list (score_row * index_row)) :
  (0 < dico_max_size p) ->
  length (size_cap p rows) = Nat.min (Z.to_nat (dico_max_size p)) (length rows).
Proof.
  intros Hmax. unfold size_cap.
  destruct (Z.ltb_spec 0 (dico_max_size p)) as [_|]; [|lia].
  apply length_take.
Qed.

(** Size cap, min-size override and threshold never raise, and keep the
    forced rows when the threshold, in single precision, is below the
    sentinel. *)
Lemma cap_and_threshold_keeps (p : Params) (rows : list (score_row * index_row))
    (log : list log_record) :
  (0 < dico_min_size p) -> (0 < dico_max_size p) ->
  PrimFloat.ltb (float32 (dico_threshold p)) sentinel = true ->
  exists res log',
    cap_and_threshold p rows log = (Ok res, log')
    /\ Z.min (Z.min (dico_min_size p) (dico_max_size p)) (Z.of_nat (length rows))
       <= Z.of_nat (length res).
Proof.
  intros Hmin Hmax Hthr. unfold cap_and_threshold, threshold_filter.
  pose proof (size_cap_length p rows Hmax) as Hcap.
  destruct (PrimFloat.ltb 0 (dico_threshold p)).
  - eexists _, _. split; [reflexivity|].
    rewrite (mask_of_override p _ Hmin Hthr).
    pose proof (masked_select_forced
      (Nat.min (Z.to_nat (dico_min_size p))
               (length (margins (map fst (size_cap p rows)))))
      (map (above p) (drop (Z.to_nat (dico_min_size p))
                           (margins (map fst (size_cap p rows)))))
      (map snd (size_cap p rows))) as Hkeep.
    unfold margins in *. rewrite !length_map in Hkeep. rewrite !length_map.
    lia.
  - eexists _, _. split; [reflexivity|].
    rewrite length_map. lia.
Qed.

(** C3 (as amended): with [dico_min_size > 0], [dico_max_size > 0] and a
    threshold that, converted to single precision as the comparison with
    the margin tensor does, is below the sentinel [1e9], the selector
    returns at least min(dico_min_size, dico_max_size, k) pairs, where k
    is the number of pairs that are left after the rank filter. *)
Theorem min_size_override_retains
    (argsort_desc : list float -> list nat) (p : Params) (n_src : Z)
    (all_scores : list score_row) (all_targets : list index_row)
    (log log' : list log_record) (res : list index_row) :
  (0 < dico_min_size p) -> (0 < dico_max_size p) ->
  PrimFloat.ltb (float32 (dico_threshold p)) sentinel = true ->
  select_candidates argsort_desc p n_src all_scores all_targets log
    = (Ok res, log') ->
  exists sorted,
    sort_by_confidence argsort_desc all_scores (make_pairs all_targets) log
      = (Ok sorted, log)
    /\ Z.min (Z.min (dico_min_size p) (dico_max_size p))
             (Z.of_nat (length (rank_filter p sorted)))
       <= Z.of_nat (length res).
Proof.
  intros Hmin Hmax Hthr Hrun.
  unfold select_candidates in Hrun. rewrite run_bind in Hrun.
  destruct (_ && _); cbn [py_assert ret raise] in Hrun; [|discriminate].
  rewrite run_bind in Hrun.
  destruct (sort_by_confidence _ _ _ log) as [[sorted|e] log1] eqn:Hsort;
    [|discriminate].
  assert (log1 = log) as ->.
  { unfold sort_by_confidence, index_rows in Hsort. py_unfold Hsort.
    repeat (destruct (mapM _ _); [|discriminate]).
    congruence. }
  exists sorted. split; [reflexivity|].
  destruct (cap_and_threshold_keeps p (rank_filter p sorted) log
              Hmin Hmax Hthr) as (res0 & log0 & Hrun0 & Hlen).
  rewrite Hrun0 in Hrun. injection Hrun as <- _. exact Hlen.
Qed.

Lemma min_size_override_retains_witness :
  exists sorted,
    sort_by_confidence insertion_argsort
      scores3 (make_pairs targets3) [] = (Ok sorted, [])
    /\ Z.min (Z.min 2 3) (Z.of_nat (length (rank_filter (params_sized 0.5) sorted)))
       <= Z.of_nat (length [(0, 7); (1, 8)]).
Proof.
  apply (min_size_override_retains insertion_argsort (params_sized 0.5) 3
           scores3 targets3 []
           [(INFO, "Selected %i / %i pairs above the confidence threshold."%string)]
           [(0, 7); (1, 8)]).
  - reflexivity.
  - reflexivity.
  - vm_compute. reflexivity.
  - vm_compute. reflexivity.
Defined.

(** C3 as stated fails in three ways.  With a threshold of [2e9] the
    forced rows, whose margin is now [1e9], are dropped: of three
    candidates one is returned although min(2, 3) = 2.  A threshold of
    [999999999], below [1e9], is [1e9] in single precision, and the
    strict comparison drops the forced rows as well: no pair is returned.
    With a single candidate, one pair is returned whatever the floor. *)
Lemma min_size_override_not_retained :
  (fst (select_candidates insertion_argsort (params_sized 2e9) 3
          scores3_huge targets3 [])
     = Ok [(2, 9)]
   /\ Z.of_nat (length [(2, 9)])
      < Z.min (dico_min_size (params_sized 2e9)) (dico_max_size (params_sized 2e9)))
  /\ (PrimFloat.ltb 999999999 1e9 = true
      /\ float32 999999999 = 1e9%float
      /\ fst (select_candidates insertion_argsort (params_sized 999999999) 3
                scores3 targets3 [])
         = Ok [])
  /\ (fst (select_candidates insertion_argsort (params_sized 0.5) 1
             [(0.875, 0.125)%float] [(7, 1)] [])
        = Ok [(0, 7)]
      /\ Z.of_nat (length [(0, 7)])
         < Z.min (dico_min_size (params_sized 0.5)) (dico_max_size (params_sized 0.5))).
Proof. repeat split; vm_compute; reflexivity. Qed.

Section Builder.

Variable argsort_desc : list float -> list nat.
Variable Emb : Type.
Variable size0 : Emb -> Z.
Variable scorer : Emb -> Emb -> Params -> Z
                  -> result (list score_row * list index_row).

Abbreviation get_candidates := (get_candidates argsort_desc Emb size0 scorer).
Abbreviation prepare_candidates := (prepare_candidates argsort_desc Emb size0 scorer).
Abbreviation build_pairwise_dictionary :=
  (build_pairwise_dictionary argsort_desc Emb size0 scorer).

Lemma str_in_both_S2T : str_in "S2T" "S2T&T2S" = true.
Proof. reflexivity. Qed.

Lemma str_in_both_T2S : str_in "T2S" "S2T&T2S" = true.
Proof. reflexivity. Qed.


(** The policy on candidates that are there, for the intersection. *)
Lemma apply_policy_intersection (p : Params) (a b : list index_row)
    (log : list log_record) :
  dico_build p = "S2T&T2S"%string ->
  apply_policy p (Some a) (Some b) log
  = if decide (size (pair_set a ∩ pair_set b) = 0%nat)
    then (Ok None, log ++ [(WARNING, "Empty intersection ..."%string)])
    else (Ok (Some (elements (pair_set a ∩ pair_set b))),
          log ++ [(INFO, "New train dictionary of %i pairs."%string)]).
Proof.
  intros Hb. unfold apply_policy. rewrite Hb.
  cbn [String.eqb Ascii.eqb Bool.eqb].
  unfold mbind, Py_bind, bind, numpy_of, py_assert, ret. cbn.
  destruct (decide _); reflexivity.
Qed.

(** C4: under the intersection policy, when the source-to-target pairs and
    the column-swapped target-to-source pairs have no pair in common, the
    builder logs a warning and returns [None]; it does not raise. *)
Theorem empty_intersection_returns_None
    (src_emb tgt_emb : Emb) (p : Params)
    (s2t_candidates t2s_candidates : option (list index_row))
    (a b : list index_row) (log log1 log2 : list log_record) :
  dico_build p = "S2T&T2S"%string ->
  or_compute s2t_candidates (get_candidates src_emb tgt_emb p)
    (log ++ [(INFO, "Building the train dictionary ..."%string)])
    = (Ok (Some a), log1) ->
  or_compute t2s_candidates (get_candidates tgt_emb src_emb p) log1
    = (Ok (Some b), log2) ->
  pair_set a ∩ pair_set (swap_columns b) = ∅ ->
  build_pairwise_dictionary src_emb tgt_emb p s2t_candidates t2s_candidates log
  = (Ok None, log2 ++ [(WARNING, "Empty intersection ..."%string)]).
Proof.
  intros Hb Hs Ht Hempty.
  unfold DicoBuilder.build_pairwise_dictionary.
  rewrite (run_bind_ok _ _ _ _ _ (run_logger _ _ _)).
  assert (prepare_candidates src_emb tgt_emb p s2t_candidates t2s_candidates
            (log ++ [(INFO, "Building the train dictionary ..."%string)])
          = (Ok (Some a, Some (swap_columns b)), log2)) as Hprep.
  { unfold DicoBuilder.prepare_candidates.
    rewrite Hb, str_in_both_S2T, str_in_both_T2S.
    unfold mbind, Py_bind, bind, py_assert, ret. cbn [orb].
    rewrite Hs, Ht. reflexivity. }
  rewrite (run_bind_ok _ _ _ _ _ Hprep). cbn [fst snd].
  rewrite (apply_policy_intersection p a (swap_columns b) log2 Hb), Hempty.
  reflexivity.
Qed.


End Builder.


Lemma empty_intersection_returns_None_witness :
  DicoBuilder.build_pairwise_dictionary insertion_argsort table_emb table_size0
    table_scorer ([], []) emb1 params_both (Some [(0, 1)]) None []
  = (Ok None,
     [(INFO, "Building the train dictionary ..."%string)]
       ++ [(WARNING, "Empty intersection ..."%string)]).
Proof.
  apply (empty_intersection_returns_None insertion_argsort table_emb
           table_size0 table_scorer ([], []) emb1 params_both
           (Some [(0, 1)]) None [(0, 1)] [(0, 4)] []
           [(INFO, "Building the train dictionary ..."%string)]
           [(INFO, "Building the train dictionary ..."%string)]).
  - reflexivity.
  - reflexivity.
  - vm_compute. reflexivity.
  - vm_compute. reflexivity.
Defined.

End DicoBuilderSpec.

(** ** Properties of the alignment solver *)

Module ProcrustesSpec.
Import Procrustes ProcrustesInputs.

(** *** Insertion-ordered dictionaries *)

Lemma dict_get_set_eq {V} (k : string) (v : V) (d : pydict V) :
  dict_get k (dict_set k v d) = Some v.
Proof.
  induction d as [|[k' v'] d IH]; cbn.
  - rewrite String.eqb_refl. reflexivity.
  - destruct (String.eqb_spec k' k) as [->|Hne]; cbn.
    + rewrite String.eqb_refl. reflexivity.
    + destruct (String.eqb_spec k' k); [contradiction|exact IH].
Qed.

Lemma dict_get_set_ne {V} (k k0 : string) (v : V) (d : pydict V) :
  k <> k0 -> dict_get k0 (dict_set k v d) = dict_get k0 d.
Proof.
  intros Hne. induction d as [|[k' v'] d IH]; cbn.
  - destruct (String.eqb_spec k k0); [contradiction|reflexivity].
  - destruct (String.eqb_spec k' k) as [->|Hk]; cbn.
    + destruct (String.eqb_spec k k0); [contradiction|reflexivity].
    + destruct (String.eqb_spec k' k0); [reflexivity|exact IH].
Qed.

Lemma keys_dict_set {V} (k : string) (v : V) (d : pydict V) (x : string) :
  x ∈ keys (dict_set k v d) -> x = k \/ x ∈ keys d.
Proof.
  induction d as [|[k' v'] d IH]; cbn.
  - intros Hx. apply list_elem_of_singleton in Hx. left. exact Hx.
  - destruct (String.eqb_spec k' k) as [->|Hk]; cbn.
    + intros Hx. right. exact Hx.
    + intros Hx. apply elem_of_cons in Hx as [->|Hx].
      * right. apply elem_of_cons. left. reflexivity.
      * destruct (IH Hx) as [->|Hin]; [left; reflexivity|].
        right. apply elem_of_cons. right. exact Hin.
Qed.


Section Solver.

Variable Tensor : Type.
Variable mm : Tensor -> Tensor -> Tensor.
Variable transpose : Tensor -> Tensor.
Variable svd : Tensor -> Tensor * Tensor * Tensor.
Variable dot : Tensor -> Tensor -> Tensor.
Variable mean_stack : list Tensor -> Tensor.
Variable rows_at : Tensor -> Tensor -> nat -> option Tensor.

Abbreviation Trainer := (Trainer Tensor).
Abbreviation polar := (polar Tensor svd dot).
Abbreviation copy_to_mapping := (copy_to_mapping Tensor).
Abbreviation get_group_average := (get_group_average Tensor mm mean_stack).
Abbreviation superimpose := (superimpose Tensor mm transpose svd dot).
Abbreviation superimposed := (superimposed Tensor mm transpose svd dot).
Abbreviation mapped_points := (mapped_points Tensor mm).
Abbreviation iteration :=
  (iteration Tensor mm transpose svd dot mean_stack).
Abbreviation assemble := (assemble Tensor rows_at).
Abbreviation target_points := (target_points Tensor rows_at).
Abbreviation covers := (covers Tensor).
Abbreviation lang_list_of := (lang_list_of Tensor).
Abbreviation reference_of := (reference_of Tensor mm mean_stack).
Abbreviation run_trace :=
  (run_trace Tensor mm transpose svd dot mean_stack).
Abbreviation generalized_procrustes :=
  (generalized_procrustes Tensor mm transpose svd dot mean_stack rows_at).

Implicit Types (t : Trainer) (X : pydict Tensor) (m : gmap string Tensor).

Ltac py_go :=
  repeat progress
    (unfold mbind, Py_bind, bind, mret, Py_ret, ret, raise, get, modify;
     cbv beta iota).

Lemma with_mapping_id t : with_mapping Tensor (mapping Tensor t) t = t.
Proof. destruct t. reflexivity. Qed.

Lemma with_mapping_twice m m' t :
  with_mapping Tensor m' (with_mapping Tensor m t) = with_mapping Tensor m' t.
Proof. reflexivity. Qed.

Lemma covers_cons k x X m :
  covers ((k, x) :: X) m -> is_Some (m !! k) /\ covers X m.
Proof.
  intros H. split.
  - apply H. apply elem_of_cons. left. reflexivity.
  - intros k' Hk'. apply H. apply elem_of_cons. right. exact Hk'.
Qed.

Lemma covers_insert X m k w : covers X m -> covers X (<[k := w]> m).
Proof.
  intros H k' Hk'. rewrite lookup_insert. case_decide; [eexists; reflexivity|].
  apply H, Hk'.
Qed.

Lemma covers_superimposed X X' G m :
  covers X m -> covers X (superimposed X' G m).
Proof.
  revert m. induction X' as [|[k x] X' IH]; intros m H; [exact H|].
  cbn. apply IH, covers_insert, H.
Qed.

Lemma copy_to_mapping_run k w t :
  is_Some (mapping Tensor t !! k) ->
  copy_to_mapping k w t
  = (Ok tt, with_mapping Tensor (<[k := w]> (mapping Tensor t)) t).
Proof.
  intros [v Hv]. unfold Procrustes.copy_to_mapping, getitem. py_go.
  rewrite Hv. reflexivity.
Qed.

Lemma superimpose_run X G t :
  covers X (mapping Tensor t) ->
  superimpose X G t
  = (Ok tt, with_mapping Tensor (superimposed X G (mapping Tensor t)) t).
Proof.
  intros Hc. unfold Procrustes.superimpose.
  assert (exists us,
    mapM (M := Py Trainer)
      (fun kv => copy_to_mapping (fst kv) (polar (mm (transpose G) (snd kv))))
      X t
    = (Ok us, with_mapping Tensor (superimposed X G (mapping Tensor t)) t))
    as [us Hus].
  { revert t Hc. induction X as [|[k x] X IH]; intros t Hc.
    - exists []. rewrite run_mapM_nil. unfold Procrustes.superimposed.
      cbn [foldl]. rewrite with_mapping_id. reflexivity.
    - apply covers_cons in Hc as [Hk Hc].
      destruct (IH (with_mapping Tensor
                      (<[k := polar (mm (transpose G) x)]> (mapping Tensor t)) t))
        as [us Hus].
      { cbn. apply covers_insert, Hc. }
      exists (tt :: us). rewrite run_mapM_cons. cbn [fst snd].
      rewrite (copy_to_mapping_run k _ t Hk), Hus. reflexivity. }
  rewrite (run_bind_ok _ _ _ _ _ Hus). reflexivity.
Qed.

Lemma get_group_average_run X t :
  covers X (mapping Tensor t) ->
  exists pts,
    mapped_points X (mapping Tensor t) = Some pts
    /\ get_group_average X t = (Ok (mean_stack pts), t).
Proof.
  intros Hc. unfold Procrustes.get_group_average, Procrustes.mapped_points.
  assert (forall s : Trainer, exists pts,
    mapM (fun kv => w ← mapping Tensor t !! fst kv; Some (mm (snd kv) w)) X
      = Some pts
    /\ mapM (M := Py Trainer)
         (fun kv => w ← getitem Tensor (mapping Tensor t) (fst kv);
                    ret (mm (snd kv) w)) X s
       = (Ok pts, s)) as Hm.
  { induction X as [|[k x] X IH]; intros s.
    - exists []. split; reflexivity.
    - apply covers_cons in Hc as [[w Hw] Hc].
      destruct (IH Hc s) as (pts & Ho & Hp).
      exists (mm x w :: pts). split.
      + cbn [mapM fst snd]. rewrite Hw. cbn. rewrite Ho. reflexivity.
      + rewrite run_mapM_cons. cbn [fst snd]. rewrite run_bind.
        unfold getitem at 1. rewrite Hw. cbn [ret]. rewrite Hp. reflexivity. }
  destruct (Hm t) as (pts & Ho & Hp). exists pts. split; [exact Ho|].
  rewrite run_bind. cbn [get]. rewrite (run_bind_ok _ _ _ _ _ Hp). reflexivity.
Qed.

Lemma superimposed_other X G m lang :
  dict_get lang X = None -> superimposed X G m !! lang = m !! lang.
Proof.
  revert m. induction X as [|[k x] X IH]; intros m Hn; [reflexivity|].
  cbn in Hn. destruct (String.eqb_spec k lang) as [->|Hk]; [discriminate|].
  unfold Procrustes.superimposed in *. cbn [foldl fst snd].
  rewrite (IH _ Hn). apply lookup_insert_ne. exact Hk.
Qed.


(** *** The two-space solver *)

(** [simple_procrustes] forms [M] as the target points transposed times
    the source points and overwrites the source mapping with [U.dot(V_t)]
    of its decomposition. *)
Lemma simple_procrustes_writes t (A B e w0 : Tensor) (l : string) :
  rows_at (src_emb Tensor t) (dico Tensor t) 0 = Some A ->
  last (tgt_lang Tensor t) = Some l ->
  tgt_emb Tensor t !! l = Some e ->
  rows_at e (dico Tensor t) 1 = Some B ->
  mapping Tensor t !! src_lang Tensor t = Some w0 ->
  simple_procrustes Tensor mm transpose svd dot rows_at t
  = (Ok tt,
     with_mapping Tensor
       (<[src_lang Tensor t := polar (mm (transpose B) A)]> (mapping Tensor t)) t).
Proof.
  intros HA Hl He HB Hw. unfold Procrustes.simple_procrustes.
  rewrite run_bind. cbn [get].
  unfold matched_points, last_item, getitem.
  rewrite run_bind, HA. cbn [ret].
  rewrite run_bind, Hl. cbn [ret].
  rewrite run_bind, He. cbn [ret].
  rewrite run_bind, HB. cbn [ret].
  rewrite run_bind, Hw. cbn [ret].
  apply copy_to_mapping_run. rewrite Hw. eexists. reflexivity.
Qed.

(** *** Assembling the matched points *)

Lemma NoDup_keys_dict_set {V} (k : string) (v : V) (d : pydict V) :
  NoDup (keys d) -> NoDup (keys (dict_set k v d)).
Proof.
  induction d as [|[k' v'] d IH]; cbn; intros Hnd.
  - apply NoDup_singleton.
  - apply NoDup_cons in Hnd as [Hk' Hnd].
    destruct (String.eqb_spec k' k) as [->|Hne]; cbn.
    + apply NoDup_cons. split; assumption.
    + apply NoDup_cons. split; [|apply IH, Hnd].
      intros Hin. apply keys_dict_set in Hin as [->|Hin]; [congruence|auto].
Qed.

Lemma getitem_run {S} m (k : string) (s : S) :
  getitem Tensor m k s
  = match m !! k with
    | Some v => (Ok v, s)
    | None => (Raise (KeyError k), s)
    end.
Proof. unfold getitem. destruct (m !! k); reflexivity. Qed.

Lemma matched_points_run {S} (emb dico : Tensor) (i : nat) (s : S) :
  matched_points Tensor rows_at emb dico i s
  = match rows_at emb dico i with
    | Some x => (Ok x, s)
    | None => (Raise IndexError, s)
    end.
Proof. unfold matched_points. destruct (rows_at emb dico i); reflexivity. Qed.

(** The dict comprehension reads only; a language outside the list keeps
    its entry, and the first language, when it does not come again, gets
    the rows at column [i]. *)
Lemma target_points_run t (i : nat) (langs : list string) X0 (s s' : Trainer) X :
  target_points t i langs X0 s = (Ok X, s') ->
  s' = s
  /\ (forall k, k ∈ keys X -> k ∈ keys X0 \/ k ∈ langs)
  /\ (NoDup (keys X0) -> NoDup (keys X))
  /\ (forall l, l ∉ langs -> dict_get l X = dict_get l X0).
Proof.
  revert i X0. induction langs as [|lang rest IH]; intros i X0 Hrun.
  - cbn in Hrun. injection Hrun as <- <-.
    repeat split; auto.
  - cbn [Procrustes.target_points] in Hrun.
    rewrite run_bind, getitem_run in Hrun.
    destruct (tgt_emb Tensor t !! lang) as [e|]; [|discriminate].
    rewrite run_bind, matched_points_run in Hrun.
    destruct (rows_at e (dico Tensor t) i) as [x|]; [|discriminate].
    apply IH in Hrun as (-> & Hkeys & Hnd & Hget).
    split; [reflexivity|]. split; [|split].
    + intros k Hk. destruct (Hkeys k Hk) as [Hin|Hin].
      * apply keys_dict_set in Hin as [->|Hin]; [|left; exact Hin].
        right. apply elem_of_cons. left. reflexivity.
      * right. apply elem_of_cons. right. exact Hin.
    + intros H0. apply Hnd, NoDup_keys_dict_set, H0.
    + intros l Hl. rewrite Hget.
      * apply dict_get_set_ne. intros ->. apply Hl, elem_of_cons. left.
        reflexivity.
      * intros Hin. apply Hl, elem_of_cons. right. exact Hin.
Qed.

Lemma target_points_head t (i : nat) (l0 : string) (rest : list string) X0
    (s s' : Trainer) X :
  target_points t i (l0 :: rest) X0 s = (Ok X, s') ->
  l0 ∉ rest ->
  exists e x, tgt_emb Tensor t !! l0 = Some e
              /\ rows_at e (dico Tensor t) i = Some x
              /\ dict_get l0 X = Some x.
Proof.
  intros Hrun Hl0. cbn [Procrustes.target_points] in Hrun.
  rewrite run_bind, getitem_run in Hrun.
  destruct (tgt_emb Tensor t !! l0) as [e|] eqn:He; [|discriminate].
  rewrite run_bind, matched_points_run in Hrun.
  destruct (rows_at e (dico Tensor t) i) as [x|] eqn:Hx; [|discriminate].
  apply target_points_run in Hrun as (_ & _ & _ & Hget).
  exists e, x. split; [reflexivity|]. split; [exact Hx|].
  rewrite (Hget l0 Hl0). apply dict_get_set_eq.
Qed.

Lemma mapM_getitem_run m (ks : list string) (s s' : Trainer) vs :
  mapM (M := Py Trainer) (getitem Tensor m) ks s = (Ok vs, s') ->
  s' = s /\ forall k, k ∈ ks -> is_Some (m !! k).
Proof.
  revert s s' vs. induction ks as [|k ks IH]; intros s s' vs Hrun.
  - rewrite run_mapM_nil in Hrun. injection Hrun as _ <-. split; [reflexivity|].
    intros k Hk. apply elem_of_nil in Hk. contradiction.
  - rewrite run_mapM_cons, getitem_run in Hrun.
    destruct (m !! k) as [v|] eqn:Hv; [|discriminate].
    destruct (mapM (M := Py Trainer) (getitem Tensor m) ks s)
      as [[vs'|e] s1] eqn:Hrest; [|discriminate].
    injection Hrun as _ <-. apply IH in Hrest as [-> Hall].
    split; [reflexivity|]. intros k' Hk'.
    apply elem_of_cons in Hk' as [->|Hk']; [rewrite Hv; eexists; reflexivity|].
    apply Hall, Hk'.
Qed.

Lemma assemble_run (support : bool) t X (t' : Trainer) :
  assemble support t = (Ok X, t') ->
  t' = t
  /\ exists lang_list X1 x0,
       lang_list_of support t lang_list
       /\ target_points t 1 lang_list [] t = (Ok X1, t)
       /\ rows_at (src_emb Tensor t) (dico Tensor t) 0 = Some x0
       /\ X = dict_set (src_lang Tensor t) x0 X1
       /\ forall k, k ∈ src_lang Tensor t :: lang_list ->
                    is_Some (mapping Tensor t !! k).
Proof.
  unfold Procrustes.assemble. intros Hrun.
  rewrite run_bind in Hrun. cbn [get] in Hrun.
  rewrite run_bind in Hrun.
  assert (exists lang_list,
    lang_list_of support t lang_list
    /\ (if negb support
        then l ← last_item (tgt_lang Tensor t); ret [l]
        else ret (tgt_lang Tensor t)) t = (Ok lang_list, t)
       \/ exists e, (if negb support
        then l ← last_item (tgt_lang Tensor t); ret [l]
        else ret (tgt_lang Tensor t)) t = (Raise e, t)) as Hll.
  { destruct support; cbn [negb].
    - exists (tgt_lang Tensor t). left. split; reflexivity.
    - rewrite run_bind. unfold last_item.
      destruct (last (tgt_lang Tensor t)) as [l|] eqn:Hl.
      + exists [l]. left. split; [|reflexivity]. exists l. split; [exact Hl|reflexivity].
      + exists []. right. eexists. reflexivity. }
  destruct Hll as [lang_list [[Hll Heq]|[e Heq]]]; rewrite Heq in Hrun;
    [|discriminate].
  rewrite run_bind in Hrun.
  destruct (target_points t 1 lang_list [] t) as [[X1|e] s1] eqn:Htp;
    [|discriminate].
  pose proof (target_points_run _ _ _ _ _ _ _ Htp) as (-> & _).
  rewrite run_bind, matched_points_run in Hrun.
  destruct (rows_at (src_emb Tensor t) (dico Tensor t) 0) as [x0|] eqn:Hx0;
    [|discriminate].
  rewrite run_bind in Hrun.
  destruct (mapM (M := Py Trainer) (getitem Tensor (mapping Tensor t))
              (src_lang Tensor t :: lang_list) t) as [[vs|e] s1] eqn:Hm;
    [|discriminate].
  apply mapM_getitem_run in Hm as [-> Hall].
  cbn [ret] in Hrun. injection Hrun as <- <-.
  split; [reflexivity|].
  exists lang_list, X1, x0. repeat split; assumption.
Qed.

Lemma assemble_covers (support : bool) t X (t' : Trainer) :
  assemble support t = (Ok X, t') ->
  t' = t /\ covers X (mapping Tensor t) /\ NoDup (keys X).
Proof.
  intros Hrun.
  apply assemble_run in Hrun
    as (-> & lang_list & X1 & x0 & _ & Htp & _ & -> & Hall).
  apply target_points_run in Htp as (_ & Hkeys & Hnd & _).
  split; [reflexivity|]. split.
  - intros k Hk. apply Hall.
    apply keys_dict_set in Hk as [->|Hk].
    + apply elem_of_cons. left. reflexivity.
    + apply elem_of_cons. right. destruct (Hkeys k Hk) as [Hin|Hin]; [|exact Hin].
      apply elem_of_nil in Hin. contradiction.
  - apply NoDup_keys_dict_set, Hnd. apply NoDup_nil_2.
Qed.

Lemma for_range_trace X (n : nat) (initial_run : bool) t :
  covers X (mapping Tensor t) ->
  (initial_run = true ->
   exists l0 G0, head (tgt_lang Tensor t) = Some l0 /\ dict_get l0 X = Some G0) ->
  exists refs maps mfinal b,
    run_trace t X initial_run n refs maps
    /\ maps !! n = Some mfinal
    /\ for_range n (iteration X) initial_run t
       = (Ok b, with_mapping Tensor mfinal t).
Proof.
  revert initial_run t. induction n as [|n IH]; intros b t Hc Hinit.
  - exists [], [mapping Tensor t], (mapping Tensor t), b.
    split; [|split].
    + split; [reflexivity|split; [reflexivity|split; [reflexivity|]]].
      intros k G m Hk. destruct k; discriminate Hk.
    + reflexivity.
    + cbn [for_range]. rewrite with_mapping_id. reflexivity.
  - (* the reference of this iteration *)
    assert (exists G,
      reference_of t X b (mapping Tensor t) G
      /\ (if b then l0 ← first_item (tgt_lang Tensor t); dict_getitem Tensor X l0
          else get_group_average X) t = (Ok G, t)) as (G & HG & HrunG).
    { destruct b.
      - destruct (Hinit eq_refl) as (l0 & G0 & Hl0 & HG0). exists G0. split.
        + exists l0. split; assumption.
        + rewrite run_bind. destruct (tgt_lang Tensor t) as [|l ls]; [discriminate|].
          injection Hl0 as ->. cbn [first_item ret].
          unfold dict_getitem. rewrite HG0. reflexivity.
      - destruct (get_group_average_run X t Hc) as (pts & Hp & Hrun).
        exists (mean_stack pts). split; [|exact Hrun].
        exists pts. split; [exact Hp|reflexivity]. }
    set (t1 := with_mapping Tensor (superimposed X G (mapping Tensor t)) t).
    destruct (IH false t1) as (refs & maps & mfinal & b' & Htr & Hfin & Hrun).
    { apply covers_superimposed, Hc. }
    { discriminate. }
    exists (G :: refs), (mapping Tensor t :: maps), mfinal, b'.
    destruct Htr as (Hlr & Hlm & Hm0 & Hstep).
    split; [|split].
    + split; [cbn; congruence|]. split; [cbn; congruence|].
      split; [reflexivity|].
      intros k G' m' HG' Hm'. destruct k as [|k].
      * cbn in HG', Hm'. injection HG' as <-. injection Hm' as <-.
        rewrite andb_true_r. split; [exact HG|exact Hm0].
      * cbn in HG', Hm'. destruct (Hstep k G' m' HG' Hm') as [Href Hnext].
        rewrite andb_false_r. split; [|exact Hnext].
        cbn [andb] in Href. exact Href.
    + exact Hfin.
    + cbn [for_range]. rewrite run_bind.
      assert (iteration X b t = (Ok false, t1)) as ->.
      { unfold Procrustes.iteration. rewrite run_bind. cbn [get].
        rewrite run_bind, HrunG. rewrite run_bind.
        rewrite (superimpose_run X G t Hc). reflexivity. }
      exact Hrun.
Qed.

Lemma head_last_distinct (ls : list string) (a b : string) :
  NoDup ls -> head ls = Some a -> last ls = Some b ->
  (1 < length ls)%nat -> a <> b.
Proof.
  intros Hnd Hh Hl Hlen. destruct ls as [|x [|y ls]]; cbn in Hlen; try lia.
  injection Hh as Hxa. subst x. apply NoDup_cons in Hnd as [Ha _].
  intros Hab. subst b. apply Ha.
  change (last (a :: y :: ls)) with (last (y :: ls)) in Hl.
  apply last_Some_elem_of in Hl. exact Hl.
Qed.

Lemma generalized_procrustes_run (support initial_run : bool) t X :
  assemble support t = (Ok X, t) ->
  generalized_procrustes support initial_run t
  = match for_range 100 (iteration X) initial_run t with
    | (Ok _, s) => (Ok tt, s)
    | (Raise e, s) => (Raise e, s)
    end.
Proof.
  intros Hasm. unfold Procrustes.generalized_procrustes.
  rewrite (run_bind_ok _ _ _ _ _ Hasm), run_bind.
  destruct (for_range 100 (iteration X) initial_run t) as [[b|e] s]; reflexivity.
Qed.


(** The first iteration of an initial run when the first target language
    has no points. *)
Lemma first_iteration_raises X t (l0 : string) :
  head (tgt_lang Tensor t) = Some l0 -> dict_get l0 X = None ->
  for_range 100 (iteration X) true t = (Raise (KeyError l0), t).
Proof.
  intros Hhead Hnone. change 100%nat with (S 99). cbn [for_range].
  rewrite run_bind.
  assert (iteration X true t = (Raise (KeyError l0), t)) as ->; [|reflexivity].
  unfold Procrustes.iteration. rewrite run_bind. cbn [get].
  rewrite run_bind, run_bind.
  destruct (tgt_lang Tensor t) as [|l' ls]; [discriminate|].
  injection Hhead as ->. cbn [first_item ret].
  unfold dict_getitem. rewrite Hnone. reflexivity.
Qed.


(** C9 (as amended): with pairwise distinct languages, an initial run
    whose points are assembled takes its first reference from the first
    target language.  Without support and with more than one target
    language only the last target language and the source are assembled,
    and the first iteration raises [KeyError] on the first target
    language, leaving the mappings as they were; with support, or with
    one target language, the first reference is the first target
    language's rows at column 1 and the run returns after its 100
    iterations. *)
Theorem initial_reference_is_first_target
    (support : bool) t X (t' : Trainer) (l0 : string) :
  NoDup (src_lang Tensor t :: tgt_lang Tensor t) ->
  head (tgt_lang Tensor t) = Some l0 ->
  assemble support t = (Ok X, t') ->
  (support = false /\ (1 < length (tgt_lang Tensor t))%nat ->
   (exists l, last (tgt_lang Tensor t) = Some l
              /\ keys X = [l; src_lang Tensor t])
   /\ dict_get l0 X = None
   /\ generalized_procrustes support true t = (Raise (KeyError l0), t))
  /\ (support = true \/ length (tgt_lang Tensor t) = 1%nat ->
      exists e G refs maps mfinal,
        tgt_emb Tensor t !! l0 = Some e
        /\ rows_at e (dico Tensor t) 1 = Some G
        /\ dict_get l0 X = Some G
        /\ run_trace t X true 100 refs maps
        /\ refs !! 0%nat = Some G
        /\ maps !! 100%nat = Some mfinal
        /\ generalized_procrustes support true t
           = (Ok tt, with_mapping Tensor mfinal t)).
Proof.
  intros Hnd Hhead Hasm.
  destruct (assemble_covers _ _ _ _ Hasm) as (-> & Hc & _).
  pose proof Hasm as Hasm'.
  apply assemble_run in Hasm'
    as (_ & lang_list & X1 & x0 & Hll & Htp & Hx0 & HX & _).
  apply NoDup_cons in Hnd as [Hsrc Hnd].
  assert (l0 ∈ tgt_lang Tensor t) as Hl0in.
  { destruct (tgt_lang Tensor t); [discriminate|]. injection Hhead as ->.
    apply elem_of_cons. left. reflexivity. }
  assert (src_lang Tensor t <> l0) as Hsrc0 by (intros Heq; congruence).
  split.
  - intros [-> Hlen]. destruct Hll as (l & Hlast & ->).
    assert (l0 <> l) as Hne by (eapply head_last_distinct; eassumption).
    assert (src_lang Tensor t <> l) as Hsrcl.
    { intros Heq. apply Hsrc. rewrite Heq. apply last_Some_elem_of. exact Hlast. }
    assert (dict_get l0 X = None) as Hnone.
    { rewrite HX, dict_get_set_ne by exact Hsrc0.
      apply target_points_run in Htp as (_ & _ & _ & Hget).
      rewrite Hget; [reflexivity|].
      intros Hin. apply list_elem_of_singleton in Hin. contradiction. }
    split; [|split; [exact Hnone|]].
    + exists l. split; [exact Hlast|].
      cbn [Procrustes.target_points] in Htp.
      rewrite run_bind, getitem_run in Htp.
      destruct (tgt_emb Tensor t !! l) as [e|]; [|discriminate].
      rewrite run_bind, matched_points_run in Htp.
      destruct (rows_at e (dico Tensor t) 1) as [x|]; [|discriminate].
      cbn in Htp. injection Htp as <-. rewrite HX. cbn.
      destruct (String.eqb_spec l (src_lang Tensor t)); [congruence|reflexivity].
    + rewrite (generalized_procrustes_run _ _ _ _ Hasm).
      rewrite (first_iteration_raises X t l0 Hhead Hnone). reflexivity.
  - intros Hcase.
    assert (exists rest, lang_list = l0 :: rest /\ l0 ∉ rest) as (rest & -> & Hrest).
    { destruct support.
      - cbn in Hll. subst lang_list.
        destruct (tgt_lang Tensor t) as [|l' ls]; [discriminate|].
        injection Hhead as ->. exists ls. split; [reflexivity|].
        apply NoDup_cons in Hnd as [Hn _]. exact Hn.
      - destruct Hcase as [?|Hlen]; [discriminate|].
        destruct Hll as (l & Hlast & ->).
        destruct (tgt_lang Tensor t) as [|l' [|l'' ls]]; try discriminate.
        injection Hhead as ->. cbn in Hlast. injection Hlast as ->.
        exists []. split; [reflexivity|]. apply not_elem_of_nil. }
    destruct (target_points_head _ _ _ _ _ _ _ _ Htp Hrest)
      as (e & G & He & HG & HgetG).
    assert (dict_get l0 X = Some G) as HXG.
    { rewrite HX, dict_get_set_ne by exact Hsrc0. exact HgetG. }
    destruct (for_range_trace X 100 true t Hc)
      as (refs & maps & mfinal & b & Htr & Hfin & Hrun).
    { intros _. exists l0, G. split; assumption. }
    exists e, G, refs, maps, mfinal.
    split; [exact He|]. split; [exact HG|]. split; [exact HXG|].
    split; [exact Htr|]. split; [|split; [exact Hfin|]].
    + destruct Htr as (Hlr & _ & Hm0 & Hstep).
      destruct refs as [|G' refs]; [discriminate|].
      destruct (Hstep 0%nat G' _ eq_refl Hm0) as [(l' & Hl' & HG') _].
      rewrite Hhead in Hl'. injection Hl' as <-. cbn. congruence.
    + rewrite (generalized_procrustes_run _ _ _ _ Hasm), Hrun. reflexivity.
Qed.

End Solver.

Abbreviation scalar_assemble := (assemble Q scalar_rows).
Abbreviation scalar_trace :=
  (run_trace Q Qmult (fun x => x) scalar_svd Qmult scalar_mean).



Lemma initial_reference_is_first_target_witness :
  (exists l, last (tgt_lang Q trainer_en_es_fr) = Some l
             /\ keys [("fr"%string, (-5)%Q); ("en"%string, 2%Q)]
                = [l; src_lang Q trainer_en_es_fr])
  /\ dict_get "es" [("fr"%string, (-5)%Q); ("en"%string, 2%Q)] = None
  /\ scalar_solver false true trainer_en_es_fr
     = (Raise (KeyError "es"), trainer_en_es_fr).
Proof.
  apply (initial_reference_is_first_target Q Qmult (fun x => x) scalar_svd
           Qmult scalar_mean scalar_rows false trainer_en_es_fr
           [("fr"%string, (-5)%Q); ("en"%string, 2%Q)] trainer_en_es_fr "es").
  - apply (bool_decide_unpack _). vm_compute. reflexivity.
  - reflexivity.
  - vm_compute. reflexivity.
  - split; [reflexivity|]. cbn. lia.
Defined.

(** C9 as stated fails when a language is named twice.  With the target
    languages French and French and no support, the first target is also
    the last, its points are assembled, and the initial run returns.
    With the source English and the targets English and French, the
    entry of English in [X] is overwritten with the source's points, so
    the first reference is the source's points (2) and not the rows of
    the English target embeddings (7); the run returns as well. *)
Lemma initial_run_with_repeated_language :
  (length (tgt_lang Q trainer_en_fr_fr) = 2%nat
   /\ fst (scalar_solver false true trainer_en_fr_fr) = Ok tt)
  /\ (length (tgt_lang Q trainer_en_en_fr) = 2%nat
      /\ head (tgt_lang Q trainer_en_en_fr) = Some "en"%string
      /\ tgt_emb Q trainer_en_en_fr !! "en"%string = Some 7%Q
      /\ fst (scalar_assemble false trainer_en_en_fr)
         = Ok [("fr"%string, (-5)%Q); ("en"%string, 2%Q)]
      /\ fst (scalar_solver false true trainer_en_en_fr) = Ok tt).
Proof. repeat split; vm_compute; reflexivity. Qed.

End ProcrustesSpec.

(** ** Properties of the adversarial steps *)

Module StepsSpec.
Import Steps.

Section Adversarial.

Variable Dis : Type.
Variable Map : Type.
Variable World : Type.
Variable Batch : Type.
Variable Labels : Type.
Variable Preds : Type.
Variable train_mode : Dis -> Dis.
Variable eval_mode : Dis -> Dis.
Variable get_dis_xy : bool -> Map -> World -> Batch * Labels * World.
Variable forward : Dis -> Batch -> Preds.
Variable binary_cross_entropy : Preds -> Labels -> float.
Variable flip : Labels -> Labels.
Variable dis_zero_grad : Dis -> Dis.
Variable dis_backward : Dis -> Batch -> Labels -> Dis.
Variable dis_optim_step : Dis -> Dis.
Variable clip_parameters : Dis -> float -> Dis.
Variable map_zero_grad : Map -> Map.
Variable map_backward : float -> Map * Dis -> Batch -> Labels -> Map * Dis.
Variable map_optim_step : Map -> Map.
Variable orthogonalize : Map -> Map.

Abbreviation Trainer := (Trainer Dis Map World).
Abbreviation dis_step :=
  (dis_step Dis Map World Batch Labels Preds train_mode get_dis_xy forward
     binary_cross_entropy dis_zero_grad dis_backward dis_optim_step
     clip_parameters).
Abbreviation mapping_step :=
  (mapping_step Dis Map World Batch Labels Preds eval_mode get_dis_xy forward
     binary_cross_entropy flip map_zero_grad map_backward map_optim_step
     orthogonalize).
Abbreviation dis_loss :=
  (dis_loss Dis Map World Batch Labels Preds train_mode get_dis_xy forward
     binary_cross_entropy).
Abbreviation fool_loss :=
  (fool_loss Dis Map World Batch Labels Preds eval_mode get_dis_xy forward
     binary_cross_entropy flip).

(** C6: when the loss of a discriminator step is NaN the step logs the
    error and exits: the discriminator is only switched to training mode,
    none of [zero_grad], [backward], [step] and the clipping is applied to
    it, and the mapping is untouched.  Likewise for a mapping step whose
    weight is not zero: the mapping is left as it was and the
    discriminator is only switched to evaluation mode.  The outcome is
    the exit itself, no second attempt is made. *)
Theorem nan_loss_exits_before_optimizer (p : Params) (t : Trainer) :
  (is_nan (dis_loss t) = true ->
   fst (dis_step p t) = Raise SystemExit
   /\ discriminator _ _ _ (snd (dis_step p t))
      = train_mode (discriminator _ _ _ t)
   /\ mapping _ _ _ (snd (dis_step p t)) = mapping _ _ _ t
   /\ log _ _ _ (snd (dis_step p t))
      = log _ _ _ t ++ [(ERROR, "NaN detected (discriminator)"%string)])
  /\ (PrimFloat.eqb (dis_lambda p) 0%float = false ->
      is_nan (fool_loss p t) = true ->
      fst (mapping_step p t) = Raise SystemExit
      /\ mapping _ _ _ (snd (mapping_step p t)) = mapping _ _ _ t
      /\ discriminator _ _ _ (snd (mapping_step p t))
         = eval_mode (discriminator _ _ _ t)
      /\ log _ _ _ (snd (mapping_step p t))
         = log _ _ _ t ++ [(ERROR, "NaN detected (fool discriminator)"%string)]).
Proof.
  split.
  - unfold Steps.dis_loss, Steps.dis_step, Steps.sample. intros Hnan.
    unfold mbind, Py_bind, bind, modify, get, ret.
    cbn [mapping world discriminator set_discriminator].
    destruct (get_dis_xy true (mapping _ _ _ t) (world _ _ _ t)) as [[x y] w].
    cbn [mapping world discriminator set_discriminator set_world append_cost
         fst snd].
    rewrite Hnan. repeat split; reflexivity.
  - unfold Steps.fool_loss, Steps.mapping_step, Steps.sample.
    intros Hlam Hnan. rewrite Hlam.
    unfold mbind, Py_bind, bind, modify, get, ret.
    cbn [mapping world discriminator set_discriminator].
    destruct (get_dis_xy false (mapping _ _ _ t) (world _ _ _ t)) as [[x y] w].
    cbn [mapping world discriminator set_discriminator set_world fst snd].
    rewrite Hnan. repeat split; reflexivity.
Qed.

End Adversarial.

Lemma nan_loss_exits_before_optimizer_witness :
  (fst (toy_dis_step PrimFloat.nan (toy_params 1) toy_trainer) = Raise SystemExit
   /\ discriminator _ _ _ (snd (toy_dis_step PrimFloat.nan (toy_params 1) toy_trainer))
      = discriminator _ _ _ toy_trainer ++ [TrainMode]
   /\ mapping _ _ _ (snd (toy_dis_step PrimFloat.nan (toy_params 1) toy_trainer))
      = mapping _ _ _ toy_trainer
   /\ log _ _ _ (snd (toy_dis_step PrimFloat.nan (toy_params 1) toy_trainer))
      = log _ _ _ toy_trainer ++ [(ERROR, "NaN detected (discriminator)"%string)])
  /\ (fst (toy_mapping_step PrimFloat.nan (toy_params 1) toy_trainer)
        = Raise SystemExit
      /\ mapping _ _ _ (snd (toy_mapping_step PrimFloat.nan (toy_params 1) toy_trainer))
         = mapping _ _ _ toy_trainer
      /\ discriminator _ _ _
           (snd (toy_mapping_step PrimFloat.nan (toy_params 1) toy_trainer))
         = discriminator _ _ _ toy_trainer ++ [EvalMode]
      /\ log _ _ _ (snd (toy_mapping_step PrimFloat.nan (toy_params 1) toy_trainer))
         = log _ _ _ toy_trainer
           ++ [(ERROR, "NaN detected (fool discriminator)"%string)]).
Proof.
  pose proof
    (nan_loss_exits_before_optimizer (list call) (list call) unit unit unit
       unit (fun d => d ++ [TrainMode]) (fun d => d ++ [EvalMode])
       (fun _ _ w => (tt, tt, w)) (fun _ _ => tt)
       (fun _ _ => PrimFloat.nan) (fun y => y)
       (fun d => d ++ [ZeroGrad]) (fun d _ _ => d ++ [Backward])
       (fun d => d ++ [OptimStep]) (fun d _ => d ++ [Clip])
       (fun m => m ++ [ZeroGrad])
       (fun _ md _ _ => (fst md ++ [Backward], snd md ++ [Backward]))
       (fun m => m ++ [OptimStep]) (fun m => m ++ [Orthogonalize])
       (toy_params 1) toy_trainer) as [Hdis Hmap].
  split.
  - apply Hdis. reflexivity.
  - apply Hmap; reflexivity.
Defined.

End StepsSpec.

(** ** Properties of the learning-rate schedule *)

Module ScheduleSpec.
Import Schedule.

Local Open Scope Q_scope.

Lemma Qltb_lt (a b : Q) : Qltb a b = true <-> a < b.
Proof.
  unfold Qltb. rewrite negb_true_iff. split.
  - intros H. apply Qnot_le_lt. intros Hle.
    apply Qle_bool_iff in Hle. congruence.
  - intros H. destruct (Qle_bool b a) eqn:E; [|reflexivity].
    apply Qle_bool_iff in E. exfalso. exact (Qlt_not_le _ _ H E).
Qed.

Lemma py_max_ge_l (a b : Q) : a <= py_max a b.
Proof.
  unfold py_max. destruct (Qltb a b) eqn:E.
  - apply Qltb_lt in E. apply Qlt_le_weak. exact E.
  - apply Qle_refl.
Qed.

(** *** Counting log records *)

Lemma count_msg_app (msg : string) (l1 l2 : list log_record) :
  count_msg msg (l1 ++ l2) = (count_msg msg l1 + count_msg msg l2)%nat.
Proof. unfold count_msg. rewrite List.filter_app, length_app. reflexivity. Qed.

Lemma count_msg_snoc (msg msg' : string) (l : list log_record) :
  count_msg msg (l ++ [(INFO, msg')])
  = (count_msg msg l + if String.eqb msg' msg then 1 else 0)%nat.
Proof.
  rewrite count_msg_app. f_equal. unfold count_msg. cbn.
  destruct (String.eqb msg' msg); reflexivity.
Qed.

(** *** What the calls leave alone *)

Lemma save_mappings_fields (ls : list string) (t : Trainer) :
  lr (foldl (fun t lang => save_mapping lang t) t ls) = lr t
  /\ decrease_lr (foldl (fun t lang => save_mapping lang t) t ls) = decrease_lr t
  /\ best_valid_metric (foldl (fun t lang => save_mapping lang t) t ls)
     = best_valid_metric t.
Proof.
  revert t. induction ls as [|l ls IH]; intros t; [repeat split|].
  cbn [foldl]. destruct (IH (save_mapping l t)) as (-> & -> & ->).
  repeat split.
Qed.

Lemma save_best_lr (p : Params) (m : Q) (t : Trainer) :
  lr (save_best p m t) = lr t.
Proof.
  unfold save_best. destruct (Qltb _ _); [|reflexivity].
  destruct (save_mappings_fields (langs p)
              (logger_info msg_best (set_best m t))) as (-> & _). reflexivity.
Qed.

Lemma save_best_decrease_lr (p : Params) (m : Q) (t : Trainer) :
  decrease_lr (save_best p m t) = decrease_lr t.
Proof.
  unfold save_best. destruct (Qltb _ _); [|reflexivity].
  destruct (save_mappings_fields (langs p)
              (logger_info msg_best (set_best m t))) as (_ & -> & _). reflexivity.
Qed.

Lemma decay_fields (p : Params) (t : Trainer) :
  decrease_lr (decay p t) = decrease_lr t
  /\ best_valid_metric (decay p t) = best_valid_metric t
  /\ count_msg msg_shrinking (log (decay p t)) = count_msg msg_shrinking (log t).
Proof.
  unfold decay. destruct (Qltb _ _); [|repeat split].
  split; [reflexivity|]. split; [reflexivity|].
  cbn [log set_lr logger_info]. rewrite count_msg_snoc.
  change (String.eqb msg_decreasing msg_shrinking) with false.
  cbv iota. lia.
Qed.

(** *** The shrink *)

(** A call of [update_lr] that logs a shrink found the metric below the
    best with the flag already set, and multiplied the rate. *)
Lemma update_lr_shrinks (p : Params) (m : Q) (t : Trainer) :
  count_msg msg_shrinking (log (update_lr p m t))
    <> count_msg msg_shrinking (log t) ->
  decrease_lr t = true
  /\ Qltb m (best_valid_metric t) = true
  /\ lr (update_lr p m t) = lr (decay p t) * lr_shrink p.
Proof.
  unfold update_lr. destruct (negb _); [congruence|].
  destruct (decay_fields p t) as (Hd & Hb & Hc).
  unfold shrink. rewrite Hb.
  destruct (Qltb (lr_shrink p) 1 && Qleb _ m); [|congruence].
  destruct (Qltb m (best_valid_metric t)); [|congruence].
  cbn [decrease_lr logger_info]. rewrite Hd.
  destruct (decrease_lr t); [intros _; repeat split|].
  cbn [log set_decrease_lr logger_info]. rewrite count_msg_snoc.
  change (String.eqb msg_smaller msg_shrinking) with false.
  cbv iota. rewrite Hc. lia.
Qed.

Lemma update_lr_sets_flag (p : Params) (m : Q) (t : Trainer) :
  decrease_lr (update_lr p m t) = true ->
  decrease_lr t = true \/ Qltb m (best_valid_metric t) = true.
Proof.
  unfold update_lr. destruct (negb _); [auto|].
  destruct (decay_fields p t) as (Hd & Hb & _).
  unfold shrink. rewrite Hb.
  destruct (Qltb (lr_shrink p) 1 && Qleb _ m); [|rewrite Hd; auto].
  destruct (Qltb m (best_valid_metric t)); [auto|rewrite Hd; auto].
Qed.

Lemma run_snoc (p : Params) (cs : list call) (c : call) (t : Trainer) :
  run p (cs ++ [c]) t = do_call p c (run p cs t).
Proof. unfold run. rewrite foldl_app. reflexivity. Qed.

(** The flag is set only by a call of [update_lr] that found the metric
    below the best; nothing clears it. *)
Lemma flag_has_a_cause (p : Params) (lr0 : Q) (pre : list call) :
  decrease_lr (run p pre (init lr0)) = true ->
  exists pre1 m1 pre2,
    pre = pre1 ++ UpdateLr m1 :: pre2
    /\ Qltb m1 (best_valid_metric (run p pre1 (init lr0))) = true.
Proof.
  induction pre as [|c pre IH] using rev_ind; [discriminate|].
  rewrite run_snoc. intros Hflag.
  assert (decrease_lr (run p pre (init lr0)) = true
          \/ exists m, c = UpdateLr m
               /\ Qltb m (best_valid_metric (run p pre (init lr0))) = true)
    as [Hbefore|(m & -> & Hm)].
  { destruct c as [m|m]; cbn [do_call] in Hflag.
    - left. rewrite save_best_decrease_lr in Hflag. exact Hflag.
    - apply update_lr_sets_flag in Hflag as [H|H]; [left; exact H|].
      right. exists m. split; [reflexivity|exact H]. }
  - destruct (IH Hbefore) as (pre1 & m1 & pre2 & -> & Hm1).
    exists pre1, m1, (pre2 ++ [c]). split; [|exact Hm1].
    rewrite <- app_assoc. reflexivity.
  - exists pre, m, []. split; [reflexivity|exact Hm].
Qed.

(** C7 (as amended): in a run of checkpoint and learning-rate calls from
    the initial trainer, a call of [update_lr] that applies the extra
    shrink finds the metric below the best, multiplies the rate by
    [lr_shrink], and comes after an earlier call of [update_lr] that also
    found its metric below the best of its time; that earlier call need
    not belong to the epoch just before. *)
Theorem shrink_needs_earlier_decrease
    (p : Params) (lr0 : Q) (pre : list call) (m : Q) :
  count_msg msg_shrinking (log (update_lr p m (run p pre (init lr0))))
    <> count_msg msg_shrinking (log (run p pre (init lr0))) ->
  Qltb m (best_valid_metric (run p pre (init lr0))) = true
  /\ lr (update_lr p m (run p pre (init lr0)))
     = lr (decay p (run p pre (init lr0))) * lr_shrink p
  /\ exists pre1 m1 pre2,
       pre = pre1 ++ UpdateLr m1 :: pre2
       /\ Qltb m1 (best_valid_metric (run p pre1 (init lr0))) = true.
Proof.
  intros Hshrink. apply update_lr_shrinks in Hshrink as (Hflag & Hm & Hlr).
  split; [exact Hm|]. split; [exact Hlr|].
  apply flag_has_a_cause. exact Hflag.
Qed.

Lemma shrink_needs_earlier_decrease_witness :
  Qltb 5 (best_valid_metric (run params_halving calls_5_4_6_5 (init 1))) = true
  /\ lr (update_lr params_halving 5 (run params_halving calls_5_4_6_5 (init 1)))
     = lr (decay params_halving (run params_halving calls_5_4_6_5 (init 1)))
       * lr_shrink params_halving
  /\ exists pre1 m1 pre2,
       calls_5_4_6_5 = pre1 ++ UpdateLr m1 :: pre2
       /\ Qltb m1 (best_valid_metric (run params_halving pre1 (init 1))) = true.
Proof.
  apply (shrink_needs_earlier_decrease params_halving 1 calls_5_4_6_5 5).
  vm_compute. discriminate.
Defined.

(** C7 as stated fails: with metrics 5, 4, 6, 5 the third epoch improves
    on the best (6 against 5, and the rate is left at 1), yet the fourth
    epoch shrinks the rate from 1 to 1/2; and so it is when each epoch
    calls [update_lr] before [save_best]. *)
Lemma shrink_after_improving_epoch :
  (Qltb (best_valid_metric (run params_halving (epoch 5 ++ epoch 4) (init 1))) 6
     = true
   /\ best_valid_metric (run params_halving calls_5_4_6 (init 1)) = 6
   /\ lr (run params_halving (epoch 5 ++ epoch 4) (init 1)) = 1
   /\ lr (run params_halving calls_5_4_6 (init 1)) = 1
   /\ lr (run params_halving (calls_5_4_6 ++ epoch 5) (init 1)) = 1 # 2
   /\ count_msg msg_shrinking
        (log (run params_halving calls_5_4_6 (init 1))) = 0%nat
   /\ count_msg msg_shrinking
        (log (run params_halving (calls_5_4_6 ++ epoch 5) (init 1))) = 1%nat)
  /\ (Qltb (best_valid_metric
              (run params_halving (epoch_lr_first 5 ++ epoch_lr_first 4) (init 1)))
         6 = true
      /\ lr (run params_halving
               (epoch_lr_first 5 ++ epoch_lr_first 4 ++ epoch_lr_first 6) (init 1))
         = 1
      /\ count_msg msg_shrinking
           (log (run params_halving
                   (epoch_lr_first 5 ++ epoch_lr_first 4 ++ epoch_lr_first 6)
                   (init 1))) = 0%nat
      /\ lr (run params_halving
               (epoch_lr_first 5 ++ epoch_lr_first 4 ++ epoch_lr_first 6
                ++ epoch_lr_first 5) (init 1))
         = 1 # 2).
Proof. repeat split; vm_compute; reflexivity. Qed.

End ScheduleSpec.

(** ** The learning rate under [update_lr], on floats *)

Module FloatScheduleSpec.
Import FloatSchedule.








End FloatScheduleSpec.


(** ** More on the candidate selector *)

Module SelectorSpec.
Import DicoBuilder DicoBuilderInputs.

Lemma masked_select_elem (mask : list bool) (pairs : list index_row)
    (x : index_row) :
  x ∈ masked_select mask pairs -> x ∈ pairs.
Proof.
  revert pairs. induction mask as [|b mask IH]; intros pairs Hx.
  - cbn in Hx. apply elem_of_nil in Hx. contradiction.
  - destruct pairs as [|y pairs].
    + cbn in Hx. apply elem_of_nil in Hx. contradiction.
    + unfold masked_select in Hx. cbn [zip zip_with List.filter] in Hx.
      destruct b; cbn [fst map snd] in Hx.
      * apply elem_of_cons in Hx as [->|Hx]; [apply elem_of_cons; left; reflexivity|].
        apply elem_of_cons. right. apply IH. exact Hx.
      * apply elem_of_cons. right. apply IH. exact Hx.
Qed.

Lemma masked_select_length (mask : list bool) (pairs : list index_row) :
  (length (masked_select mask pairs) <= length pairs)%nat.
Proof.
  revert pairs. induction mask as [|b mask IH]; intros pairs; [cbn; lia|].
  destruct pairs as [|y pairs]; [cbn; lia|].
  unfold masked_select. cbn [zip zip_with List.filter].
  specialize (IH pairs). unfold masked_select in IH.
  destruct b; cbn [fst map length]; lia.
Qed.

(** The rows that pass the mask of margins, with their margins. *)
Lemma masked_select_margin (keep : float -> bool)
    (rows : list (score_row * index_row)) (x : index_row) :
  x ∈ masked_select (map keep (margins (map fst rows))) (map snd rows) ->
  exists row, row ∈ rows /\ snd row = x
              /\ keep (sub32 (fst (fst row)) (snd (fst row))) = true.
Proof.
  induction rows as [|r rows IH]; intros Hx.
  - cbn in Hx. apply elem_of_nil in Hx. contradiction.
  - unfold masked_select, margins in *.
    cbn [map zip zip_with List.filter] in Hx.
    destruct (keep (sub32 (fst (fst r)) (snd (fst r)))) eqn:Hk;
      cbn [fst map snd] in Hx.
    + apply elem_of_cons in Hx as [->|Hx].
      * exists r. split; [apply elem_of_cons; left; reflexivity|].
        split; [reflexivity|exact Hk].
      * destruct (IH Hx) as (row & Hin & Hs & Hkeep). exists row.
        split; [apply elem_of_cons; right; exact Hin|]. split; assumption.
    + destruct (IH Hx) as (row & Hin & Hs & Hkeep). exists row.
      split; [apply elem_of_cons; right; exact Hin|]. split; assumption.
Qed.

(** [t[idx]], position by position. *)
Lemma index_rows_lookup {S A} (t : list A) (idx : list nat) (s s' : S)
    (rows : list A) :
  index_rows t idx s = (Ok rows, s') ->
  forall (j : nat) (a : A), rows !! j = Some a ->
    exists i, idx !! j = Some i /\ t !! i = Some a.
Proof.
  unfold index_rows. destruct (mapM _ idx) as [rows'|] eqn:Hm; [|discriminate].
  intros [= <- <-] j a Hj. apply mapM_Some in Hm.
  destruct (Forall2_lookup_r _ _ _ _ _ Hm Hj) as (i & Hi & Ht).
  exists i. split; assumption.
Qed.

Lemma index_rows_elem {S A} (t : list A) (idx : list nat) (s s' : S)
    (rows : list A) :
  index_rows t idx s = (Ok rows, s') ->
  s' = s /\ length rows = length idx /\ forall x, x ∈ rows -> x ∈ t.
Proof.
  unfold index_rows. destruct (mapM _ idx) as [rows'|] eqn:Hm; [|discriminate].
  intros [= <- <-]. split; [reflexivity|].
  apply mapM_Some in Hm. split.
  - symmetry. eapply Forall2_length. exact Hm.
  - intros x Hx. apply list_elem_of_lookup in Hx as [i Hi].
    destruct (Forall2_lookup_r _ _ _ _ _ Hm Hi) as (j & _ & Hj).
    apply list_elem_of_lookup. exists j. exact Hj.
Qed.

Lemma threshold_filter_run (p : Params) (diff : list float)
    (pairs : list index_row) (log : list log_record) :
  exists res log',
    threshold_filter p diff pairs log = (Ok res, log')
    /\ (res = pairs \/ res = masked_select (map (above p) diff) pairs).
Proof.
  unfold threshold_filter. destruct (PrimFloat.ltb 0 (dico_threshold p)).
  - eexists _, _. split; [reflexivity|]. right. reflexivity.
  - eexists _, _. split; [reflexivity|]. left. reflexivity.
Qed.

Lemma size_cap_elem (p : Params) (rows : list (score_row * index_row)) row :
  row ∈ size_cap p rows -> row ∈ rows.
Proof.
  unfold size_cap. destruct (0 <? dico_max_size p); [|auto].
  intros H. apply list_elem_of_lookup in H as [i Hi].
  apply lookup_take_Some in Hi as [Hi _].
  apply list_elem_of_lookup. exists i. exact Hi.
Qed.

Lemma rank_filter_elem (p : Params) (rows : list (score_row * index_row)) row :
  row ∈ rank_filter p rows ->
  row ∈ rows /\ (0 < dico_max_rank p -> rank_keep p row = true).
Proof.
  unfold rank_filter. destruct (Z.ltb_spec 0 (dico_max_rank p)) as [Hr|Hr].
  - intros H. apply list_elem_of_In, List.filter_In in H as [Hin Hk].
    split; [apply list_elem_of_In; exact Hin|]. intros _. exact Hk.
  - intros H. split; [exact H|]. lia.
Qed.

(** What [select_candidates] returns, step by step. *)
Lemma select_candidates_inv (argsort_desc : list float -> list nat)
    (p : Params) (n_src : Z) (all_scores : list score_row)
    (all_targets : list index_row) (log log' : list log_record)
    (res : list index_row) :
  select_candidates argsort_desc p n_src all_scores all_targets log
    = (Ok res, log') ->
  exists scores' pairs',
    (forall x, x ∈ pairs' -> x ∈ make_pairs all_targets)
    /\ let rows := size_cap p (rank_filter p (zip scores' pairs')) in
       res = map snd rows
       \/ res = masked_select
                  (map (above p) (min_size_override p (margins (map fst rows))))
                  (map snd rows).
Proof.
  intros Hrun. unfold select_candidates in Hrun. rewrite run_bind in Hrun.
  destruct (_ && _); cbn [py_assert ret raise] in Hrun; [|discriminate].
  rewrite run_bind in Hrun. unfold sort_by_confidence in Hrun.
  rewrite run_bind in Hrun.
  destruct (index_rows all_scores _ log) as [[scores'|e] s1] eqn:Hs;
    [|discriminate].
  apply index_rows_elem in Hs as (-> & _ & _).
  rewrite run_bind in Hrun.
  destruct (index_rows (make_pairs all_targets) _ log) as [[pairs'|e] s1] eqn:Hp;
    [|discriminate].
  apply index_rows_elem in Hp as (-> & _ & Hin).
  cbn [ret] in Hrun. exists scores', pairs'. split; [exact Hin|].
  unfold cap_and_threshold in Hrun.
  destruct (threshold_filter_run p
              (min_size_override p
                 (margins (map fst (size_cap p (rank_filter p (zip scores' pairs'))))))
              (map snd (size_cap p (rank_filter p (zip scores' pairs')))) log)
    as (res0 & log0 & Hrun0 & Hres).
  rewrite Hrun0 in Hrun. injection Hrun as <- _. exact Hres.
Qed.

Lemma zip_snd_elem {A B} (l1 : list A) (l2 : list B) (x : A * B) :
  x ∈ zip l1 l2 -> snd x ∈ l2.
Proof.
  revert l2. induction l1 as [|a l1 IH]; intros l2 Hx.
  - cbn in Hx. apply elem_of_nil in Hx. contradiction.
  - destruct l2 as [|b l2]; [cbn in Hx; apply elem_of_nil in Hx; contradiction|].
    cbn in Hx. apply elem_of_cons in Hx as [->|Hx].
    + apply elem_of_cons. left. reflexivity.
    + apply elem_of_cons. right. apply IH. exact Hx.
Qed.

(** X1: whatever order the sort returns, every pair the selector returns
    is a candidate pair -- a query index with the best target of that
    query -- and, when [dico_max_rank] is positive, neither index of the
    pair exceeds it. *)
Theorem selected_pairs_are_candidates
    (argsort_desc : list float -> list nat) (p : Params) (n_src : Z)
    (all_scores : list score_row) (all_targets : list index_row)
    (log log' : list log_record) (res : list index_row) (x : index_row) :
  select_candidates argsort_desc p n_src all_scores all_targets log
    = (Ok res, log') ->
  x ∈ res ->
  (exists (i : nat) (t : index_row),
     all_targets !! i = Some t /\ x = (Z.of_nat i, fst t))
  /\ (0 < dico_max_rank p ->
      fst x <= dico_max_rank p /\ snd x <= dico_max_rank p).
Proof.
  intros Hrun Hx.
  apply select_candidates_inv in Hrun as (scores' & pairs' & Hin & Hres).
  cbv zeta in Hres.
  assert (exists row, row ∈ rank_filter p (zip scores' pairs') /\ snd row = x)
    as (row & Hrow & <-).
  { assert (x ∈ map snd (size_cap p (rank_filter p (zip scores' pairs')))) as Hm.
    { destruct Hres as [->| ->]; [exact Hx|].
      eapply masked_select_elem. exact Hx. }
    apply list_elem_of_In, List.in_map_iff in Hm as (row & Hs & Hr).
    exists row. split; [|exact Hs].
    apply size_cap_elem with (p := p). apply list_elem_of_In. exact Hr. }
  apply rank_filter_elem in Hrow as [Hrow Hrank]. split.
  - apply zip_snd_elem, Hin in Hrow. unfold make_pairs in Hrow.
    apply elem_of_lookup_imap in Hrow as (i & t & Heq & Ht).
    exists i, t. split; [exact Ht|exact Heq].
  - intros Hr. specialize (Hrank Hr). unfold rank_keep in Hrank.
    apply Z.leb_le in Hrank. lia.
Qed.

Lemma selected_pairs_are_candidates_witness :
  (exists (i : nat) (t : index_row),
     targets3 !! i = Some t /\ (0, 7) = (Z.of_nat i, fst t))
  /\ (0 < dico_max_rank (params_ranked 8) ->
      fst (0, 7) <= dico_max_rank (params_ranked 8)
      /\ snd (0, 7) <= dico_max_rank (params_ranked 8)).
Proof.
  apply (selected_pairs_are_candidates insertion_argsort (params_ranked 8) 3
           scores3 targets3 [] [] [(0, 7); (1, 8)] (0, 7)).
  - vm_compute. reflexivity.
  - apply elem_of_cons. left. reflexivity.
Defined.

(** X2: when [dico_max_size] is positive the selector returns at most
    that many pairs, whatever the floor and the threshold. *)
Theorem selected_pairs_within_max_size
    (argsort_desc : list float -> list nat) (p : Params) (n_src : Z)
    (all_scores : list score_row) (all_targets : list index_row)
    (log log' : list log_record) (res : list index_row) :
  0 < dico_max_size p ->
  select_candidates argsort_desc p n_src all_scores all_targets log
    = (Ok res, log') ->
  Z.of_nat (length res) <= dico_max_size p.
Proof.
  intros Hmax Hrun.
  apply select_candidates_inv in Hrun as (scores' & pairs' & _ & Hres).
  cbv zeta in Hres.
  assert (length res
          <= length (size_cap p (rank_filter p (zip scores' pairs'))))%nat as Hle.
  { destruct Hres as [->| ->].
    - rewrite length_map. lia.
    - etransitivity; [apply masked_select_length|]. rewrite length_map. lia. }
  unfold size_cap in Hle.
  destruct (Z.ltb_spec 0 (dico_max_size p)) as [_|]; [|lia].
  rewrite length_take in Hle. lia.
Qed.

Lemma selected_pairs_within_max_size_witness :
  Z.of_nat (length [(0, 7); (1, 8)]) <= dico_max_size (params_sized 0.5).
Proof.
  apply (selected_pairs_within_max_size insertion_argsort (params_sized 0.5) 3
           scores3 targets3 []
           [(INFO, "Selected %i / %i pairs above the confidence threshold."%string)]
           [(0, 7); (1, 8)]).
  - reflexivity.
  - vm_compute. reflexivity.
Defined.

(** X3: with a positive threshold and no floor ([dico_min_size] not
    positive), every pair the selector returns is the pair of a query
    whose margin, top score minus second score, is above the threshold:
    the pair is the query's index with the query's best target, and the
    margin is that of the same query.  Margin and threshold are compared
    in single precision, as the score tensor is. *)
Theorem selected_pairs_above_threshold
    (argsort_desc : list float -> list nat) (p : Params) (n_src : Z)
    (all_scores : list score_row) (all_targets : list index_row)
    (log log' : list log_record) (res : list index_row) (x : index_row) :
  PrimFloat.ltb 0 (dico_threshold p) = true ->
  dico_min_size p <= 0 ->
  select_candidates argsort_desc p n_src all_scores all_targets log
    = (Ok res, log') ->
  x ∈ res ->
  exists (i : nat) (s : score_row) (t : index_row),
    all_scores !! i = Some s
    /\ all_targets !! i = Some t
    /\ x = (Z.of_nat i, fst t)
    /\ PrimFloat.ltb (float32 (dico_threshold p)) (sub32 (fst s) (snd s))
       = true.
Proof.
  intros Hthr Hmin Hrun Hx.
  unfold select_candidates in Hrun. rewrite run_bind in Hrun.
  destruct (_ && _); cbn [py_assert ret raise] in Hrun; [|discriminate].
  rewrite run_bind in Hrun. unfold sort_by_confidence in Hrun.
  rewrite run_bind in Hrun.
  destruct (index_rows all_scores _ log) as [[scores'|e] s1] eqn:Hs;
    [|discriminate].
  pose proof (index_rows_lookup _ _ _ _ _ Hs) as Hscores.
  apply index_rows_elem in Hs as (-> & _ & _).
  rewrite run_bind in Hrun.
  destruct (index_rows (make_pairs all_targets) _ log) as [[pairs'|e] s1] eqn:Hp;
    [|discriminate].
  pose proof (index_rows_lookup _ _ _ _ _ Hp) as Hpairs.
  apply index_rows_elem in Hp as (-> & _ & _).
  cbn [ret] in Hrun. unfold cap_and_threshold, threshold_filter in Hrun.
  rewrite Hthr in Hrun. unfold min_size_override in Hrun.
  destruct (Z.ltb_spec 0 (dico_min_size p)) as [|_]; [lia|].
  rewrite run_bind in Hrun. cbn in Hrun. injection Hrun as <- _.
  apply masked_select_margin in Hx as (row & Hrow & <- & Hkeep).
  apply size_cap_elem, rank_filter_elem in Hrow as [Hrow _].
  apply list_elem_of_lookup in Hrow as [j Hj].
  apply lookup_zip_with_Some in Hj as (s & pr & -> & Hsj & Hpj).
  destruct (Hscores j s Hsj) as (i & Hi & Hsi).
  destruct (Hpairs j pr Hpj) as (i' & Hi' & Hpi).
  assert (i' = i) as -> by congruence.
  unfold make_pairs in Hpi. rewrite list_lookup_imap in Hpi.
  destruct (all_targets !! i) as [t|] eqn:Ht; [|discriminate].
  cbn in Hpi. injection Hpi as <-.
  exists i, s, t. split; [exact Hsi|]. split; [exact Ht|].
  split; [reflexivity|exact Hkeep].
Qed.

Lemma selected_pairs_above_threshold_witness :
  exists (i : nat) (s : score_row) (t : index_row),
    scores3 !! i = Some s
    /\ targets3 !! i = Some t
    /\ (0, 7) = (Z.of_nat i, fst t)
    /\ PrimFloat.ltb (float32 (dico_threshold params_thresholded))
         (sub32 (fst s) (snd s)) = true.
Proof.
  apply (selected_pairs_above_threshold insertion_argsort params_thresholded 3
           scores3 targets3 []
           [(INFO, "Selected %i / %i pairs above the confidence threshold."%string)]
           [(0, 7)] (0, 7)).
  - reflexivity.
  - vm_compute. discriminate.
  - vm_compute. reflexivity.
  - apply elem_of_cons. left. reflexivity.
Defined.

End SelectorSpec.

(** ** More on the build policies *)

Module PolicySpec.
Import DicoBuilder DicoBuilderInputs.

Section Builder.

Variable argsort_desc : list float -> list nat.
Variable Emb : Type.
Variable size0 : Emb -> Z.
Variable scorer : Emb -> Emb -> Params -> Z
                  -> result (list score_row * list index_row).

Abbreviation prepare_candidates :=
  (prepare_candidates argsort_desc Emb size0 scorer).
Abbreviation build_pairwise_dictionary :=
  (build_pairwise_dictionary argsort_desc Emb size0 scorer).

Lemma run_build (src_emb tgt_emb : Emb) (p : Params)
    (s2t t2s : option (list index_row)) (log log1 : list log_record) c :
  prepare_candidates src_emb tgt_emb p s2t t2s (log ++ building)
    = (Ok c, log1) ->
  build_pairwise_dictionary src_emb tgt_emb p s2t t2s log
  = apply_policy p (fst c) (snd c) log1.
Proof.
  intros Hprep. unfold DicoBuilder.build_pairwise_dictionary.
  rewrite run_bind. unfold logger at 1. cbn [modify].
  fold building. rewrite (run_bind_ok _ _ _ _ _ Hprep). reflexivity.
Qed.

(** X4: under the policy [S2T] the builder hands back the source-to-target
    candidates it is given, in their order; it never answers [None], and
    what is passed for the other direction plays no part. *)
Theorem policy_S2T_returns_candidates
    (src_emb tgt_emb : Emb) (p : Params) (a : list index_row)
    (t2s : option (list index_row)) (log : list log_record) :
  dico_build p = "S2T"%string ->
  build_pairwise_dictionary src_emb tgt_emb p (Some a) t2s log
  = (Ok (Some a), log ++ building ++ built).
Proof.
  intros Hb.
  assert (prepare_candidates src_emb tgt_emb p (Some a) t2s (log ++ building)
          = (Ok (Some a, t2s), log ++ building)) as Hprep.
  { unfold DicoBuilder.prepare_candidates. rewrite Hb.
    change (str_in "S2T" "S2T") with true. change (str_in "T2S" "S2T") with false.
    reflexivity. }
  rewrite (run_build _ _ _ _ _ _ _ _ Hprep). cbn [fst snd].
  unfold apply_policy. rewrite Hb.
  change (String.eqb "S2T" "S2T") with true.
  rewrite run_bind. cbn [ret len_checked]. rewrite run_bind.
  unfold logger. cbn [modify ret]. unfold built.
  rewrite run_bind. cbn [modify ret]. rewrite <- (app_assoc log). reflexivity.
Qed.

Lemma elem_of_swap_columns (x : index_row) (b : list index_row) :
  x ∈ swap_columns b <-> (snd x, fst x) ∈ b.
Proof.
  unfold swap_columns. rewrite !list_elem_of_In, List.in_map_iff. split.
  - intros ([u v] & <- & Hin). exact Hin.
  - intros Hin. exists (snd x, fst x). split; [destruct x; reflexivity|exact Hin].
Qed.

(** The two set policies on candidates that are there. *)
Lemma apply_policy_union (p : Params) (a b : list index_row)
    (log : list log_record) :
  dico_build p = "S2T|T2S"%string ->
  apply_policy p (Some a) (Some b) log
  = (Ok (Some (elements (pair_set a ∪ pair_set b))), log ++ built).
Proof. intros Hb. unfold apply_policy. rewrite Hb. reflexivity. Qed.

Lemma prepare_both (src_emb tgt_emb : Emb) (p : Params)
    (a b : list index_row) (log : list log_record) :
  str_in "S2T" (dico_build p) = true ->
  str_in "T2S" (dico_build p) = true ->
  prepare_candidates src_emb tgt_emb p (Some a) (Some b) log
  = (Ok (Some a, Some (swap_columns b)), log).
Proof.
  intros Hs Ht. unfold DicoBuilder.prepare_candidates. rewrite Hs, Ht.
  reflexivity.
Qed.

(** X5: under the union policy the dictionary built from given candidates
    lists every pair once, and a pair is in it exactly when it is a
    source-to-target candidate or a target-to-source candidate with its
    columns exchanged; the answer is a dictionary even when there is no
    pair at all. *)
Theorem policy_union_members
    (src_emb tgt_emb : Emb) (p : Params) (a b : list index_row)
    (log : list log_record) :
  dico_build p = "S2T|T2S"%string ->
  exists d,
    build_pairwise_dictionary src_emb tgt_emb p (Some a) (Some b) log
      = (Ok (Some d), log ++ building ++ built)
    /\ NoDup d
    /\ forall x, x ∈ d <-> x ∈ a \/ (snd x, fst x) ∈ b.
Proof.
  intros Hb. exists (elements (pair_set a ∪ pair_set (swap_columns b))).
  split; [|split].
  - rewrite (run_build _ _ _ _ _ _ _ _
               (prepare_both src_emb tgt_emb p a b (log ++ building)
                  ltac:(rewrite Hb; reflexivity) ltac:(rewrite Hb; reflexivity))).
    cbn [fst snd]. rewrite (apply_policy_union _ _ _ _ Hb).
    rewrite <- (app_assoc log). reflexivity.
  - apply NoDup_elements.
  - intros x. rewrite elem_of_elements, elem_of_union.
    unfold pair_set. rewrite !elem_of_list_to_set, elem_of_swap_columns.
    reflexivity.
Qed.

(** X6: under the intersection policy, when some pair is common to the
    two directions, the dictionary lists every pair once, and a pair is in
    it exactly when it is a source-to-target candidate and, columns
    exchanged, a target-to-source candidate. *)
Theorem policy_intersection_members
    (src_emb tgt_emb : Emb) (p : Params) (a b : list index_row)
    (log : list log_record) (x0 : index_row) :
  dico_build p = "S2T&T2S"%string ->
  x0 ∈ a -> (snd x0, fst x0) ∈ b ->
  exists d,
    build_pairwise_dictionary src_emb tgt_emb p (Some a) (Some b) log
      = (Ok (Some d), log ++ building ++ built)
    /\ NoDup d
    /\ forall x, x ∈ d <-> x ∈ a /\ (snd x, fst x) ∈ b.
Proof.
  intros Hb Ha0 Hb0.
  assert (forall x, x ∈ pair_set a ∩ pair_set (swap_columns b)
                    <-> x ∈ a /\ (snd x, fst x) ∈ b) as Hmem.
  { intros x. rewrite elem_of_intersection. unfold pair_set.
    rewrite !elem_of_list_to_set, elem_of_swap_columns. reflexivity. }
  exists (elements (pair_set a ∩ pair_set (swap_columns b))).
  split; [|split].
  - rewrite (run_build _ _ _ _ _ _ _ _
               (prepare_both src_emb tgt_emb p a b (log ++ building)
                  ltac:(rewrite Hb; reflexivity) ltac:(rewrite Hb; reflexivity))).
    cbn [fst snd].
    rewrite (DicoBuilderSpec.apply_policy_intersection p a (swap_columns b) _ Hb).
    destruct (decide _) as [Hz|_].
    + exfalso. apply size_empty_inv in Hz.
      assert (x0 ∈ pair_set a ∩ pair_set (swap_columns b)) as Hin
        by (apply Hmem; split; assumption).
      rewrite (Hz x0) in Hin. apply elem_of_empty in Hin. exact Hin.
    + rewrite <- (app_assoc log). reflexivity.
  - apply NoDup_elements.
  - intros x. rewrite elem_of_elements. apply Hmem.
Qed.

Lemma or_compute_Some {S} (c : option (list index_row))
    (compute : Py S (list index_row)) (s s' : S) r :
  or_compute c compute s = (Ok r, s') -> exists t, r = Some t.
Proof.
  destruct c as [t|]; cbn [or_compute].
  - intros [= <- _]. exists t. reflexivity.
  - rewrite run_bind. destruct (compute s) as [[t|e] s1]; [|discriminate].
    intros [= <- _]. exists t. reflexivity.
Qed.

(** When both directions take part, the candidates of both are there once
    they are prepared. *)
Lemma prepare_both_Some (src_emb tgt_emb : Emb) (p : Params)
    (s2t t2s : option (list index_row)) (log log1 : list log_record) c :
  str_in "S2T" (dico_build p) = true ->
  str_in "T2S" (dico_build p) = true ->
  prepare_candidates src_emb tgt_emb p s2t t2s log = (Ok c, log1) ->
  exists a' b', c = (Some a', Some b').
Proof.
  intros Hs Ht. unfold DicoBuilder.prepare_candidates. rewrite Hs, Ht.
  cbn [orb py_assert]. rewrite run_bind. cbn [ret]. rewrite run_bind.
  destruct (or_compute s2t _ log) as [[r1|e] l1] eqn:H1; [|discriminate].
  apply or_compute_Some in H1 as [a' ->].
  rewrite run_bind. rewrite run_bind.
  destruct (or_compute t2s _ l1) as [[r2|e] l2] eqn:H2; [|discriminate].
  apply or_compute_Some in H2 as [b' ->].
  cbn [ret fmap option_fmap option_map]. intros [= <- _].
  exists a', (swap_columns b'). reflexivity.
Qed.

(** The policy on candidates that are there, when it is not a known one. *)
Lemma apply_policy_unknown (p : Params) (a b : list index_row)
    (log : list log_record) :
  str_in "S2T" (dico_build p) = true ->
  str_in "T2S" (dico_build p) = true ->
  dico_build p <> "S2T|T2S"%string ->
  dico_build p <> "S2T&T2S"%string ->
  apply_policy p (Some a) (Some b) log = (Raise AssertionError, log).
Proof.
  intros Hs Ht Hu Hi. unfold apply_policy.
  destruct (String.eqb_spec (dico_build p) "S2T") as [He|_].
  { rewrite He in Ht. discriminate Ht. }
  destruct (String.eqb_spec (dico_build p) "T2S") as [He|_].
  { rewrite He in Hs. discriminate Hs. }
  rewrite run_bind. cbn [numpy_of ret]. rewrite run_bind. cbn [numpy_of ret].
  destruct (String.eqb_spec (dico_build p) "S2T|T2S") as [He|_];
    [contradiction|].
  rewrite run_bind.
  destruct (String.eqb_spec (dico_build p) "S2T&T2S") as [He|_];
    [contradiction|].
  reflexivity.
Qed.

(** X7: a [dico_build] that names neither direction fails the first
    assertion, before any candidate is searched, with only the first log
    line written.  One that names both directions without being a known
    policy never returns: whatever candidates are passed, either their
    preparation (the searches for those that are missing) raises, and
    the builder raises the same with the same log, or it ends with the
    candidates of both directions and the second assertion fails, the
    log being that of the preparation; when both candidate lists are
    passed in, that is the first log line alone. *)
Theorem unknown_policy_fails_assertion
    (src_emb tgt_emb : Emb) (p : Params) (a b : list index_row)
    (s2t t2s : option (list index_row)) (log : list log_record) :
  (str_in "S2T" (dico_build p) = false ->
   str_in "T2S" (dico_build p) = false ->
   build_pairwise_dictionary src_emb tgt_emb p s2t t2s log
   = (Raise AssertionError, log ++ building))
  /\ (str_in "S2T" (dico_build p) = true ->
      str_in "T2S" (dico_build p) = true ->
      dico_build p <> "S2T|T2S"%string ->
      dico_build p <> "S2T&T2S"%string ->
      ((exists e log1,
          prepare_candidates src_emb tgt_emb p s2t t2s (log ++ building)
            = (Raise e, log1)
          /\ build_pairwise_dictionary src_emb tgt_emb p s2t t2s log
             = (Raise e, log1))
       \/ (exists a' b' log1,
             prepare_candidates src_emb tgt_emb p s2t t2s (log ++ building)
               = (Ok (Some a', Some b'), log1)
             /\ build_pairwise_dictionary src_emb tgt_emb p s2t t2s log
                = (Raise AssertionError, log1)))
      /\ build_pairwise_dictionary src_emb tgt_emb p (Some a) (Some b) log
         = (Raise AssertionError, log ++ building)).
Proof.
  split.
  - intros Hs Ht. unfold DicoBuilder.build_pairwise_dictionary.
    rewrite run_bind. unfold logger at 1. cbn [modify]. fold building.
    rewrite run_bind. unfold DicoBuilder.prepare_candidates.
    rewrite Hs, Ht. reflexivity.
  - intros Hs Ht Hu Hi. split.
    + destruct (prepare_candidates src_emb tgt_emb p s2t t2s (log ++ building))
        as [[c|e] log1] eqn:Hprep.
      * right.
        destruct (prepare_both_Some _ _ _ _ _ _ _ _ Hs Ht Hprep)
          as (a' & b' & ->).
        exists a', b', log1. split; [reflexivity|].
        rewrite (run_build _ _ _ _ _ _ _ _ Hprep). cbn [fst snd].
        apply apply_policy_unknown; assumption.
      * left. exists e, log1. split; [reflexivity|].
        unfold DicoBuilder.build_pairwise_dictionary.
        rewrite run_bind. unfold logger at 1. cbn [modify]. fold building.
        rewrite (run_bind_raise _ _ _ _ _ Hprep). reflexivity.
    + rewrite (run_build _ _ _ _ _ _ _ _
                 (prepare_both src_emb tgt_emb p a b (log ++ building) Hs Ht)).
      cbn [fst snd]. apply apply_policy_unknown; assumption.
Qed.

End Builder.

Abbreviation table_build :=
  (DicoBuilder.build_pairwise_dictionary insertion_argsort table_emb
     table_size0 table_scorer ([], []) emb1).

Lemma policy_S2T_returns_candidates_witness :
  table_build (params_policy "S2T") (Some [(0, 1); (1, 0)]) None []
  = (Ok (Some [(0, 1); (1, 0)]), [] ++ building ++ built).
Proof.
  apply (policy_S2T_returns_candidates insertion_argsort table_emb table_size0
           table_scorer ([], []) emb1 (params_policy "S2T")).
  reflexivity.
Defined.

Lemma policy_union_members_witness :
  exists d,
    table_build (params_policy "S2T|T2S") (Some [(0, 1); (2, 3)])
      (Some [(1, 0); (5, 4)]) []
      = (Ok (Some d), [] ++ building ++ built)
    /\ NoDup d
    /\ forall x, x ∈ d <-> x ∈ [(0, 1); (2, 3)] \/ (snd x, fst x) ∈ [(1, 0); (5, 4)].
Proof.
  apply (policy_union_members insertion_argsort table_emb table_size0
           table_scorer ([], []) emb1 (params_policy "S2T|T2S")).
  reflexivity.
Defined.

Lemma policy_intersection_members_witness :
  exists d,
    table_build (params_policy "S2T&T2S") (Some [(0, 1); (2, 3)])
      (Some [(1, 0); (5, 4)]) []
      = (Ok (Some d), [] ++ building ++ built)
    /\ NoDup d
    /\ forall x, x ∈ d <-> x ∈ [(0, 1); (2, 3)] /\ (snd x, fst x) ∈ [(1, 0); (5, 4)].
Proof.
  apply (policy_intersection_members insertion_argsort table_emb table_size0
           table_scorer ([], []) emb1 (params_policy "S2T&T2S")
           [(0, 1); (2, 3)] [(1, 0); (5, 4)] [] (0, 1)).
  - reflexivity.
  - apply elem_of_cons. left. reflexivity.
  - apply elem_of_cons. left. reflexivity.
Defined.

(** With the policy [T2S|S2T], no candidates passed and a positive
    threshold, both searches log their line before the assertion fails. *)
Lemma unknown_policy_fails_assertion_witness :
  table_build (params_policy "both") None None []
    = (Raise AssertionError, [] ++ building)
  /\ (((exists e log1,
         DicoBuilder.prepare_candidates insertion_argsort table_emb
           table_size0 table_scorer ([], []) emb1 params_unknown None None
           ([] ++ building) = (Raise e, log1)
         /\ table_build params_unknown None None [] = (Raise e, log1))
      \/ (exists a' b' log1,
            DicoBuilder.prepare_candidates insertion_argsort table_emb
              table_size0 table_scorer ([], []) emb1 params_unknown None None
              ([] ++ building) = (Ok (Some a', Some b'), log1)
            /\ table_build params_unknown None None []
               = (Raise AssertionError, log1)))
     /\ table_build params_unknown (Some [(0, 1)]) (Some [(1, 0)]) []
        = (Raise AssertionError, [] ++ building)).
Proof.
  split.
  - destruct (unknown_policy_fails_assertion insertion_argsort table_emb
                table_size0 table_scorer ([], []) emb1 (params_policy "both")
                [] [] None None []) as [H _].
    apply H; reflexivity.
  - destruct (unknown_policy_fails_assertion insertion_argsort table_emb
                table_size0 table_scorer ([], []) emb1
                params_unknown [(0, 1)] [(1, 0)] None None [])
      as [_ H].
    apply H; try reflexivity; discriminate.
Defined.

(** The run of that example: two searches, two log lines, then the
    assertion. *)
Lemma unknown_policy_searches_first :
  table_build params_unknown None None []
  = (Raise AssertionError,
     building
     ++ [(INFO, "Selected %i / %i pairs above the confidence threshold."%string);
         (INFO, "Selected %i / %i pairs above the confidence threshold."%string)]).
Proof. vm_compute. reflexivity. Qed.

End PolicySpec.

(** ** Properties of the multilingual dictionary *)

Module CrossMatchSpec.
Import DicoBuilder CrossMatch.

Lemma in_sources_find (x : Z) (t : table) :
  in_sources x t = true ->
  exists r, List.find (fun r => fst r =? x) t = Some r /\ fst r = x /\ r ∈ t.
Proof.
  unfold in_sources. intros H.
  destruct (List.find (fun r => fst r =? x) t) as [r|] eqn:Hf.
  - exists r. split; [reflexivity|]. apply List.find_some in Hf as [Hin Hx].
    split; [apply Z.eqb_eq; exact Hx|apply list_elem_of_In; exact Hin].
  - apply List.existsb_exists in H as (r & Hin & Hx).
    pose proof (List.find_none _ _ Hf r Hin) as Hn. cbv beta in Hn. congruence.
Qed.

Lemma in_sources_elem (r : index_row) (t : table) :
  r ∈ t -> in_sources (fst r) t = true.
Proof.
  intros Hin. unfold in_sources. apply List.existsb_exists.
  exists r. split; [apply list_elem_of_In; exact Hin|apply Z.eqb_refl].
Qed.

Lemma table_of_run {S} (d : tables) (lang : string) (t : table) (s : S) :
  d !! lang = Some (Some t) -> table_of d lang s = (Ok t, s).
Proof. intros H. unfold table_of. rewrite H. reflexivity. Qed.

Lemma run_bind_inv {S A B} (m : Py S A) (f : A -> Py S B) (s s' : S) (r : B) :
  (m ≫= f) s = (Ok r, s') ->
  exists a s1, m s = (Ok a, s1) /\ f a s1 = (Ok r, s').
Proof.
  rewrite run_bind. destruct (m s) as [[a|e] s1]; [|discriminate].
  intros H. exists a, s1. split; [reflexivity|exact H].
Qed.

Lemma mapM_length {S A B} (f : A -> Py S B) (l : list A) (s s' : S)
    (ys : list B) :
  mapM f l s = (Ok ys, s') -> length ys = length l.
Proof.
  revert s s' ys. induction l as [|x l IH]; intros s s' ys H.
  - rewrite run_mapM_nil in H. injection H as <- _. reflexivity.
  - rewrite run_mapM_cons in H. destruct (f x s) as [[y|e] s1]; [|discriminate].
    destruct (mapM f l s1) as [[k|e] s2] eqn:E; [|discriminate].
    injection H as <- _. cbn [length]. f_equal. exact (IH _ _ _ E).
Qed.

Lemma for_each_inv {S A B} (P : B -> Prop) (body : A -> B -> Py S B)
    (l : list A) :
  (forall x acc s acc' s', x ∈ l -> body x acc s = (Ok acc', s') ->
                           P acc -> P acc') ->
  forall acc s r s', P acc -> for_each l body acc s = (Ok r, s') -> P r.
Proof.
  induction l as [|x l IH]; intros Hbody acc s r s' Hacc Hrun.
  - cbn in Hrun. injection Hrun as <- _. exact Hacc.
  - cbn [for_each] in Hrun.
    apply run_bind_inv in Hrun as (acc1 & s1 & Hx & Hrest).
    apply (IH (fun y a t a' t' Hy => Hbody y a t a' t'
                 (proj2 (elem_of_cons l y x) (or_intror Hy)))
              acc1 s1 r s'); [|exact Hrest].
    apply (Hbody x acc s acc1 s1); [apply elem_of_cons; left; reflexivity| |];
      assumption.
Qed.

Section Matcher.

Variable tgt_lang : list string.

Abbreviation match_row := (match_row tgt_lang).
Abbreviation cross_match_dictionary := (cross_match_dictionary tgt_lang).

Implicit Types (dico : tables) (lang_list : list string).

(** The membership tests of one row. *)
Lemma found_run dico lang_list (x : Z) (s : list log_record) :
  all_present dico lang_list ->
  exists found,
    mapM (M := Py (list log_record))
      (fun lang => t ← table_of dico lang; ret (in_sources x t)) lang_list s
    = (Ok found, s)
    /\ (forallb (fun b : bool => b) found = true
        <-> known_everywhere dico lang_list x).
Proof.
  induction lang_list as [|lang ls IH]; intros Hall.
  - exists []. split; [reflexivity|]. split; [|reflexivity].
    intros _ lang t Hin. apply elem_of_nil in Hin. contradiction.
  - destruct (Hall lang) as [t Ht]; [apply elem_of_cons; left; reflexivity|].
    destruct IH as (found & Hrun & Hiff).
    { intros l Hl. apply Hall. apply elem_of_cons. right. exact Hl. }
    exists (in_sources x t :: found). split.
    + rewrite run_mapM_cons, run_bind, (table_of_run _ _ _ _ Ht). cbn [ret].
      rewrite Hrun. reflexivity.
    + cbn [forallb]. rewrite andb_true_iff, Hiff. split.
      * intros [Hx Hk] l t' Hl Ht'. apply elem_of_cons in Hl as [->|Hl].
        -- congruence.
        -- eapply Hk; eassumption.
      * intros Hk. split.
        -- apply (Hk lang t); [apply elem_of_cons; left; reflexivity|exact Ht].
        -- intros l t' Hl Ht'. apply (Hk l t'); [|exact Ht'].
           apply elem_of_cons. right. exact Hl.
Qed.

(** The targets of one row that every table knows. *)
Lemma targets_run dico lang_list (x : Z) (s : list log_record) :
  all_present dico lang_list ->
  known_everywhere dico lang_list x ->
  exists targets,
    mapM (M := Py (list log_record))
      (fun lang => t ← table_of dico lang;
                   r ← first_with_source x t;
                   ret (snd r)) lang_list s
    = (Ok targets, s)
    /\ Forall2 (fun lang y => exists t, dico !! lang = Some (Some t)
                                        /\ first_target t x = Some y)
               lang_list targets.
Proof.
  induction lang_list as [|lang ls IH]; intros Hall Hk.
  - exists []. split; [reflexivity|constructor].
  - destruct (Hall lang) as [t Ht]; [apply elem_of_cons; left; reflexivity|].
    destruct IH as (targets & Hrun & Hf).
    { intros l Hl. apply Hall. apply elem_of_cons. right. exact Hl. }
    { intros l t' Hl Ht'. apply (Hk l t'); [|exact Ht'].
      apply elem_of_cons. right. exact Hl. }
    assert (in_sources x t = true) as Hx
      by (apply (Hk lang t); [apply elem_of_cons; left; reflexivity|exact Ht]).
    destruct (in_sources_find _ _ Hx) as (r & Hfind & _ & _).
    exists (snd r :: targets). split.
    + rewrite run_mapM_cons, run_bind, (table_of_run _ _ _ _ Ht). cbn [ret].
      rewrite run_bind. unfold first_with_source in Hrun |- *.
      rewrite Hfind. cbn [ret]. rewrite Hrun. reflexivity.
    + constructor; [|exact Hf]. exists t. split; [exact Ht|].
      unfold first_target. rewrite Hfind. reflexivity.
Qed.

(** One row of the first loop when no table is missing. *)
Lemma match_row_run dico lang_list (dico_inbn : option tables)
    (row : index_row) (acc : list (list Z)) (s : list log_record) :
  all_present dico lang_list ->
  (known_everywhere dico lang_list (fst row) ->
   exists targets,
     match_row lang_list dico dico_inbn row acc s
       = (Ok (acc ++ [fst row :: targets]), s)
     /\ Forall2 (fun lang y => exists t, dico !! lang = Some (Some t)
                                         /\ first_target t (fst row) = Some y)
                lang_list targets)
  /\ (~ known_everywhere dico lang_list (fst row) ->
      match_row lang_list dico dico_inbn row acc s
      = match dico_inbn with
        | Some inbn => bridge_forward tgt_lang inbn row acc s
        | None => (Ok acc, s)
        end).
Proof.
  intros Hall.
  destruct (found_run dico lang_list (fst row) s Hall) as (found & Hrun & Hiff).
  split.
  - intros Hk. destruct (targets_run dico lang_list (fst row) s Hall Hk)
      as (targets & Hrun' & Hf).
    exists targets. split; [|exact Hf].
    unfold CrossMatch.match_row. rewrite (run_bind_ok _ _ _ _ _ Hrun).
    apply Hiff in Hk. rewrite Hk.
    rewrite (run_bind_ok _ _ _ _ _ Hrun'). reflexivity.
  - intros Hk. unfold CrossMatch.match_row. rewrite (run_bind_ok _ _ _ _ _ Hrun).
    destruct (forallb _ found) eqn:E; [exfalso; apply Hk, Hiff; reflexivity|].
    destruct dico_inbn; reflexivity.
Qed.

Lemma known_or_not dico lang_list (x : Z) :
  all_present dico lang_list ->
  known_everywhere dico lang_list x \/ ~ known_everywhere dico lang_list x.
Proof.
  intros Hall. destruct (found_run dico lang_list x [] Hall) as (found & _ & Hiff).
  destruct (forallb (fun b : bool => b) found).
  - left. apply Hiff. reflexivity.
  - right. intros Hk. apply Hiff in Hk. discriminate Hk.
Qed.

Lemma first_loop_no_bridge dico lang_list (first rows : table)
    (acc : list (list Z)) (s : list log_record) :
  all_present dico lang_list ->
  (forall r, r ∈ rows -> r ∈ first) ->
  exists out,
    for_each rows (match_row lang_list dico None) acc s = (Ok (acc ++ out), s)
    /\ (length out <= length rows)%nat
    /\ Forall (consistent_row dico lang_list first) out.
Proof.
  intros Hall. revert acc. induction rows as [|row rows IH]; intros acc Hsub.
  - exists []. rewrite app_nil_r. repeat split; [cbn; lia|constructor].
  - cbn [for_each]. rewrite run_bind.
    destruct (match_row_run dico lang_list None row acc s Hall) as [Hyes Hno].
    assert (forall r, r ∈ rows -> r ∈ first) as Hsub'
      by (intros r Hr; apply Hsub, elem_of_cons; right; exact Hr).
    destruct (known_or_not dico lang_list (fst row) Hall) as [Hk|Hk].
    + destruct (Hyes Hk) as (targets & -> & Hf).
      destruct (IH (acc ++ [fst row :: targets]) Hsub') as (out & -> & Hlen & Hout).
      exists ((fst row :: targets) :: out). rewrite <- app_assoc.
      split; [reflexivity|]. split; [cbn; lia|].
      constructor; [|exact Hout]. exists row, targets.
      split; [apply Hsub, elem_of_cons; left; reflexivity|].
      split; [reflexivity|exact Hf].
    + rewrite (Hno Hk). destruct (IH acc Hsub') as (out & -> & Hlen & Hout).
      exists out. split; [reflexivity|]. split; [cbn; lia|exact Hout].
Qed.

(** X8: without a dictionary between the target languages, and when every
    listed language has a dictionary, cross-matching returns; it gives at
    most one row per row of the first language's dictionary, and each row
    is a source index of that dictionary followed, for every listed
    language in order, by the target which that language's dictionary
    records first for this source. *)
Theorem cross_match_rows_consistent dico lang_list (l0 : string)
    (first : table) (log : list log_record) :
  all_present dico lang_list ->
  lang_list !! 0%nat = Some l0 ->
  dico !! l0 = Some (Some first) ->
  exists rows,
    cross_match_dictionary lang_list dico None log
      = (Ok rows, log ++ [(INFO, "New FINAL train dictionary of %i pairs."%string)])
    /\ (length rows <= length first)%nat
    /\ Forall (consistent_row dico lang_list first) rows.
Proof.
  intros Hall Hl0 Hfirst.
  destruct (first_loop_no_bridge dico lang_list first first [] log Hall)
    as (out & Hrun & Hlen & Hout); [auto|].
  exists out. split; [|split; assumption].
  unfold CrossMatch.cross_match_dictionary.
  rewrite run_bind. unfold item. rewrite Hl0. cbn [ret].
  rewrite (run_bind_ok _ _ _ _ _ (table_of_run _ _ _ _ Hfirst)).
  rewrite (run_bind_ok _ _ _ _ _ Hrun). cbn [app].
  rewrite run_bind. cbn [ret]. reflexivity.
Qed.

Lemma find_unique (t : table) (r : index_row) :
  NoDup (map fst t) -> r ∈ t ->
  List.find (fun r' => fst r' =? fst r) t = Some r.
Proof.
  induction t as [|a t IH]; intros Hnd Hr.
  - apply elem_of_nil in Hr. contradiction.
  - cbn [map] in Hnd. apply NoDup_cons in Hnd as [Ha Hnd]. cbn [List.find].
    apply elem_of_cons in Hr as [->|Hr]; [rewrite Z.eqb_refl; reflexivity|].
    destruct (Z.eqb_spec (fst a) (fst r)) as [He|_]; [|apply IH; assumption].
    exfalso. apply Ha. rewrite He. apply list_elem_of_In, List.in_map.
    apply list_elem_of_In. exact Hr.
Qed.

Lemma single_loop (l : string) dico (dico_inbn : option tables)
    (t rows : table) (acc : list (list Z)) (s : list log_record) :
  dico !! l = Some (Some t) ->
  (forall r, r ∈ rows -> r ∈ t) ->
  exists out,
    for_each rows (match_row [l] dico dico_inbn) acc s = (Ok (acc ++ out), s)
    /\ Forall2 (fun r o => exists y, first_target t (fst r) = Some y
                                     /\ o = [fst r; y]) rows out.
Proof.
  intros Ht. revert acc. induction rows as [|row rows IH]; intros acc Hsub.
  - exists []. rewrite app_nil_r. split; [reflexivity|constructor].
  - assert (all_present dico [l]) as Hall.
    { intros lang Hl. apply list_elem_of_singleton in Hl as ->. exists t. exact Ht. }
    assert (known_everywhere dico [l] (fst row)) as Hk.
    { intros lang t' Hl Ht'. apply list_elem_of_singleton in Hl as ->.
      assert (t' = t) as -> by congruence.
      apply in_sources_elem, Hsub, elem_of_cons. left. reflexivity. }
    destruct (match_row_run dico [l] dico_inbn row acc s Hall) as [Hyes _].
    destruct (Hyes Hk) as (targets & Hrun & Hf).
    apply Forall2_cons_inv_l in Hf as (y & ts & (t' & Ht' & Hy) & Hnil & ->).
    apply Forall2_nil_inv_l in Hnil as ->.
    assert (t' = t) as -> by congruence.
    destruct (IH (acc ++ [[fst row; y]])) as (out & Hrest & Hout).
    { intros r Hr. apply Hsub, elem_of_cons. right. exact Hr. }
    exists ([fst row; y] :: out). split.
    + cbn [for_each]. rewrite (run_bind_ok _ _ _ _ _ Hrun), Hrest, <- app_assoc.
      reflexivity.
    + constructor; [|exact Hout]. exists y. split; [exact Hy|reflexivity].
Qed.

Lemma rows_identity (t rows : table) (out : list (list Z)) :
  (forall r, r ∈ rows -> first_target t (fst r) = Some (snd r)) ->
  Forall2 (fun r o => exists y, first_target t (fst r) = Some y
                                /\ o = [fst r; y]) rows out ->
  out = map (fun r => [fst r; snd r]) rows.
Proof.
  intros Hfirst Hout.
  induction Hout as [|r o rows out (y & Hy & ->) _ IH]; [reflexivity|].
  cbn [map]. rewrite Hfirst in Hy by (apply elem_of_cons; left; reflexivity).
  injection Hy as <-. f_equal. apply IH. intros r' Hr'. apply Hfirst.
  apply elem_of_cons. right. exact Hr'.
Qed.

(** With one listed language and no dictionary between target languages,
    cross-matching gives one row per row of the dictionary, with the same
    source and the target recorded first for that source; when no source
    comes twice the result is the dictionary itself, row by row. *)
Lemma cross_match_single_language (l : string) dico (t : table)
    (log : list log_record) :
  dico !! l = Some (Some t) ->
  exists rows,
    cross_match_dictionary [l] dico None log
      = (Ok rows, log ++ [(INFO, "New FINAL train dictionary of %i pairs."%string)])
    /\ Forall2 (fun r o => exists y, first_target t (fst r) = Some y
                                     /\ o = [fst r; y]) t rows
    /\ (NoDup (map fst t) -> rows = map (fun r => [fst r; snd r]) t).
Proof.
  intros Ht.
  destruct (single_loop l dico None t t [] log Ht) as (out & Hrun & Hout);
    [auto|].
  exists out. split; [|split].
  - unfold CrossMatch.cross_match_dictionary.
    rewrite run_bind. cbn [item lookup list_lookup ret].
    rewrite (run_bind_ok _ _ _ _ _ (table_of_run _ _ _ _ Ht)).
    rewrite (run_bind_ok _ _ _ _ _ Hrun). cbn [app].
    rewrite run_bind. cbn [ret]. reflexivity.
  - exact Hout.
  - intros Hnd. clear Hrun.
    assert (forall r, r ∈ t -> first_target t (fst r) = Some (snd r)) as Hfirst.
    { intros r Hr. unfold first_target. rewrite (find_unique t r Hnd Hr).
      reflexivity. }
    exact (rows_identity t t out Hfirst Hout).
Qed.

Lemma bridge_forward_len (inbn : tables) (row : index_row)
    (acc acc' : list (list Z)) (s s' : list log_record) :
  bridge_forward tgt_lang inbn row acc s = (Ok acc', s') ->
  Forall (fun o => length o = 3%nat) acc ->
  Forall (fun o => length o = 3%nat) acc'.
Proof.
  unfold bridge_forward. intros H Hacc.
  apply run_bind_inv in H as (l1 & s1 & _ & H).
  apply run_bind_inv in H as (b & s2 & _ & H).
  destruct (in_sources (snd row) b).
  - apply run_bind_inv in H as (r & s3 & _ & H). cbn in H. injection H as <- _.
    apply Forall_app. split; [exact Hacc|]. repeat constructor.
  - cbn in H. injection H as <- _. exact Hacc.
Qed.

Lemma bridge_backward_len dico (inbn : tables) (row : index_row)
    (acc acc' : list (list Z)) (s s' : list log_record) :
  bridge_backward tgt_lang dico inbn row acc s = (Ok acc', s') ->
  Forall (fun o => length o = 3%nat) acc ->
  Forall (fun o => length o = 3%nat) acc'.
Proof.
  unfold bridge_backward. intros H Hacc.
  apply run_bind_inv in H as (l0 & s1 & _ & H).
  apply run_bind_inv in H as (t0 & s2 & _ & H).
  destruct (negb (in_sources (fst row) t0)).
  - apply run_bind_inv in H as (l1 & s3 & _ & H).
    apply run_bind_inv in H as (b & s4 & _ & H).
    destruct (in_targets (snd row) b).
    + apply run_bind_inv in H as (r & s5 & _ & H). cbn in H.
      injection H as <- _. apply Forall_app. split; [exact Hacc|].
      repeat constructor.
    + cbn in H. injection H as <- _. exact Hacc.
  - cbn in H. injection H as <- _. exact Hacc.
Qed.

Lemma match_row_len dico lang_list (dico_inbn : option tables)
    (row : index_row) (acc acc' : list (list Z)) (s s' : list log_record) :
  dico_inbn = None \/ length lang_list = 2%nat ->
  match_row lang_list dico dico_inbn row acc s = (Ok acc', s') ->
  Forall (fun o => length o = S (length lang_list)) acc ->
  Forall (fun o => length o = S (length lang_list)) acc'.
Proof.
  intros Hshape H Hacc. unfold CrossMatch.match_row in H.
  apply run_bind_inv in H as (found & s1 & _ & H).
  destruct (forallb (fun b : bool => b) found).
  - apply run_bind_inv in H as (targets & s2 & Htargets & H). cbn in H.
    injection H as <- _. apply Forall_app. split; [exact Hacc|].
    constructor; [|constructor]. cbn [length]. f_equal.
    exact (mapM_length _ _ _ _ _ Htargets).
  - destruct dico_inbn as [inbn|].
    + destruct Hshape as [Hn|Hlen]; [discriminate Hn|]. rewrite Hlen in Hacc |- *.
      exact (bridge_forward_len _ _ _ _ _ _ H Hacc).
    + cbn in H. injection H as <- _. exact Hacc.
Qed.

(** X9: when cross-matching returns, with no dictionary between the
    target languages or with one and two listed languages, every row of
    the result has one entry for the source and one for each listed
    language: the rows make a rectangular array. *)
Theorem cross_match_rows_rectangular dico lang_list
    (dico_inbn : option tables) (log log' : list log_record)
    (rows : list (list Z)) :
  dico_inbn = None \/ length lang_list = 2%nat ->
  cross_match_dictionary lang_list dico dico_inbn log = (Ok rows, log') ->
  Forall (fun o => length o = S (length lang_list)) rows.
Proof.
  intros Hshape H. unfold CrossMatch.cross_match_dictionary in H.
  apply run_bind_inv in H as (l0 & s1 & _ & H).
  apply run_bind_inv in H as (first & s2 & _ & H).
  apply run_bind_inv in H as (out1 & s3 & Hloop1 & H).
  apply run_bind_inv in H as (out2 & s4 & Hloop2 & H).
  apply run_bind_inv in H as (u & s5 & _ & H). cbn in H. injection H as <- _.
  assert (Forall (fun o => length o = S (length lang_list)) out1) as Hout1.
  { apply (for_each_inv (Forall (fun o => length o = S (length lang_list)))
             _ first
             (fun x acc s acc' s' _ Hx => match_row_len dico lang_list dico_inbn
                                            x acc acc' s s' Hshape Hx)
             [] s2 out1 s3); [constructor|exact Hloop1]. }
  destruct dico_inbn as [inbn|].
  - destruct Hshape as [Hn|Hlen]; [discriminate Hn|]. rewrite Hlen in Hout1 |- *.
    apply run_bind_inv in Hloop2 as (l & s6 & _ & Hloop2).
    apply run_bind_inv in Hloop2 as (last_rows & s7 & _ & Hloop2).
    apply (for_each_inv (Forall (fun o => length o = 3%nat)) _ last_rows
             (fun x acc s acc' s' _ Hx => bridge_backward_len dico inbn
                                            x acc acc' s s' Hx)
             out1 s7 out2 s4); [exact Hout1|exact Hloop2].
  - cbn in Hloop2. injection Hloop2 as <- _. exact Hout1.
Qed.

(** The second loop with one listed language: every source of the table
    is in the table. *)
Lemma second_loop_same_table (l : string) dico (inbn : tables)
    (t rows : table) (acc : list (list Z)) (s : list log_record) :
  tgt_lang !! 0%nat = Some l ->
  dico !! l = Some (Some t) ->
  (forall r, r ∈ rows -> r ∈ t) ->
  for_each rows (bridge_backward tgt_lang dico inbn) acc s = (Ok acc, s).
Proof.
  intros Hl Ht. induction rows as [|row rows IH]; intros Hsub; [reflexivity|].
  assert (bridge_backward tgt_lang dico inbn row acc s = (Ok acc, s)) as Hrow.
  { unfold bridge_backward. rewrite run_bind. unfold item. rewrite Hl.
    cbn [ret]. rewrite (run_bind_ok _ _ _ _ _ (table_of_run _ _ _ _ Ht)).
    rewrite in_sources_elem by (apply Hsub, elem_of_cons; left; reflexivity).
    reflexivity. }
  cbn [for_each]. rewrite (run_bind_ok _ _ _ _ _ Hrow).
  apply IH. intros r Hr. apply Hsub, elem_of_cons. right. exact Hr.
Qed.

(** The first loop stops at the first row that some table does not know
    when the dictionary between the target languages has no entry. *)
Lemma first_loop_raises dico lang_list (l1 : string) (rows : table)
    (acc : list (list Z)) (s : list log_record) :
  all_present dico lang_list ->
  tgt_lang !! 1%nat = Some l1 ->
  (exists row, row ∈ rows /\ ~ known_everywhere dico lang_list (fst row)) ->
  for_each rows (match_row lang_list dico (Some ∅)) acc s
  = (Raise (KeyError l1), s).
Proof.
  intros Hall Hl1. revert acc.
  induction rows as [|row rows IH]; intros acc (bad & Hbad & Hunknown).
  - apply elem_of_nil in Hbad. contradiction.
  - cbn [for_each]. rewrite run_bind.
    destruct (match_row_run dico lang_list (Some ∅) row acc s Hall)
      as [Hyes Hno].
    destruct (known_or_not dico lang_list (fst row) Hall) as [Hk|Hk].
    + destruct (Hyes Hk) as (targets & -> & _). apply IH.
      apply elem_of_cons in Hbad as [->|Hbad]; [contradiction|].
      exists bad. split; assumption.
    + rewrite (Hno Hk). unfold bridge_forward.
      rewrite run_bind. unfold item. rewrite Hl1. cbn [ret].
      rewrite run_bind. unfold table_of. rewrite lookup_empty. reflexivity.
Qed.

End Matcher.

Section Builder.

Variable argsort_desc : list float -> list nat.
Variable Emb : Type.
Variable size0 : Emb -> Z.
Variable scorer : Emb -> Emb -> Params -> Z
                  -> result (list score_row * list index_row).

Abbreviation build_pairwise_dictionary :=
  (build_pairwise_dictionary argsort_desc Emb size0 scorer).
Abbreviation build_dictionary :=
  (build_dictionary argsort_desc Emb size0 scorer).

(** X10: without support, when the pairwise builder answers [None] for
    the last target language (the empty intersection), [build_dictionary]
    does not return: iterating over [None] raises [TypeError]. *)
Theorem build_dictionary_fails_on_empty_intersection (src_emb e : Emb)
    (tgt_emb : gmap string Emb) (p : Params) (tgt_lang : list string)
    (l : string) (s2t t2s : option (list index_row))
    (log log1 : list log_record) :
  last tgt_lang = Some l ->
  tgt_emb !! l = Some e ->
  build_pairwise_dictionary src_emb e p s2t t2s log = (Ok None, log1) ->
  build_dictionary src_emb tgt_emb p tgt_lang false s2t t2s log
  = (Raise TypeError, log1).
Proof.
  intros Hlast He Hpair. unfold CrossMatch.build_dictionary.
  rewrite run_bind. unfold lang_list_for, last_of. cbn [negb].
  rewrite run_bind, Hlast. cbn [ret].
  rewrite run_bind. cbn [for_each]. rewrite run_bind, run_bind.
  unfold emb_of. rewrite He. cbn [ret]. rewrite run_bind, Hpair. cbn [ret].
  rewrite run_bind. cbn [andb ret].
  unfold cross_match_dictionary. rewrite run_bind.
  cbn [item lookup list_lookup ret]. rewrite run_bind.
  unfold table_of. rewrite lookup_insert_eq. reflexivity.
Qed.

(** X11: without support, [build_dictionary] returns the pairwise
    dictionary of the last target language with, in each row, the target
    replaced by the one recorded first for the row's source; it is that
    dictionary itself when no source comes twice. *)
Theorem build_dictionary_without_support (src_emb e : Emb)
    (tgt_emb : gmap string Emb) (p : Params) (tgt_lang : list string)
    (l : string) (s2t t2s : option (list index_row)) (t : table)
    (log log1 : list log_record) :
  last tgt_lang = Some l ->
  tgt_emb !! l = Some e ->
  build_pairwise_dictionary src_emb e p s2t t2s log = (Ok (Some t), log1) ->
  exists rows,
    build_dictionary src_emb tgt_emb p tgt_lang false s2t t2s log
      = (Ok rows,
         log1 ++ [(INFO, "New FINAL train dictionary of %i pairs."%string)])
    /\ Forall2 (fun r o => exists y, first_target t (fst r) = Some y
                                     /\ o = [fst r; y]) t rows
    /\ (NoDup (map fst t) -> rows = map (fun r => [fst r; snd r]) t).
Proof.
  intros Hlast He Hpair.
  destruct (cross_match_single_language tgt_lang l (<[l := Some t]> ∅) t log1)
    as (rows & Hrun & Hrows); [apply lookup_insert_eq|].
  exists rows. split; [|exact Hrows].
  unfold CrossMatch.build_dictionary.
  rewrite run_bind. unfold lang_list_for, last_of. cbn [negb].
  rewrite run_bind, Hlast. cbn [ret].
  rewrite run_bind. cbn [for_each]. rewrite run_bind, run_bind.
  unfold emb_of. rewrite He. cbn [ret]. rewrite run_bind, Hpair. cbn [ret].
  rewrite run_bind. cbn [andb ret]. exact Hrun.
Qed.

End Builder.

Section Loader.

Variable Vocab : Type.
Variable load_identical_char_dico : Vocab -> Vocab -> result table.
Variable load_identical_num_dico : Vocab -> Vocab -> result table.
Variable load_dictionary : string -> Vocab -> Vocab -> result table.
Variable default_path : string -> string -> string.

Abbreviation load_for :=
  (load_for Vocab load_identical_char_dico load_identical_num_dico
     load_dictionary default_path).
Abbreviation load_training_dico :=
  (load_training_dico Vocab load_identical_char_dico load_identical_num_dico
     load_dictionary default_path).

Variables (src_lang dico_train : string) (src_dico : Vocab).
Variable tgt_dico : gmap string Vocab.

Abbreviation loads :=
  (loads Vocab load_identical_char_dico load_identical_num_dico
     load_dictionary default_path src_lang dico_train src_dico tgt_dico).

Lemma loads_unique (lang : string) (t t' : table) :
  loads lang t -> loads lang t' -> t = t'.
Proof. intros (v & Hv & Ht) (v' & Hv' & Ht'). congruence. Qed.

(** The first loop of [load_training_dico]. *)
Lemma loading_run (langs : list string) (acc : tables) (s : list log_record) :
  (forall lang, lang ∈ langs -> exists t, loads lang t) ->
  exists d,
    for_each langs
      (fun lang (dico : tables) =>
         word2id2 ← vocab_of Vocab tgt_dico lang;
         t ← of_result (load_for dico_train src_lang src_dico word2id2 lang);
         ret (<[lang := Some t]> dico)) acc s
    = (Ok d, s)
    /\ (forall lang, lang ∈ langs ->
                     exists t, loads lang t /\ d !! lang = Some (Some t))
    /\ (forall lang, lang ∉ langs -> d !! lang = acc !! lang).
Proof.
  revert acc. induction langs as [|l ls IH]; intros acc Hall.
  - exists acc. split; [reflexivity|]. split; [|reflexivity].
    intros lang H. apply elem_of_nil in H. contradiction.
  - destruct (Hall l) as (t & Hloads); [apply elem_of_cons; left; reflexivity|].
    destruct (IH (<[l := Some t]> acc)) as (d & Hrun & Hin & Hout).
    { intros lang Hl. apply Hall, elem_of_cons. right. exact Hl. }
    exists d. split; [|split].
    + cbn [for_each]. rewrite run_bind, run_bind. unfold vocab_of.
      destruct Hloads as (v & -> & Hload). cbn [ret]. rewrite run_bind, Hload.
      cbn [of_result ret]. exact Hrun.
    + intros lang Hl. destruct (decide (lang ∈ ls)) as [Hls|Hls];
        [apply Hin; exact Hls|].
      apply elem_of_cons in Hl as [->|Hl]; [|contradiction].
      exists t. split; [exact Hloads|].
      rewrite (Hout l Hls). apply lookup_insert_eq.
    + intros lang Hl. apply not_elem_of_cons in Hl as [Hne Hls].
      rewrite (Hout lang Hls). apply lookup_insert_ne. congruence.
Qed.

(** X12: with one target language, whatever [support] is,
    [load_training_dico] stores the loaded dictionary with, in each row,
    the target replaced by the one recorded first for the row's source;
    it stores the dictionary itself when no source comes twice. *)
Theorem load_training_dico_single_language (l : string) (t : table)
    (support : bool) (log : list log_record) :
  loads l t ->
  exists rows,
    load_training_dico src_lang [l] src_dico tgt_dico dico_train support log
      = (Ok rows,
         log ++ [(INFO, "New FINAL train dictionary of %i pairs."%string)])
    /\ Forall2 (fun r o => exists y, first_target t (fst r) = Some y
                                     /\ o = [fst r; y]) t rows
    /\ (NoDup (map fst t) -> rows = map (fun r => [fst r; snd r]) t).
Proof.
  intros Hloads.
  destruct (loading_run [l] ∅ log) as (d & Hrun & Hin & _).
  { intros lang Hl. apply list_elem_of_singleton in Hl as ->. exists t.
    exact Hloads. }
  destruct (Hin l) as (t' & Hloads' & Hd);
    [apply list_elem_of_singleton; reflexivity|].
  rewrite (loads_unique _ _ _ Hloads' Hloads) in Hd. clear t' Hloads'.
  destruct (single_loop [l] l d (Some ∅) t t [] log Hd)
    as (rows & Hloop1 & Hrows); [auto|].
  exists rows. split; [|split].
  - unfold CrossMatch.load_training_dico.
    rewrite (run_bind_ok _ _ _ _ _ Hrun).
    replace (support && (1 <? length [l])%nat) with false
      by (destruct support; reflexivity).
    rewrite run_bind. cbn [ret].
    unfold cross_match_dictionary. rewrite run_bind.
    cbn [item lookup list_lookup ret].
    rewrite (run_bind_ok _ _ _ _ _ (table_of_run _ _ _ _ Hd)).
    rewrite (run_bind_ok _ _ _ _ _ Hloop1). cbn [app].
    rewrite run_bind, run_bind. cbn [last_of last ret].
    rewrite (run_bind_ok _ _ _ _ _ (table_of_run _ _ _ _ Hd)).
    rewrite (second_loop_same_table [l] l d ∅ t t rows log eq_refl Hd);
      [|auto].
    rewrite run_bind. cbn [ret]. reflexivity.
  - exact Hrows.
  - intros Hnd. apply (rows_identity t t rows); [|exact Hrows].
    intros r Hr. unfold first_target. rewrite (find_unique t r Hnd Hr).
    reflexivity.
Qed.

(** X13: with several target languages and no support, the dictionary
    between the target languages is empty, so [load_training_dico] raises
    [KeyError] on the second target language as soon as a source of the
    first language's dictionary is missing from the dictionary of some
    target language. *)
Theorem load_training_dico_without_support_KeyError (l0 l1 : string)
    (rest : list string) (first t : table) (row : index_row) (lang : string)
    (log : list log_record) :
  (forall lang, lang ∈ l0 :: l1 :: rest -> exists t, loads lang t) ->
  loads l0 first ->
  row ∈ first ->
  lang ∈ l0 :: l1 :: rest ->
  loads lang t ->
  in_sources (fst row) t = false ->
  load_training_dico src_lang (l0 :: l1 :: rest) src_dico tgt_dico dico_train
    false log
  = (Raise (KeyError l1), log).
Proof.
  intros Hall Hfirst Hrow Hlang Ht Hmissing.
  destruct (loading_run (l0 :: l1 :: rest) ∅ log Hall) as (d & Hrun & Hin & _).
  assert (all_present d (l0 :: l1 :: rest)) as Hpresent.
  { intros k Hk. destruct (Hin k Hk) as (t' & _ & Hd). exists t'. exact Hd. }
  assert (d !! l0 = Some (Some first)) as Hd0.
  { destruct (Hin l0) as (t' & Hloads' & Hd);
      [apply elem_of_cons; left; reflexivity|].
    rewrite (loads_unique _ _ _ Hloads' Hfirst) in Hd. exact Hd. }
  assert (d !! lang = Some (Some t)) as Hdl.
  { destruct (Hin lang Hlang) as (t' & Hloads' & Hd).
    rewrite (loads_unique _ _ _ Hloads' Ht) in Hd. exact Hd. }
  unfold CrossMatch.load_training_dico.
  rewrite (run_bind_ok _ _ _ _ _ Hrun). cbn [andb].
  rewrite run_bind. cbn [ret].
  unfold cross_match_dictionary. rewrite run_bind.
  cbn [item lookup list_lookup ret].
  rewrite (run_bind_ok _ _ _ _ _ (table_of_run _ _ _ _ Hd0)).
  rewrite run_bind.
  rewrite (first_loop_raises (l0 :: l1 :: rest) d (l0 :: l1 :: rest) l1 first
             [] log Hpresent eq_refl); [reflexivity|].
  exists row. split; [exact Hrow|]. intros Hk.
  rewrite (Hk lang t Hlang Hdl) in Hmissing. discriminate Hmissing.
Qed.

End Loader.

(** *** Instances *)

Lemma cross_match_rows_consistent_witness :
  exists rows,
    cross_match_dictionary ["es"; "fr"]%string ["es"; "fr"]%string dico_es_fr
      None []
      = (Ok rows, [] ++ [(INFO, "New FINAL train dictionary of %i pairs."%string)])
    /\ (length rows <= length en_es)%nat
    /\ Forall (consistent_row dico_es_fr ["es"; "fr"]%string en_es) rows.
Proof.
  apply (cross_match_rows_consistent ["es"; "fr"]%string dico_es_fr
           ["es"; "fr"]%string "es"%string en_es []).
  - intros lang Hl. apply elem_of_cons in Hl as [->|Hl];
      [exists en_es; reflexivity|].
    apply list_elem_of_singleton in Hl as ->. exists en_fr. reflexivity.
  - reflexivity.
  - reflexivity.
Defined.

Lemma cross_match_rows_rectangular_witness :
  Forall (fun o => length o = S (length ["es"; "fr"]%string))
    [[0; 10; 20]; [1; 11; 21]; [1; 11; 21]; [3; 13; 23]; [4; 15; 24]].
Proof.
  apply (cross_match_rows_rectangular ["es"; "fr"]%string dico_es_fr
           ["es"; "fr"]%string (Some bridge_es_fr) []
           [(INFO, "New FINAL train dictionary of %i pairs."%string)]).
  - right. reflexivity.
  - vm_compute. reflexivity.
Defined.

Lemma build_dictionary_fails_on_empty_intersection_witness :
  build_dictionary insertion_argsort table_emb table_size0 table_scorer
    emb1 {[ "fr"%string := emb1 ]} params_both ["es"; "fr"]%string false
    (Some [(0, 1)]) (Some [(5, 4)]) []
  = (Raise TypeError,
     [(INFO, "Building the train dictionary ..."%string);
      (WARNING, "Empty intersection ..."%string)]).
Proof.
  apply (build_dictionary_fails_on_empty_intersection insertion_argsort
           table_emb table_size0 table_scorer emb1 emb1 {[ "fr"%string := emb1 ]}
           params_both ["es"; "fr"]%string "fr"%string).
  - reflexivity.
  - reflexivity.
  - vm_compute. reflexivity.
Defined.

Lemma build_dictionary_without_support_witness :
  exists rows,
    build_dictionary insertion_argsort table_emb table_size0 table_scorer
      emb1 {[ "fr"%string := emb1 ]} (DicoBuilderInputs.params_policy "S2T")
      ["es"; "fr"]%string false (Some [(0, 4); (0, 5); (2, 6)]) None []
      = (Ok rows,
         [(INFO, "Building the train dictionary ..."%string);
          (INFO, "New train dictionary of %i pairs."%string)]
         ++ [(INFO, "New FINAL train dictionary of %i pairs."%string)])
    /\ Forall2 (fun r o => exists y,
                  first_target [(0, 4); (0, 5); (2, 6)] (fst r) = Some y
                  /\ o = [fst r; y]) [(0, 4); (0, 5); (2, 6)] rows
    /\ (NoDup (map fst [(0, 4); (0, 5); (2, 6)])
        -> rows = map (fun r => [fst r; snd r]) [(0, 4); (0, 5); (2, 6)]).
Proof.
  apply (build_dictionary_without_support insertion_argsort
           table_emb table_size0 table_scorer emb1 emb1 {[ "fr"%string := emb1 ]}
           (DicoBuilderInputs.params_policy "S2T") ["es"; "fr"]%string
           "fr"%string).
  - reflexivity.
  - reflexivity.
  - vm_compute. reflexivity.
Defined.

Lemma load_training_dico_single_language_witness :
  exists rows,
    load_training_dico table load_table load_table load_table_at path_of
      "en" ["es"%string] [] vocab_es_fr "identical_char" true []
      = (Ok rows, [] ++ [(INFO, "New FINAL train dictionary of %i pairs."%string)])
    /\ Forall2 (fun r o => exists y, first_target en_es (fst r) = Some y
                                     /\ o = [fst r; y]) en_es rows
    /\ (NoDup (map fst en_es) -> rows = map (fun r => [fst r; snd r]) en_es).
Proof.
  apply (load_training_dico_single_language table load_table load_table
           load_table_at path_of "en" "identical_char" [] vocab_es_fr
           "es"%string en_es true []).
  exists en_es. split; reflexivity.
Defined.

Lemma load_training_dico_without_support_KeyError_witness :
  load_training_dico table load_table load_table load_table_at path_of
    "en" ["es"; "fr"]%string [] vocab_es_fr "default" false []
  = (Raise (KeyError "fr"), []).
Proof.
  apply (load_training_dico_without_support_KeyError table load_table
           load_table load_table_at path_of "en" "default" [] vocab_es_fr
           "es"%string "fr"%string [] en_es en_fr (3, 13) "fr"%string []).
  - intros lang Hl. apply elem_of_cons in Hl as [->|Hl];
      [exists en_es, en_es; split; reflexivity|].
    apply list_elem_of_singleton in Hl as ->.
    exists en_fr, en_fr. split; reflexivity.
  - exists en_es. split; reflexivity.
  - apply elem_of_cons. right. apply elem_of_cons. right.
    apply elem_of_cons. right. apply elem_of_cons. left. reflexivity.
  - apply elem_of_cons. right. apply elem_of_cons. left. reflexivity.
  - exists en_fr. split; reflexivity.
  - reflexivity.
Defined.

End CrossMatchSpec.

(** ** Invariants of the scheduler *)

Module ScheduleInvariants.
Import Schedule ScheduleInputs ScheduleSpec.

Local Open Scope Q_scope.

Lemma Qltb_ge (a b : Q) : Qltb a b = false <-> b <= a.
Proof.
  unfold Qltb. rewrite negb_false_iff. apply Qle_bool_iff.
Qed.

Lemma shrink_best (p : Params) (m : Q) (t : Trainer) :
  best_valid_metric (shrink p m t) = best_valid_metric t.
Proof.
  unfold shrink. destruct (_ && _); [|reflexivity].
  destruct (Qltb m _); [|reflexivity].
  cbn. destruct (decrease_lr t); reflexivity.
Qed.

Lemma update_lr_best (p : Params) (m : Q) (t : Trainer) :
  best_valid_metric (update_lr p m t) = best_valid_metric t.
Proof.
  unfold update_lr. destruct (negb _); [reflexivity|].
  rewrite shrink_best. destruct (decay_fields p t) as (_ & Hb & _). exact Hb.
Qed.

Lemma save_best_best (p : Params) (m : Q) (t : Trainer) :
  best_valid_metric t <= best_valid_metric (save_best p m t)
  /\ m <= best_valid_metric (save_best p m t).
Proof.
  unfold save_best. destruct (Qltb (best_valid_metric t) m) eqn:E.
  - destruct (save_mappings_fields (langs p)
                (logger_info msg_best (set_best m t))) as (_ & _ & ->).
    cbn. apply Qltb_lt in E. split; [apply Qlt_le_weak; exact E|apply Qle_refl].
  - apply Qltb_ge in E. split; [apply Qle_refl|exact E].
Qed.

Lemma do_call_best (p : Params) (c : call) (t : Trainer) :
  best_valid_metric t <= best_valid_metric (do_call p c t).
Proof.
  destruct c as [m|m]; cbn [do_call].
  - apply save_best_best.
  - rewrite update_lr_best. apply Qle_refl.
Qed.

Lemma run_best (p : Params) (cs : list call) (t : Trainer) :
  best_valid_metric t <= best_valid_metric (run p cs t).
Proof.
  revert t. induction cs as [|c cs IH]; intros t; [apply Qle_refl|].
  unfold run. cbn [foldl]. eapply Qle_trans; [apply (do_call_best p c)|].
  apply IH.
Qed.

(** X14: over any sequence of [save_best] and [update_lr] calls the best
    validation metric never goes down, and at the end it is at least
    every metric that [save_best] was called with. *)
Theorem best_metric_bounds_saved_metrics (p : Params) (cs : list call)
    (t : Trainer) :
  best_valid_metric t <= best_valid_metric (run p cs t)
  /\ Forall (fun m => m <= best_valid_metric (run p cs t)) (saved_metrics cs).
Proof.
  split; [apply run_best|]. revert t.
  induction cs as [|c cs IH]; intros t; [constructor|].
  change (run p (c :: cs) t) with (run p cs (do_call p c t)).
  destruct c as [m|m]; cbn [saved_metrics omap]; [|apply IH].
  constructor; [|apply IH].
  eapply Qle_trans; [|apply run_best]. cbn [do_call]. apply save_best_best.
Qed.

(** X15: when the mapping optimizer is not SGD ([sgd] is not in its
    name), no sequence of calls changes the learning rate or sets the
    flag [decrease_lr]. *)
Theorem non_sgd_optimizer_keeps_rate (p : Params) (cs : list call)
    (t : Trainer) :
  str_in "sgd" (map_optimizer p) = false ->
  lr (run p cs t) = lr t /\ decrease_lr (run p cs t) = decrease_lr t.
Proof.
  intros Hopt. revert t. induction cs as [|c cs IH]; intros t; [split; reflexivity|].
  change (run p (c :: cs) t) with (run p cs (do_call p c t)).
  destruct (IH (do_call p c t)) as [-> ->].
  destruct c as [m|m]; cbn [do_call].
  - rewrite save_best_lr, save_best_decrease_lr. split; reflexivity.
  - unfold update_lr. rewrite Hopt. split; reflexivity.
Qed.

Lemma decay_floor (p : Params) (t : Trainer) :
  min_lr p <= lr t -> min_lr p <= lr (decay p t).
Proof.
  intros H. unfold decay. destruct (Qltb _ _); [|exact H].
  cbn. apply py_max_ge_l.
Qed.

(** X16: with the shrink switched off ([lr_shrink >= 1]) the learning
    rate, once at least [min_lr], stays at least [min_lr] over any
    sequence of calls. *)
Theorem rate_stays_above_min_lr_without_shrink (p : Params) (cs : list call)
    (t : Trainer) :
  1 <= lr_shrink p ->
  min_lr p <= lr t ->
  min_lr p <= lr (run p cs t).
Proof.
  intros Hs. revert t. induction cs as [|c cs IH]; intros t Hlr; [exact Hlr|].
  change (run p (c :: cs) t) with (run p cs (do_call p c t)). apply IH.
  destruct c as [m|m]; cbn [do_call].
  - rewrite save_best_lr. exact Hlr.
  - unfold update_lr. destruct (negb _); [exact Hlr|].
    unfold shrink. apply Qltb_ge in Hs. rewrite Hs. cbn [andb].
    apply decay_floor. exact Hlr.
Qed.

Lemma update_lr_keeps_flag (p : Params) (m : Q) (t : Trainer) :
  decrease_lr t = true -> decrease_lr (update_lr p m t) = true.
Proof.
  intros H. unfold update_lr. destruct (negb _); [exact H|].
  destruct (decay_fields p t) as (Hd & _ & _). unfold shrink.
  destruct (_ && _); [|congruence].
  destruct (Qltb m _); [reflexivity|congruence].
Qed.

Lemma run_keeps_flag (p : Params) (cs : list call) (t : Trainer) :
  decrease_lr t = true -> decrease_lr (run p cs t) = true.
Proof.
  revert t. induction cs as [|c cs IH]; intros t H; [exact H|].
  change (run p (c :: cs) t) with (run p cs (do_call p c t)). apply IH.
  destruct c as [m|m]; cbn [do_call].
  - rewrite save_best_decrease_lr. exact H.
  - apply update_lr_keeps_flag. exact H.
Qed.

(** X17: the flag [decrease_lr] is never cleared; so once it is set,
    under SGD with [lr_shrink < 1], every later [update_lr] whose metric
    is at least [-1e7] and below the best multiplies the decayed rate by
    [lr_shrink], however many improving epochs came in between. *)
Theorem flag_persists_and_shrinks (p : Params) (cs : list call) (m : Q)
    (t : Trainer) :
  decrease_lr t = true ->
  str_in "sgd" (map_optimizer p) = true ->
  lr_shrink p < 1 ->
  - (10000000 # 1) <= m ->
  m < best_valid_metric (run p cs t) ->
  decrease_lr (run p cs t) = true
  /\ lr (update_lr p m (run p cs t)) = lr (decay p (run p cs t)) * lr_shrink p.
Proof.
  intros Hflag Hopt Hs Hm Hbelow.
  pose proof (run_keeps_flag p cs t Hflag) as Hrun. split; [exact Hrun|].
  unfold update_lr. rewrite Hopt. cbn [negb].
  destruct (decay_fields p (run p cs t)) as (Hd & Hb & _).
  unfold shrink. apply Qltb_lt in Hs. rewrite Hs.
  apply Qle_bool_iff in Hm. unfold Qleb. rewrite Hm. cbn [andb].
  rewrite Hb. apply Qltb_lt in Hbelow. rewrite Hbelow.
  cbn. rewrite Hd, Hrun. reflexivity.
Qed.

(** *** Instances *)

Lemma non_sgd_optimizer_keeps_rate_witness :
  lr (run params_adam calls_5_4_3_2 (init 1)) = lr (init 1)
  /\ decrease_lr (run params_adam calls_5_4_3_2 (init 1)) = decrease_lr (init 1).
Proof.
  apply (non_sgd_optimizer_keeps_rate params_adam calls_5_4_3_2 (init 1)).
  reflexivity.
Defined.

Lemma rate_stays_above_min_lr_without_shrink_witness :
  min_lr params_decaying <= lr (run params_decaying calls_5_4_3_2 (init 1)).
Proof.
  apply (rate_stays_above_min_lr_without_shrink params_decaying calls_5_4_3_2
           (init 1)).
  - apply Qle_refl.
  - vm_compute. discriminate.
Defined.

Lemma flag_persists_and_shrinks_witness :
  decrease_lr (run params_halving (epoch 6)
                 (run params_halving (epoch 5 ++ epoch 4) (init 1))) = true
  /\ lr (update_lr params_halving 3
           (run params_halving (epoch 6)
              (run params_halving (epoch 5 ++ epoch 4) (init 1))))
     = lr (decay params_halving
             (run params_halving (epoch 6)
                (run params_halving (epoch 5 ++ epoch 4) (init 1))))
       * lr_shrink params_halving.
Proof.
  apply (flag_persists_and_shrinks params_halving (epoch 6) 3
           (run params_halving (epoch 5 ++ epoch 4) (init 1))).
  - reflexivity.
  - reflexivity.
  - reflexivity.
  - vm_compute. discriminate.
  - reflexivity.
Defined.

End ScheduleInvariants.

(** ** What the adversarial steps leave alone *)

Module StepsFrame.
Import Steps.

Section Adversarial.

Variable Dis : Type.
Variable Map : Type.
Variable World : Type.
Variable Batch : Type.
Variable Labels : Type.
Variable Preds : Type.
Variable train_mode : Dis -> Dis.
Variable eval_mode : Dis -> Dis.
Variable get_dis_xy : bool -> Map -> World -> Batch * Labels * World.
Variable forward : Dis -> Batch -> Preds.
Variable binary_cross_entropy : Preds -> Labels -> float.
Variable flip : Labels -> Labels.
Variable dis_zero_grad : Dis -> Dis.
Variable dis_backward : Dis -> Batch -> Labels -> Dis.
Variable dis_optim_step : Dis -> Dis.
Variable clip_parameters : Dis -> float -> Dis.
Variable map_zero_grad : Map -> Map.
Variable map_backward : float -> Map * Dis -> Batch -> Labels -> Map * Dis.
Variable map_optim_step : Map -> Map.
Variable orthogonalize : Map -> Map.

Abbreviation Trainer := (Trainer Dis Map World).
Abbreviation dis_step :=
  (dis_step Dis Map World Batch Labels Preds train_mode get_dis_xy forward
     binary_cross_entropy dis_zero_grad dis_backward dis_optim_step
     clip_parameters).
Abbreviation mapping_step :=
  (mapping_step Dis Map World Batch Labels Preds eval_mode get_dis_xy forward
     binary_cross_entropy flip map_zero_grad map_backward map_optim_step
     orthogonalize).
Abbreviation dis_loss :=
  (dis_loss Dis Map World Batch Labels Preds train_mode get_dis_xy forward
     binary_cross_entropy).
Abbreviation fool_loss :=
  (fool_loss Dis Map World Batch Labels Preds eval_mode get_dis_xy forward
     binary_cross_entropy flip).

(** X19: a discriminator step, whether it returns or exits on NaN, leaves
    the mapping as it was and appends exactly one cost to
    [stats['DIS_COSTS']], the loss of the step; the log grows only when
    it exits. *)
Theorem dis_step_records_cost_and_keeps_mapping (p : Params) (t : Trainer) :
  mapping _ _ _ (snd (dis_step p t)) = mapping _ _ _ t
  /\ dis_costs _ _ _ (snd (dis_step p t)) = dis_costs _ _ _ t ++ [dis_loss t]
  /\ (fst (dis_step p t) = Ok tt
      -> log _ _ _ (snd (dis_step p t)) = log _ _ _ t).
Proof.
  unfold Steps.dis_loss, Steps.dis_step, Steps.sample, Steps.dis_optim.
  unfold mbind, Py_bind, bind, modify, get, ret.
  cbn [mapping world discriminator set_discriminator].
  destruct (get_dis_xy true (mapping _ _ _ t) (world _ _ _ t)) as [[x y] w].
  cbn [mapping world discriminator set_discriminator set_world append_cost
       fst snd].
  destruct (is_nan _); cbn; repeat split; try reflexivity; discriminate.
Qed.

(** X20: a mapping step with [dis_lambda] equal to zero returns 0 and
    changes nothing, not even the random generator; otherwise, when the
    fooling loss is not NaN, it returns [2 * batch_size], writes nothing
    to the log and gives the mapping the four calls [zero_grad],
    [backward], [step] and [orthogonalize] in this order; and in no case
    does it record a discriminator cost. *)
Theorem mapping_step_outcomes (p : Params) (t : Trainer) :
  dis_costs _ _ _ (snd (mapping_step p t)) = dis_costs _ _ _ t
  /\ (PrimFloat.eqb (dis_lambda p) 0%float = true ->
      mapping_step p t = (Ok 0, t))
  /\ (PrimFloat.eqb (dis_lambda p) 0%float = false ->
      is_nan (fool_loss p t) = false ->
      fst (mapping_step p t) = Ok (2 * batch_size p)
      /\ log _ _ _ (snd (mapping_step p t)) = log _ _ _ t
      /\ mapping _ _ _ (snd (mapping_step p t))
         = let '(x, y, _) := get_dis_xy false (mapping _ _ _ t) (world _ _ _ t) in
           orthogonalize
             (map_optim_step
                (fst (map_backward (dis_lambda p)
                        (map_zero_grad (mapping _ _ _ t),
                         eval_mode (discriminator _ _ _ t)) x (flip y))))).
Proof.
  unfold Steps.fool_loss, Steps.mapping_step, Steps.sample, Steps.map_optim.
  destruct (PrimFloat.eqb (dis_lambda p) 0) eqn:Hlam.
  - split; [reflexivity|]. split; [reflexivity|discriminate].
  - unfold mbind, Py_bind, bind, modify, get, ret.
    cbn [mapping world discriminator set_discriminator].
    destruct (get_dis_xy false (mapping _ _ _ t) (world _ _ _ t)) as [[x y] w].
    cbn [mapping world discriminator set_discriminator set_world fst snd].
    destruct (is_nan _) eqn:Hnan.
    + split; [reflexivity|]. split; discriminate.
    + split; [reflexivity|]. split; [discriminate|].
      intros _ _. repeat split; reflexivity.
Qed.

End Adversarial.

Lemma dis_step_records_cost_and_keeps_mapping_witness :
  log _ _ _ (snd (toy_dis_step 0.5 (toy_params 1) toy_trainer))
  = log _ _ _ toy_trainer.
Proof.
  apply (dis_step_records_cost_and_keeps_mapping (list call) (list call) unit
           unit unit unit (fun d => d ++ [TrainMode])
           (fun _ _ w => (tt, tt, w)) (fun _ _ => tt)
           (fun _ _ => 0.5%float)
           (fun d => d ++ [ZeroGrad]) (fun d _ _ => d ++ [Backward])
           (fun d => d ++ [OptimStep]) (fun d _ => d ++ [Clip])
           (toy_params 1) toy_trainer).
  reflexivity.
Defined.

Lemma mapping_step_outcomes_witness :
  toy_mapping_step 0.5 (toy_params 0) toy_trainer = (Ok 0, toy_trainer)
  /\ fst (toy_mapping_step 0.5 (toy_params 1) toy_trainer)
     = Ok (2 * batch_size (toy_params 1))
  /\ mapping _ _ _ (snd (toy_mapping_step 0.5 (toy_params 1) toy_trainer))
     = [ZeroGrad; Backward; OptimStep; Orthogonalize].
Proof.
  split; [|split].
  - apply (mapping_step_outcomes (list call) (list call) unit unit unit
             unit (fun d => d ++ [EvalMode])
             (fun _ _ w => (tt, tt, w)) (fun _ _ => tt)
             (fun _ _ => 0.5%float) (fun y => y)
             (fun m => m ++ [ZeroGrad])
             (fun _ md _ _ => (fst md ++ [Backward], snd md ++ [Backward]))
             (fun m => m ++ [OptimStep]) (fun m => m ++ [Orthogonalize])
             (toy_params 0) toy_trainer).
    reflexivity.
  - apply (mapping_step_outcomes (list call) (list call) unit unit unit
             unit (fun d => d ++ [EvalMode])
             (fun _ _ w => (tt, tt, w)) (fun _ _ => tt)
             (fun _ _ => 0.5%float) (fun y => y)
             (fun m => m ++ [ZeroGrad])
             (fun _ md _ _ => (fst md ++ [Backward], snd md ++ [Backward]))
             (fun m => m ++ [OptimStep]) (fun m => m ++ [Orthogonalize])
             (toy_params 1) toy_trainer); reflexivity.
  - apply (mapping_step_outcomes (list call) (list call) unit unit unit
             unit (fun d => d ++ [EvalMode])
             (fun _ _ w => (tt, tt, w)) (fun _ _ => tt)
             (fun _ _ => 0.5%float) (fun y => y)
             (fun m => m ++ [ZeroGrad])
             (fun _ md _ _ => (fst md ++ [Backward], snd md ++ [Backward]))
             (fun m => m ++ [OptimStep]) (fun m => m ++ [Orthogonalize])
             (toy_params 1) toy_trainer); reflexivity.
Defined.

End StepsFrame.

(** ** What the alignment solver leaves alone *)

Module ProcrustesFrame.
Import Procrustes ProcrustesFrames ProcrustesSpec.

(** Computations that only read the state. *)
Abbreviation reads m := (forall s, snd (m s) = s).

Lemma bind_reads {S A B} (m : Py S A) (f : A -> Py S B) :
  reads m -> (forall a, reads (f a)) -> reads (m ≫= f).
Proof.
  intros Hm Hf s. rewrite run_bind. specialize (Hm s).
  destruct (m s) as [[a|e] s1]; cbn in Hm; subst s1; [apply Hf|reflexivity].
Qed.

Lemma mapM_reads {S A B} (f : A -> Py S B) (l : list A) :
  (forall a, reads (f a)) -> reads (mapM f l).
Proof.
  intros Hf. induction l as [|x l IH]; intros s; [reflexivity|].
  rewrite run_mapM_cons. specialize (Hf x s).
  destruct (f x s) as [[y|e] s1]; cbn in Hf; subst s1; [|reflexivity].
  specialize (IH s). destruct (mapM f l s) as [[k|e] s2]; exact IH.
Qed.

Section Solver.

Variable Tensor : Type.
Variable mm : Tensor -> Tensor -> Tensor.
Variable transpose : Tensor -> Tensor.
Variable svd : Tensor -> Tensor * Tensor * Tensor.
Variable dot : Tensor -> Tensor -> Tensor.
Variable mean_stack : list Tensor -> Tensor.
Variable rows_at : Tensor -> Tensor -> nat -> option Tensor.

Abbreviation Trainer := (Trainer Tensor).
Abbreviation superimposed := (superimposed Tensor mm transpose svd dot).
Abbreviation iteration := (iteration Tensor mm transpose svd dot mean_stack).
Abbreviation assemble := (assemble Tensor rows_at).
Abbreviation covers := (covers Tensor).
Abbreviation simple_procrustes :=
  (simple_procrustes Tensor mm transpose svd dot rows_at).
Abbreviation generalized_procrustes :=
  (generalized_procrustes Tensor mm transpose svd dot mean_stack rows_at).

Implicit Types (t s : Trainer) (X : pydict Tensor) (m : gmap string Tensor).

Lemma getitem_reads m (k : string) : reads (getitem Tensor (S := Trainer) m k).
Proof. intros s. unfold getitem. destruct (m !! k); reflexivity. Qed.

Lemma matched_points_reads (emb dico : Tensor) (i : nat) :
  reads (matched_points Tensor rows_at (S := Trainer) emb dico i).
Proof. intros s. unfold matched_points. destruct (rows_at _ _ _); reflexivity. Qed.

Lemma target_points_reads t (i : nat) (langs : list string) X :
  reads (target_points Tensor rows_at t i langs X).
Proof.
  revert i X. induction langs as [|l langs IH]; intros i X; [reflexivity|].
  cbn [target_points]. apply bind_reads; [apply getitem_reads|]. intros e.
  apply bind_reads; [apply matched_points_reads|]. intros x. apply IH.
Qed.

Lemma assemble_reads (support : bool) : reads (assemble support).
Proof.
  unfold Procrustes.assemble. apply bind_reads; [reflexivity|]. intros t.
  apply bind_reads.
  { destruct support; cbn [negb]; [reflexivity|].
    apply bind_reads; [|reflexivity].
    intros s. unfold last_item. destruct (last _); reflexivity. }
  intros lang_list. apply bind_reads; [apply target_points_reads|]. intros X.
  apply bind_reads; [apply matched_points_reads|]. intros x0.
  apply bind_reads; [|reflexivity].
  apply mapM_reads. intros k. apply getitem_reads.
Qed.

Lemma reference_reads X (initial_run : bool) t :
  reads (if initial_run then
           l0 ← first_item (tgt_lang Tensor t);
           dict_getitem Tensor X l0
         else get_group_average Tensor mm mean_stack X).
Proof.
  destruct initial_run.
  - apply bind_reads.
    + intros s. unfold first_item. destruct (tgt_lang Tensor t); reflexivity.
    + intros l0 s. unfold dict_getitem. destruct (dict_get l0 X); reflexivity.
  - unfold get_group_average. apply bind_reads; [reflexivity|]. intros t0.
    apply bind_reads; [|reflexivity]. apply mapM_reads. intros kv.
    apply bind_reads; [apply getitem_reads|reflexivity].
Qed.

(** One iteration fails before it writes, or superimposes every language
    of [X]. *)
Lemma iteration_frame X (initial_run : bool) s :
  covers X (mapping Tensor s) ->
  (exists e, iteration X initial_run s = (Raise e, s))
  \/ (exists G, iteration X initial_run s
                = (Ok false,
                   with_mapping Tensor (superimposed X G (mapping Tensor s)) s)).
Proof.
  intros Hc. unfold Procrustes.iteration. rewrite run_bind. cbn [get].
  rewrite run_bind. pose proof (reference_reads X initial_run s s) as Hr.
  match goal with
  | |- context [match ?c s with _ => _ end] =>
      destruct (c s) as [[G|e] s1] eqn:E
  end; cbn in Hr; subst s1.
  - right. exists G. rewrite run_bind.
    rewrite (superimpose_run Tensor mm transpose svd dot X G s Hc). reflexivity.
  - left. exists e. reflexivity.
Qed.

Lemma superimposed_is_Some X G m (lang : string) :
  covers X m ->
  is_Some (superimposed X G m !! lang) <-> is_Some (m !! lang).
Proof.
  revert m. induction X as [|[k x] X IH]; intros m Hc; [reflexivity|].
  apply covers_cons in Hc as [Hk Hc]. unfold Procrustes.superimposed in *.
  cbn [foldl fst snd]. rewrite IH by (apply covers_insert; exact Hc).
  rewrite lookup_insert. case_decide as Heq; [|reflexivity].
  subst lang. split; [intros _; exact Hk|intros _; eexists; reflexivity].
Qed.

(** The loop writes mappings only, only those of the languages of [X],
    and creates none. *)
Lemma for_range_frame X (n : nat) (initial_run : bool) s :
  covers X (mapping Tensor s) ->
  exists m',
    snd (for_range n (iteration X) initial_run s) = with_mapping Tensor m' s
    /\ (forall lang, dict_get lang X = None ->
                     m' !! lang = mapping Tensor s !! lang)
    /\ (forall lang, is_Some (m' !! lang) <-> is_Some (mapping Tensor s !! lang)).
Proof.
  revert initial_run s. induction n as [|n IH]; intros initial_run s Hc.
  - exists (mapping Tensor s). cbn. rewrite with_mapping_id.
    repeat split; auto.
  - cbn [for_range]. rewrite run_bind.
    destruct (iteration_frame X initial_run s Hc) as [[e ->]|[G ->]].
    + exists (mapping Tensor s). cbn. rewrite with_mapping_id.
      repeat split; auto.
    + destruct (IH false
                  (with_mapping Tensor (superimposed X G (mapping Tensor s)) s))
        as (m' & Hrun & Hother & Hsome).
      { cbn. apply covers_superimposed. exact Hc. }
      exists m'. split; [rewrite Hrun; reflexivity|]. split.
      * intros lang Hl. rewrite (Hother lang Hl). cbn.
        apply superimposed_other. exact Hl.
      * intros lang. rewrite (Hsome lang). cbn.
        apply superimposed_is_Some. exact Hc.
Qed.

(** X21: in every outcome, [generalized_procrustes] changes nothing but
    mappings and creates no mapping; the mapping of a language that does
    not take part (without support: every target language but the last)
    is left as it was. *)
Theorem generalized_procrustes_frame (support initial_run : bool) t :
  only_mappings_differ t (snd (generalized_procrustes support initial_run t))
  /\ (forall lang,
        is_Some (mapping Tensor
                   (snd (generalized_procrustes support initial_run t)) !! lang)
        <-> is_Some (mapping Tensor t !! lang))
  /\ (forall lang,
        left_out support t lang ->
        mapping Tensor (snd (generalized_procrustes support initial_run t))
          !! lang
        = mapping Tensor t !! lang).
Proof.
  unfold Procrustes.generalized_procrustes. rewrite run_bind.
  pose proof (assemble_reads support t) as Hreads.
  destruct (assemble support t) as [[X|e] t1] eqn:Hasm; cbn in Hreads; subst t1;
    [|cbn; unfold only_mappings_differ; rewrite with_mapping_id;
      repeat split; auto].
  destruct (assemble_covers _ _ _ _ _ _ Hasm) as (_ & Hc & _).
  destruct (for_range_frame X 100 initial_run t Hc)
    as (m' & Hrun & Hother & Hsome).
  rewrite run_bind.
  destruct (for_range 100 (iteration X) initial_run t) as [[b|e] t2];
    cbn [snd] in Hrun |- *; subst t2; cbn [mapping with_mapping];
    (split; [reflexivity|]); (split; [exact Hsome|]);
    intros lang [Hsrc Hout]; apply Hother;
    apply assemble_run in Hasm
      as (_ & lang_list & X1 & x0 & Hll & Htp & _ & -> & _);
    apply target_points_run in Htp as (_ & _ & _ & Hget);
    (rewrite dict_get_set_ne by congruence);
    (rewrite Hget; [reflexivity|]);
    (destruct support; cbn in Hll;
     [subst lang_list; exact Hout
     |destruct Hll as (l & Hlast & ->); intros Hin;
      apply list_elem_of_singleton in Hin; congruence]).
Qed.

(** X22: in every outcome, [simple_procrustes] changes nothing but the
    mapping of the source language, which must exist already; when it
    raises, nothing at all has changed. *)
Theorem simple_procrustes_frame t :
  only_mappings_differ t (snd (simple_procrustes t))
  /\ (forall lang, lang <> src_lang Tensor t ->
        mapping Tensor (snd (simple_procrustes t)) !! lang
        = mapping Tensor t !! lang)
  /\ (forall e, fst (simple_procrustes t) = Raise e ->
                snd (simple_procrustes t) = t)
  /\ (mapping Tensor t !! src_lang Tensor t = None ->
      exists e, simple_procrustes t = (Raise e, t)).
Proof.
  unfold Procrustes.simple_procrustes, only_mappings_differ.
  rewrite run_bind. cbn [get]. unfold matched_points, last_item, getitem.
  rewrite run_bind.
  destruct (rows_at (src_emb Tensor t) (dico Tensor t) 0) as [A|];
    [|cbn; rewrite with_mapping_id; repeat split; eauto].
  cbn [ret]. rewrite run_bind.
  destruct (last (tgt_lang Tensor t)) as [l|];
    [|cbn; rewrite with_mapping_id; repeat split; eauto].
  cbn [ret]. rewrite run_bind.
  destruct (tgt_emb Tensor t !! l) as [e|];
    [|cbn; rewrite with_mapping_id; repeat split; eauto].
  cbn [ret]. rewrite run_bind.
  destruct (rows_at e (dico Tensor t) 1) as [B|];
    [|cbn; rewrite with_mapping_id; repeat split; eauto].
  cbn [ret]. rewrite run_bind.
  destruct (mapping Tensor t !! src_lang Tensor t) as [w0|] eqn:Hw;
    [|cbn; rewrite with_mapping_id; repeat split; eauto].
  cbn [ret].
  rewrite (copy_to_mapping_run Tensor (src_lang Tensor t) _ t)
    by (rewrite Hw; eexists; reflexivity).
  cbn. split; [reflexivity|]. split; [|split; discriminate].
  intros lang Hne. apply lookup_insert_ne. congruence.
Qed.

End Solver.

(** *** Instances *)

Lemma generalized_procrustes_frame_witness :
  mapping Q (snd (scalar_solver false false trainer_en_es_fr)) !! "es"%string
  = mapping Q trainer_en_es_fr !! "es"%string.
Proof.
  apply (generalized_procrustes_frame Q Qmult (fun x => x) scalar_svd Qmult
           scalar_mean scalar_rows false false trainer_en_es_fr).
  split; [discriminate|]. cbn. discriminate.
Defined.

Lemma simple_procrustes_frame_witness :
  mapping Q (snd (simple_procrustes Q Qmult (fun x => x) scalar_svd Qmult
                    scalar_rows trainer_en_es_fr)) !! "fr"%string
  = mapping Q trainer_en_es_fr !! "fr"%string.
Proof.
  apply (simple_procrustes_frame Q Qmult (fun x => x) scalar_svd Qmult
           scalar_rows trainer_en_es_fr).
  discriminate.
Defined.

End ProcrustesFrame.

(** ** Properties of saving and reloading the best mapping *)

Module CheckpointSpec.
Import Checkpoint.

Lemma for_in_app {S A} (l1 l2 : list A) (body : A -> Py S unit) (s : S) :
  for_in (l1 ++ l2) body s
  = match for_in l1 body s with
    | (Ok _, s1) => for_in l2 body s1
    | (Raise e, s1) => (Raise e, s1)
    end.
Proof.
  revert s. induction l1 as [|x l1 IH]; intros s; [reflexivity|].
  cbn [app for_in]. rewrite !run_bind.
  destruct (body x s) as [[u|e] s1]; [apply IH|reflexivity].
Qed.

Section Files.

Variable Tensor : Type.
Variable Array : Type.
Variable size : Tensor -> list Z.
Variable type_as : Tensor -> Tensor -> Tensor.
Variable to_numpy : Tensor -> Array.
Variable from_numpy : Array -> Tensor.
Variable Files : Type.
Variable torch_save : string -> Array -> Files -> Files.
Variable torch_load : Files -> string -> result Array.
Variable path_join : string -> string -> string.

Abbreviation Trainer := (Trainer Tensor Files).
Abbreviation path_of := (path_of path_join).
Abbreviation reloadable :=
  (reloadable Tensor Array size from_numpy Files torch_load path_join).
Abbreviation reload_one :=
  (reload_one Tensor Array size type_as from_numpy Files torch_load path_join).
Abbreviation reload_best :=
  (reload_best Tensor Array size type_as from_numpy Files torch_load path_join).
Abbreviation save_mappings :=
  (save_mappings Tensor Array to_numpy Files torch_save path_join).
Abbreviation keeps_files := (keeps_files Array Files torch_save torch_load).
Abbreviation distinct_paths := (distinct_paths path_join).
Abbreviation set_mapping := (set_mapping Tensor Files).
Abbreviation set_files := (set_files Tensor Files).
Abbreviation logger_info := (logger_info Tensor Files).

Implicit Types (t : Trainer) (p : Params) (lang : string) (a : Array)
  (w : Tensor).

Lemma reload_one_ok p t lang a w :
  reloadable p t lang a w ->
  reload_one p lang t
  = (Ok tt,
     set_mapping lang (type_as (from_numpy a) w)
       (logger_info "* Reloading the best model from %s ..." t)).
Proof.
  intros (Hload & Hw & Hsize). unfold Checkpoint.reload_one, getitem.
  rewrite run_bind. cbn [get]. rewrite run_bind, Hload. cbn [ret].
  rewrite run_bind, Hw. cbn [ret]. rewrite run_bind. cbn [modify].
  rewrite run_bind. unfold py_assert.
  rewrite bool_decide_eq_true_2 by exact Hsize. reflexivity.
Qed.

Lemma reload_one_mismatch p t lang a w :
  torch_load (files _ _ t) (path_of p lang) = Ok a ->
  mapping _ _ t !! lang = Some w ->
  size (from_numpy a) <> size w ->
  reload_one p lang t
  = (Raise AssertionError,
     logger_info "* Reloading the best model from %s ..." t).
Proof.
  intros Hload Hw Hsize. unfold Checkpoint.reload_one, getitem.
  rewrite run_bind. cbn [get]. rewrite run_bind, Hload. cbn [ret].
  rewrite run_bind, Hw. cbn [ret]. rewrite run_bind. cbn [modify].
  rewrite run_bind. unfold py_assert.
  rewrite bool_decide_eq_false_2 by exact Hsize. reflexivity.
Qed.

(** The loop over languages that all reload. *)
Lemma reload_loop p (langs : list string) t :
  NoDup langs ->
  (forall lang, lang ∈ langs -> exists a w, reloadable p t lang a w) ->
  exists t',
    for_in langs (reload_one p) t = (Ok tt, t')
    /\ (forall lang a w, lang ∈ langs -> reloadable p t lang a w ->
          mapping _ _ t' !! lang = Some (type_as (from_numpy a) w))
    /\ (forall lang, lang ∉ langs ->
          mapping _ _ t' !! lang = mapping _ _ t !! lang)
    /\ files _ _ t' = files _ _ t
    /\ log _ _ t' = log _ _ t ++ replicate (length langs) reloading.
Proof.
  revert t. induction langs as [|l langs IH]; intros t Hnd Hall.
  - exists t. split; [reflexivity|]. split; [|split; [|split]].
    + intros lang a w Hin. apply elem_of_nil in Hin. contradiction.
    + reflexivity.
    + reflexivity.
    + cbn. rewrite app_nil_r. reflexivity.
  - apply NoDup_cons in Hnd as [Hl Hnd].
    destruct (Hall l) as (a & w & Hr); [apply elem_of_cons; left; reflexivity|].
    set (t1 := set_mapping l (type_as (from_numpy a) w)
                 (logger_info "* Reloading the best model from %s ..." t)).
    assert (forall lang, lang <> l ->
              mapping _ _ t1 !! lang = mapping _ _ t !! lang) as Hother.
    { intros lang Hne. cbn. apply lookup_insert_ne. congruence. }
    destruct (IH t1 Hnd) as (t' & Hrun & Hin & Hout & Hfiles & Hlog).
    { intros lang Hlang. destruct (Hall lang) as (a' & w' & Hl1 & Hl2 & Hl3);
        [apply elem_of_cons; right; exact Hlang|].
      exists a', w'. split; [exact Hl1|]. split; [|exact Hl3].
      rewrite Hother; [exact Hl2|]. intros ->. contradiction. }
    exists t'. split; [|split; [|split; [|split]]].
    + cbn [for_in]. rewrite (run_bind_ok _ _ _ _ _ (reload_one_ok _ _ _ _ _ Hr)).
      exact Hrun.
    + intros lang a' w' Hlang (Hl1 & Hl2 & Hl3).
      apply elem_of_cons in Hlang as [->|Hlang].
      * rewrite (Hout l Hl). destruct Hr as (Hr1 & Hr2 & _).
        assert (a' = a) as -> by congruence. assert (w' = w) as -> by congruence.
        cbn. apply lookup_insert_eq.
      * apply Hin; [exact Hlang|]. split; [exact Hl1|]. split; [|exact Hl3].
        rewrite Hother; [exact Hl2|]. intros ->. contradiction.
    + intros lang Hlang. apply not_elem_of_cons in Hlang as [Hne Hlang].
      rewrite (Hout lang Hlang). apply Hother. exact Hne.
    + rewrite Hfiles. reflexivity.
    + rewrite Hlog. cbn. rewrite <- app_assoc. reflexivity.
Qed.

(** X23: when the languages (the targets, then the source) are distinct
    and each has a readable file and a mapping of the file's shape,
    [reload_best] returns, every one of these mappings holds its file's
    content, every other mapping is as it was, and the log has one line
    per language. *)
Theorem reload_best_restores p t :
  NoDup (tgt_lang p ++ [src_lang p]) ->
  (forall lang, lang ∈ tgt_lang p ++ [src_lang p] ->
                exists a w, reloadable p t lang a w) ->
  exists t',
    reload_best p t = (Ok tt, t')
    /\ (forall lang a w, lang ∈ tgt_lang p ++ [src_lang p] ->
          reloadable p t lang a w ->
          mapping _ _ t' !! lang = Some (type_as (from_numpy a) w))
    /\ (forall lang, lang ∉ tgt_lang p ++ [src_lang p] ->
          mapping _ _ t' !! lang = mapping _ _ t !! lang)
    /\ log _ _ t'
       = log _ _ t ++ replicate (length (tgt_lang p ++ [src_lang p])) reloading.
Proof.
  intros Hnd Hall.
  destruct (reload_loop p _ t Hnd Hall) as (t' & Hrun & Hin & Hout & _ & Hlog).
  exists t'. repeat split; assumption.
Qed.

(** X24: reloading is not all-or-nothing: when the file of a language
    has another shape than its mapping, [reload_best] fails its assertion
    there, after the line of that language is logged; the mappings of the
    languages before it are already overwritten, and the others are as
    they were. *)
Theorem reload_best_stops_at_mismatch p t (pre post : list string) lang a w :
  tgt_lang p ++ [src_lang p] = pre ++ lang :: post ->
  NoDup (pre ++ [lang]) ->
  (forall l, l ∈ pre -> exists a w, reloadable p t l a w) ->
  torch_load (files _ _ t) (path_of p lang) = Ok a ->
  mapping _ _ t !! lang = Some w ->
  size (from_numpy a) <> size w ->
  exists t',
    reload_best p t = (Raise AssertionError, t')
    /\ (forall l a w, l ∈ pre -> reloadable p t l a w ->
          mapping _ _ t' !! l = Some (type_as (from_numpy a) w))
    /\ (forall l, l ∉ pre -> mapping _ _ t' !! l = mapping _ _ t !! l)
    /\ log _ _ t' = log _ _ t ++ replicate (S (length pre)) reloading.
Proof.
  intros Hlangs Hnd Hpre Hload Hw Hsize.
  apply NoDup_app in Hnd as (Hndpre & Hdisj & _).
  destruct (reload_loop p pre t Hndpre Hpre)
    as (t1 & Hrun & Hin & Hout & Hfiles & Hlog).
  assert (lang ∉ pre) as Hlang.
  { intros Hl. apply (Hdisj lang Hl). apply list_elem_of_singleton. reflexivity. }
  exists (logger_info "* Reloading the best model from %s ..." t1).
  split; [|split; [|split]].
  - unfold Checkpoint.reload_best. rewrite Hlangs, for_in_app, Hrun.
    cbn [for_in]. rewrite run_bind.
    rewrite (reload_one_mismatch p t1 lang a w); [reflexivity| | |exact Hsize].
    + rewrite Hfiles. exact Hload.
    + rewrite (Hout lang Hlang). exact Hw.
  - exact Hin.
  - exact Hout.
  - cbn [Checkpoint.logger_info log]. rewrite Hlog, <- app_assoc.
    change [(INFO, "* Reloading the best model from %s ..."%string)]
      with (replicate 1 reloading).
    rewrite <- replicate_add, Nat.add_1_r. reflexivity.
Qed.

(** The arrays of [W]. *)
Lemma snapshot_run (langs : list string) t :
  (forall lang, lang ∈ langs -> is_Some (mapping _ _ t !! lang)) ->
  exists W,
    mapM (M := Py Trainer)
      (fun lang => w ← getitem Tensor Files (mapping _ _ t) lang;
                   ret (lang, to_numpy w)) langs t
    = (Ok W, t)
    /\ forall (d : gmap string Array) lang,
         foldl (fun d kv => <[fst kv := snd kv]> d) d W !! lang
         = if bool_decide (lang ∈ langs)
           then to_numpy <$> mapping _ _ t !! lang
           else d !! lang.
Proof.
  induction langs as [|l langs IH]; intros Hall.
  - exists []. split; [reflexivity|]. intros d lang.
    rewrite bool_decide_eq_false_2 by apply not_elem_of_nil. reflexivity.
  - destruct (Hall l) as [w Hw]; [apply elem_of_cons; left; reflexivity|].
    destruct IH as (W & Hrun & Hlook).
    { intros lang Hlang. apply Hall, elem_of_cons. right. exact Hlang. }
    exists ((l, to_numpy w) :: W). split.
    + rewrite run_mapM_cons.
      assert ((w0 ← getitem Tensor Files (mapping _ _ t) l;
               ret (l, to_numpy w0)) t = (Ok (l, to_numpy w), t)) as ->.
      { rewrite run_bind. unfold getitem. rewrite Hw. reflexivity. }
      rewrite Hrun. reflexivity.
    + intros d lang. cbn [foldl fst snd]. rewrite Hlook.
      destruct (decide (lang ∈ langs)) as [Hin|Hin].
      * rewrite !bool_decide_eq_true_2;
          [reflexivity|apply elem_of_cons; right; exact Hin|exact Hin].
      * rewrite (bool_decide_eq_false_2 _ Hin).
        destruct (decide (lang = l)) as [->|Hne].
        -- rewrite bool_decide_eq_true_2 by (apply elem_of_cons; left; reflexivity).
           rewrite lookup_insert_eq, Hw. reflexivity.
        -- rewrite bool_decide_eq_false_2
             by (intros Hc; apply elem_of_cons in Hc as [?|?]; contradiction).
           apply lookup_insert_ne. congruence.
Qed.

(** The saving loop: each language's file then holds its array. *)
Lemma save_loop p (W : gmap string Array) (langs : list string) t :
  keeps_files ->
  distinct_paths p ->
  (forall lang, lang ∈ langs -> is_Some (W !! lang)) ->
  exists t',
    for_in langs
      (fun lang =>
         modify (logger_info "* Saving the mapping to %s ...");;
         a ← getitem Tensor Files W lang;
         modify (fun t => set_files (torch_save (path_of p lang) a
                                       (files _ _ t)) t)) t
    = (Ok tt, t')
    /\ mapping _ _ t' = mapping _ _ t
    /\ (forall lang a, lang ∈ langs -> W !! lang = Some a ->
          torch_load (files _ _ t') (path_of p lang) = Ok a)
    /\ (forall lang, lang ∉ langs ->
          torch_load (files _ _ t') (path_of p lang)
          = torch_load (files _ _ t) (path_of p lang)).
Proof.
  intros [Hsame Hother] Hpaths. revert t.
  induction langs as [|l langs IH]; intros t Hall.
  - exists t. split; [reflexivity|]. split; [reflexivity|]. split; [|reflexivity].
    intros lang a Hin. apply elem_of_nil in Hin. contradiction.
  - destruct (Hall l) as [a Ha]; [apply elem_of_cons; left; reflexivity|].
    set (t1 := set_files (torch_save (path_of p l) a (files _ _ t))
                 (logger_info "* Saving the mapping to %s ..." t)).
    destruct (IH t1) as (t' & Hrun & Hmap & Hin & Hout).
    { intros lang Hlang. apply Hall, elem_of_cons. right. exact Hlang. }
    exists t'. split; [|split; [|split]].
    + cbn [for_in]. rewrite run_bind, run_bind. cbn [modify].
      rewrite run_bind. unfold getitem at 1. rewrite Ha. cbn [ret modify].
      exact Hrun.
    + rewrite Hmap. reflexivity.
    + intros lang a' Hlang Ha'.
      destruct (decide (lang ∈ langs)) as [Hl|Hl]; [apply Hin; assumption|].
      apply elem_of_cons in Hlang as [->|Hlang]; [|contradiction].
      rewrite (Hout l Hl). cbn. assert (a' = a) as -> by congruence.
      apply Hsame.
    + intros lang Hlang. apply not_elem_of_cons in Hlang as [Hne Hlang].
      rewrite (Hout lang Hlang). cbn. apply Hother.
      intros Heq. apply Hpaths in Heq. contradiction.
Qed.

(** X25: saving then reloading is a round trip.  On a file system that
    keeps what is saved, with distinct files for distinct languages,
    [save_mappings] writes every language's mapping; whatever the
    mappings are changed to afterwards (keeping their shapes), a later
    [reload_best] puts back, for each language, the array that was saved,
    converted back to a tensor of the mapping's type. *)
Theorem save_then_reload_restores p t t1 t2 :
  keeps_files ->
  distinct_paths p ->
  NoDup (tgt_lang p ++ [src_lang p]) ->
  (forall lang, lang ∈ src_lang p :: tgt_lang p ->
                is_Some (mapping _ _ t !! lang)) ->
  save_mappings p t = (Ok tt, t1) ->
  files _ _ t2 = files _ _ t1 ->
  (forall lang w, lang ∈ src_lang p :: tgt_lang p ->
     mapping _ _ t !! lang = Some w ->
     exists w2, mapping _ _ t2 !! lang = Some w2
                /\ size (from_numpy (to_numpy w)) = size w2) ->
  exists t3,
    reload_best p t2 = (Ok tt, t3)
    /\ forall lang w w2, lang ∈ src_lang p :: tgt_lang p ->
         mapping _ _ t !! lang = Some w ->
         mapping _ _ t2 !! lang = Some w2 ->
         mapping _ _ t3 !! lang
         = Some (type_as (from_numpy (to_numpy w)) w2).
Proof.
  intros Hfs Hpaths Hnd Hall Hsave Hfiles Hshapes.
  assert (forall lang, lang ∈ tgt_lang p ++ [src_lang p]
                       <-> lang ∈ src_lang p :: tgt_lang p) as Hsame.
  { intros lang. rewrite elem_of_app, !elem_of_cons. split.
    - intros [H|[H|H]]; [right; exact H|left; exact H|].
      apply elem_of_nil in H. contradiction.
    - intros [H|H]; [right; left; exact H|left; exact H]. }
  unfold Checkpoint.save_mappings in Hsave. rewrite run_bind in Hsave.
  cbn [get] in Hsave.
  destruct (snapshot_run (src_lang p :: tgt_lang p) t Hall) as (W & HW & Hlook).
  rewrite (run_bind_ok _ _ _ _ _ HW) in Hsave.
  destruct (save_loop p (foldl (fun d kv => <[fst kv := snd kv]> d) ∅ W)
              (src_lang p :: tgt_lang p) t Hfs Hpaths)
    as (t1' & Hloop & _ & Hin & _).
  { intros lang Hlang. rewrite Hlook, bool_decide_eq_true_2 by exact Hlang.
    destruct (Hall lang Hlang) as [w ->]. eexists. reflexivity. }
  rewrite Hloop in Hsave. injection Hsave as <-.
  assert (forall lang w w2, lang ∈ src_lang p :: tgt_lang p ->
            mapping _ _ t !! lang = Some w ->
            mapping _ _ t2 !! lang = Some w2 ->
            reloadable p t2 lang (to_numpy w) w2) as Hreload.
  { intros lang w w2 Hlang Hw Hw2. split; [|split; [exact Hw2|]].
    - rewrite Hfiles. apply Hin; [exact Hlang|].
      rewrite Hlook, bool_decide_eq_true_2, Hw by exact Hlang. reflexivity.
    - destruct (Hshapes lang w Hlang Hw) as (w2' & Hw2' & Hsize). congruence. }
  destruct (reload_loop p (tgt_lang p ++ [src_lang p]) t2 Hnd)
    as (t3 & Hrun & Hrestored & _).
  { intros lang Hlang. apply Hsame in Hlang.
    destruct (Hall lang Hlang) as [w Hw].
    destruct (Hshapes lang w Hlang Hw) as (w2 & Hw2 & _).
    exists (to_numpy w), w2. apply Hreload; assumption. }
  exists t3. split; [exact Hrun|].
  intros lang w w2 Hlang Hw Hw2. apply Hrestored; [apply Hsame; exact Hlang|].
  apply Hreload; assumption.
Qed.

End Files.

(** *** Instances *)

Abbreviation disk_reload :=
  (reload_best (list Z) (list Z) vec_size vec_type_as vec_id
     (gmap string (list Z)) disk_load slash_join).
Abbreviation disk_reloadable :=
  (reloadable (list Z) (list Z) vec_size vec_id (gmap string (list Z))
     disk_load slash_join).
Abbreviation disk_save_mappings :=
  (save_mappings (list Z) (list Z) vec_id (gmap string (list Z)) disk_save
     slash_join).

Lemma disk_keeps_files : keeps_files (list Z) _ disk_save disk_load.
Proof.
  split.
  - intros f path a. unfold disk_load, disk_save. rewrite lookup_insert_eq.
    reflexivity.
  - intros f path path' a Hne. unfold disk_load, disk_save.
    rewrite lookup_insert_ne by congruence. reflexivity.
Qed.

Lemma length_append (a b : string) :
  String.length (a ++ b) = (String.length a + String.length b)%nat.
Proof.
  induction a as [|c a IH]; [reflexivity|].
  change (S (String.length (a ++ b)) = S (String.length a + String.length b)).
  f_equal. exact IH.
Qed.

Lemma append_inj_suffix (a b s : string) :
  (a ++ s)%string = (b ++ s)%string -> a = b.
Proof.
  revert b. induction a as [|c a IH]; intros [|c' b] H.
  - reflexivity.
  - apply (f_equal String.length) in H. rewrite !length_append in H.
    cbn [String.length] in H. lia.
  - apply (f_equal String.length) in H. rewrite !length_append in H.
    cbn [String.length] in H. lia.
  - cbn in H. injection H as -> H. f_equal. apply IH. exact H.
Qed.

Lemma slash_distinct_paths p : distinct_paths slash_join p.
Proof.
  intros lang lang'. unfold path_of, slash_join. intros H.
  apply String.app_inj in H. cbn in H. injection H as H.
  exact (append_inj_suffix lang lang' ".pth" H).
Qed.

Lemma reload_best_restores_witness :
  exists t',
    disk_reload (params_exp ["es"%string]) trainer_2d = (Ok tt, t')
    /\ (forall lang a w, lang ∈ ["es"; "en"]%string ->
          disk_reloadable (params_exp ["es"%string]) trainer_2d lang a w ->
          mapping _ _ t' !! lang = Some (vec_type_as (vec_id a) w))
    /\ (forall lang, lang ∉ ["es"; "en"]%string ->
          mapping _ _ t' !! lang = mapping _ _ trainer_2d !! lang)
    /\ log _ _ t' = log _ _ trainer_2d ++ replicate 2 reloading.
Proof.
  apply (reload_best_restores (list Z) (list Z) vec_size vec_type_as vec_id
           (gmap string (list Z)) disk_load slash_join
           (params_exp ["es"%string]) trainer_2d).
  - apply (bool_decide_unpack _). vm_compute. reflexivity.
  - intros lang Hl. apply elem_of_cons in Hl as [->|Hl].
    + exists [0; 1], [6; 6]. repeat split; reflexivity.
    + apply list_elem_of_singleton in Hl as ->.
      exists [1; 0], [5; 5]. repeat split; reflexivity.
Defined.

Lemma reload_best_stops_at_mismatch_witness :
  exists t',
    disk_reload (params_exp ["es"; "fr"]%string) trainer_2d
      = (Raise AssertionError, t')
    /\ (forall l a w, l ∈ ["es"%string] ->
          disk_reloadable (params_exp ["es"; "fr"]%string) trainer_2d l a w ->
          mapping _ _ t' !! l = Some (vec_type_as (vec_id a) w))
    /\ (forall l, l ∉ ["es"%string] ->
          mapping _ _ t' !! l = mapping _ _ trainer_2d !! l)
    /\ log _ _ t' = log _ _ trainer_2d ++ replicate 2 reloading.
Proof.
  apply (reload_best_stops_at_mismatch (list Z) (list Z) vec_size vec_type_as
           vec_id (gmap string (list Z)) disk_load slash_join
           (params_exp ["es"; "fr"]%string) trainer_2d
           ["es"%string] ["en"%string] "fr"%string [7; 7; 7] [8; 8]).
  - reflexivity.
  - apply (bool_decide_unpack _). vm_compute. reflexivity.
  - intros l Hl. apply list_elem_of_singleton in Hl as ->.
    exists [0; 1], [6; 6]. repeat split; reflexivity.
  - reflexivity.
  - reflexivity.
  - discriminate.
Defined.

Lemma save_then_reload_restores_witness :
  exists t3,
    disk_reload (params_exp ["es"%string])
      (set_mapping _ _ "es" [9; 9]
         (snd (disk_save_mappings (params_exp ["es"%string]) trainer_new)))
    = (Ok tt, t3)
    /\ forall lang w w2, lang ∈ ["en"; "es"]%string ->
         mapping _ _ trainer_new !! lang = Some w ->
         mapping _ _
           (set_mapping _ _ "es" [9; 9]
              (snd (disk_save_mappings (params_exp ["es"%string]) trainer_new)))
           !! lang = Some w2 ->
         mapping _ _ t3 !! lang = Some (vec_type_as (vec_id (vec_id w)) w2).
Proof.
  apply (save_then_reload_restores (list Z) (list Z) vec_size vec_type_as
           vec_id vec_id (gmap string (list Z)) disk_save disk_load slash_join
           (params_exp ["es"%string]) trainer_new
           (snd (disk_save_mappings (params_exp ["es"%string]) trainer_new))).
  - apply disk_keeps_files.
  - apply slash_distinct_paths.
  - apply (bool_decide_unpack _). vm_compute. reflexivity.
  - intros lang Hl. apply elem_of_cons in Hl as [->|Hl];
      [eexists; reflexivity|].
    apply list_elem_of_singleton in Hl as ->. eexists. reflexivity.
  - vm_compute. reflexivity.
  - reflexivity.
  - intros lang w Hl Hw. apply elem_of_cons in Hl as [->|Hl].
    + injection Hw as <-. exists [5; 5]. split; reflexivity.
    + apply list_elem_of_singleton in Hl as ->. injection Hw as <-.
      exists [9; 9]. split; reflexivity.
Defined.

End CheckpointSpec.

(** ** Properties of the cross-lingual word similarity evaluation *)

Module WordSimSpec.
Import WordSim.

Lemma ws_key_inj (a b : string) : ws_key a = ws_key b -> a = b.
Proof. unfold ws_key. cbn. intros H. injection H as H. exact H. Qed.

Lemma ws_key_not_prefixed (lang lang' k : string) :
  (("src_tgt_" ++ lang) ++ k)%string <> ws_key lang'.
Proof. unfold ws_key. cbn. discriminate. Qed.

Section Evaluator.

Variable Emb : Type.
Variable Map : Type.
Variable Dico : Type.
Variable V : Type.
Variable apply_mapping : Map -> Emb -> Emb.
Variable get_crosslingual_wordsim_scores :
  Dico -> Emb -> Dico -> Emb -> result (option (list (string * V))).
Variable np_mean : list V -> V.

Abbreviation Evaluator := (Evaluator Emb Map Dico).
Abbreviation Out := (Out V).
Abbreviation wordsim_loop :=
  (wordsim_loop Emb Map Dico V apply_mapping get_crosslingual_wordsim_scores
     np_mean).
Abbreviation crosslingual_wordsim :=
  (crosslingual_wordsim Emb Map Dico V apply_mapping
     get_crosslingual_wordsim_scores np_mean).
Abbreviation evaluates :=
  (evaluates Emb Map Dico V apply_mapping get_crosslingual_wordsim_scores).

Implicit Types (ev : Evaluator) (o : Out) (lang : string).

Lemma update_prefixed_log (prefix : string) (scores : list (string * V)) o :
  log V (update_prefixed V prefix scores o) = log V o.
Proof.
  revert o. induction scores as [|kv scores IH]; intros o; [reflexivity|].
  unfold update_prefixed in *. cbn [foldl]. rewrite IH. reflexivity.
Qed.

Lemma update_prefixed_other (prefix key : string)
    (scores : list (string * V)) o :
  (forall k, (prefix ++ k)%string <> key) ->
  to_log V (update_prefixed V prefix scores o) !! key = to_log V o !! key.
Proof.
  intros Hne. revert o. induction scores as [|kv scores IH]; intros o;
    [reflexivity|].
  unfold update_prefixed in *. cbn [foldl]. rewrite IH. cbn.
  apply lookup_insert_ne. apply Hne.
Qed.

(** One language that has data. *)
Lemma wordsim_loop_scored ev (m0 : Map) lang (scores : list (string * V))
    (rest : list string) o :
  mapping _ _ _ ev !! src_lang _ _ _ ev = Some m0 ->
  evaluates ev lang (Some scores) ->
  wordsim_loop ev (apply_mapping m0 (src_emb _ _ _ ev)) (lang :: rest) o
  = wordsim_loop ev (apply_mapping m0 (src_emb _ _ _ ev)) rest
      (update_prefixed V ("src_tgt_" ++ lang) scores
         (setitem V (ws_key lang) (np_mean (map snd scores))
            (logger_info V
               "Cross-lingual word similarity score average %s: %.5f" o))).
Proof.
  intros Hm0 (m0' & m & e & d & Hm0' & Hm & He & Hd & Hscore).
  assert (m0' = m0) as -> by congruence.
  cbn [WordSim.wordsim_loop]. unfold getitem.
  rewrite run_bind, Hm. cbn [ret]. rewrite run_bind, He. cbn [ret].
  rewrite run_bind, Hd. cbn [ret]. rewrite run_bind, Hscore. cbn [ret].
  rewrite run_bind. cbn [modify]. rewrite run_bind. cbn [modify].
  rewrite run_bind. cbn [modify]. reflexivity.
Qed.

Lemma wordsim_loop_no_data ev (m0 : Map) lang (rest : list string) o :
  mapping _ _ _ ev !! src_lang _ _ _ ev = Some m0 ->
  evaluates ev lang None ->
  wordsim_loop ev (apply_mapping m0 (src_emb _ _ _ ev)) (lang :: rest) o
  = (Ok tt, o).
Proof.
  intros Hm0 (m0' & m & e & d & Hm0' & Hm & He & Hd & Hscore).
  assert (m0' = m0) as -> by congruence.
  cbn [WordSim.wordsim_loop]. unfold getitem.
  rewrite run_bind, Hm. cbn [ret]. rewrite run_bind, He. cbn [ret].
  rewrite run_bind, Hd. cbn [ret]. rewrite run_bind, Hscore. reflexivity.
Qed.

(** The scorer's answer for a language is determined by the evaluator. *)
Lemma evaluates_functional ev lang (r r' : option (list (string * V))) :
  evaluates ev lang r -> evaluates ev lang r' -> r = r'.
Proof.
  intros (m0 & m & e & d & Hm0 & Hm & He & Hd & Hr)
         (m0' & m' & e' & d' & Hm0' & Hm' & He' & Hd' & Hr').
  assert (m0' = m0) as -> by congruence.
  assert (m' = m) as -> by congruence.
  assert (e' = e) as -> by congruence.
  assert (d' = d) as -> by congruence.
  congruence.
Qed.

Lemma wordsim_loop_prefix ev (m0 : Map) (pre rest : list string) o :
  mapping _ _ _ ev !! src_lang _ _ _ ev = Some m0 ->
  (forall lang, lang ∈ pre -> exists scores, evaluates ev lang (Some scores)) ->
  exists o',
    wordsim_loop ev (apply_mapping m0 (src_emb _ _ _ ev)) (pre ++ rest) o
    = wordsim_loop ev (apply_mapping m0 (src_emb _ _ _ ev)) rest o'
    /\ log V o'
       = log V o
         ++ replicate (length pre)
              (INFO, "Cross-lingual word similarity score average %s: %.5f"%string)
    /\ (forall lang scores, lang ∈ pre -> evaluates ev lang (Some scores) ->
          to_log V o' !! ws_key lang = Some (np_mean (map snd scores)))
    /\ (forall lang, lang ∉ pre ->
                     to_log V o' !! ws_key lang = to_log V o !! ws_key lang).
Proof.
  intros Hm0. revert o. induction pre as [|l pre IH]; intros o Hall.
  - exists o. split; [reflexivity|]. split; [cbn; rewrite app_nil_r; reflexivity|].
    split; [|auto].
    intros lang scores Hin. apply elem_of_nil in Hin. contradiction.
  - destruct (Hall l) as (scores & Hl); [apply elem_of_cons; left; reflexivity|].
    set (o1 := update_prefixed V ("src_tgt_" ++ l) scores
                 (setitem V (ws_key l) (np_mean (map snd scores))
                    (logger_info V
                       "Cross-lingual word similarity score average %s: %.5f" o))).
    assert (forall lang, to_log V o1 !! ws_key lang
                         = <[ws_key l := np_mean (map snd scores)]> (to_log V o)
                           !! ws_key lang) as Hlook.
    { intros lang. unfold o1. rewrite update_prefixed_other; [reflexivity|].
      intros k. apply ws_key_not_prefixed. }
    destruct (IH o1) as (o' & Hrun & Hlog & Hin & Hout).
    { intros lang Hlang. apply Hall, elem_of_cons. right. exact Hlang. }
    exists o'. split; [|split; [|split]].
    + cbn [app]. rewrite (wordsim_loop_scored ev m0 l scores _ o Hm0 Hl).
      exact Hrun.
    + rewrite Hlog. unfold o1. rewrite update_prefixed_log. cbn.
      rewrite <- app_assoc. reflexivity.
    + intros lang scores' Hlang Hev.
      destruct (decide (lang ∈ pre)) as [Hpre|Hpre]; [apply Hin; assumption|].
      apply elem_of_cons in Hlang as [->|Hlang]; [|contradiction].
      pose proof (evaluates_functional ev l _ _ Hl Hev) as [= <-].
      rewrite (Hout l Hpre), Hlook. apply lookup_insert_eq.
    + intros lang Hlang. apply not_elem_of_cons in Hlang as [Hne Hlang].
      rewrite (Hout lang Hlang), Hlook. apply lookup_insert_ne.
      intros Heq. apply ws_key_inj in Heq. congruence.
Qed.

(** X26: the evaluation stops at the first target language for which
    there is no word similarity data: the languages before it each get a
    log line and, in [to_log], the average of their scores under their
    key, and no language after it is evaluated, whether there is data for
    it or not: the keys of the other languages are as they were. *)
Theorem wordsim_stops_at_first_language_without_data ev o
    (pre post : list string) (l : string) :
  tgt_lang _ _ _ ev = pre ++ l :: post ->
  (forall lang, lang ∈ pre -> exists scores, evaluates ev lang (Some scores)) ->
  evaluates ev l None ->
  exists o',
    crosslingual_wordsim ev o = (Ok tt, o')
    /\ log V o'
       = log V o
         ++ replicate (length pre)
              (INFO, "Cross-lingual word similarity score average %s: %.5f"%string)
    /\ (forall lang scores, lang ∈ pre -> evaluates ev lang (Some scores) ->
          to_log V o' !! ws_key lang = Some (np_mean (map snd scores)))
    /\ (forall lang, lang ∉ pre ->
                     to_log V o' !! ws_key lang = to_log V o !! ws_key lang).
Proof.
  intros Hlangs Hpre Hl.
  pose proof Hl as (m0 & _ & _ & _ & Hm0 & _).
  destruct (wordsim_loop_prefix ev m0 pre (l :: post) o Hm0 Hpre)
    as (o' & Hrun & Hlog & Hin & Hout).
  exists o'. split; [|split; [exact Hlog|split; [exact Hin|exact Hout]]].
  unfold WordSim.crosslingual_wordsim, getitem.
  rewrite run_bind, Hm0. cbn [ret]. rewrite Hlangs, Hrun.
  apply wordsim_loop_no_data; assumption.
Qed.

End Evaluator.

(** *** Instances *)

Lemma wordsim_stops_at_first_language_without_data_witness :
  exists o',
    crosslingual_wordsim unit unit string Z (fun _ e => e) toy_scores toy_mean
      evaluator_es_fr_it out_empty = (Ok tt, o')
    /\ log Z o'
       = log Z out_empty
         ++ replicate (length ["es"%string])
              (INFO, "Cross-lingual word similarity score average %s: %.5f"%string)
    /\ (forall lang scores, lang ∈ ["es"%string] ->
          evaluates unit unit string Z (fun _ e => e) toy_scores
            evaluator_es_fr_it lang (Some scores) ->
          to_log Z o' !! ws_key lang = Some (toy_mean (map snd scores)))
    /\ (forall lang, lang ∉ ["es"%string] ->
                     to_log Z o' !! ws_key lang
                     = to_log Z out_empty !! ws_key lang).
Proof.
  apply (wordsim_stops_at_first_language_without_data unit unit string Z
           (fun _ e => e) toy_scores toy_mean evaluator_es_fr_it out_empty
           ["es"%string] ["it"%string] "fr"%string).
  - reflexivity.
  - intros lang Hl. apply list_elem_of_singleton in Hl as ->.
    exists [("SEMEVAL17"%string, 3)], tt, tt, tt, "es"%string.
    repeat split; reflexivity.
  - exists tt, tt, tt, "fr"%string. repeat split; reflexivity.
Defined.

End WordSimSpec.

(** ** Properties of the nearest-neighbour search *)

Module NearestNeighboursSpec.
Import DicoBuilder NearestNeighbours.

Lemma take_take_drop {A} (a b : nat) (l : list A) :
  take a l ++ take b (drop a l) = take (a + b) l.
Proof.
  revert l. induction a as [|a IH]; intros l; [reflexivity|].
  destruct l as [|x l]; [cbn; rewrite take_nil; reflexivity|].
  cbn. f_equal. apply IH.
Qed.

(** The full batches. *)
Lemma full_batches {A} (l : list A) (n step : Z) (K : nat) :
  0 < step ->
  Z.of_nat K * step <= n ->
  concat (map (fun i => rows_between l i (Z.min n (i + step)))
              (map (fun k => Z.of_nat k * step) (seq 0 K)))
  = take (Z.to_nat (Z.of_nat K * step)) l.
Proof.
  intros Hstep. induction K as [|K IH]; intros Hn; [reflexivity|].
  rewrite seq_S, !map_app, concat_app, IH by lia. cbn [map concat Nat.add].
  rewrite app_nil_r. unfold rows_between.
  rewrite Z.min_r by lia.
  replace (Z.to_nat (Z.of_nat K * step + step - Z.of_nat K * step))
    with (Z.to_nat step) by lia.
  rewrite take_take_drop. f_equal. lia.
Qed.

(** The batches of the loop, one after the other, are the first [n] rows,
    as far as they exist. *)
Lemma batches_cover {A} (l : list A) (n step : Z) :
  0 < step ->
  concat (map (fun i => rows_between l i (Z.min n (i + step)))
              (range_step n step))
  = take (Z.to_nat n) l.
Proof.
  intros Hstep. unfold range_step.
  destruct (Z.le_gt_cases n 0) as [Hn|Hn].
  - replace (Z.to_nat ((n + step - 1) / step)) with 0%nat.
    + replace (Z.to_nat n) with 0%nat by lia. reflexivity.
    + assert ((n + step - 1) / step <= 0); [|lia].
      apply Z.lt_succ_r. apply Z.div_lt_upper_bound; lia.
  - pose proof (Z.mul_div_le (n + step - 1) step Hstep) as Hlo.
    pose proof (Z.mul_succ_div_gt (n + step - 1) step Hstep) as Hhi.
    set (q := (n + step - 1) / step) in *.
    assert (0 < q) as Hq.
    { apply Z.div_str_pos. lia. }
    destruct (Z.to_nat q) as [|K] eqn:HK; [lia|].
    assert (q = Z.of_nat K + 1) as Hq' by lia.
    rewrite seq_S, !map_app, concat_app, full_batches by nia.
    cbn [map concat Nat.add]. rewrite app_nil_r. unfold rows_between.
    rewrite Z.min_l by nia.
    rewrite take_take_drop. f_equal. nia.
Qed.

Lemma range_step_nonempty (n step : Z) :
  0 < step -> 0 < n -> range_step n step <> [].
Proof.
  intros Hstep Hn. unfold range_step.
  assert (0 < (n + step - 1) / step) as Hq by (apply Z.div_str_pos; lia).
  destruct (Z.to_nat ((n + step - 1) / step)) eqn:E; [lia|]. discriminate.
Qed.

Section Search.

Variable Row : Type.
Variable topk2 : list Row -> list Row
                 -> result (list score_row * list index_row).
Variable cat_scores : list (list score_row) -> result (list score_row).
Variable cat_targets : list (list index_row) -> result (list index_row).
Variable other_search : list Row -> list Row -> Params -> Z
                        -> result (list score_row * list index_row).
Variable argsort_desc : list float -> list nat.

Abbreviation nn_batches := (nn_batches Row topk2).
Abbreviation nn_search := (nn_search Row topk2 cat_scores cat_targets).
Abbreviation search :=
  (search Row topk2 cat_scores cat_targets other_search).
Abbreviation one_row_per_query := (one_row_per_query Row topk2).
Abbreviation concatenates := (concatenates cat_scores cat_targets).
Abbreviation get_candidates :=
  (get_candidates argsort_desc (list Row) (size0 Row) search).

Lemma nn_batches_lengths (emb1 emb2 : list Row) (n_src : Z)
    (starts : list Z) :
  one_row_per_query emb2 ->
  exists S T,
    nn_batches emb1 emb2 n_src starts = Ok (S, T)
    /\ length S = length starts /\ length T = length starts
    /\ length (concat S)
       = length (concat (map (fun i => rows_between emb1 i
                                         (Z.min n_src (i + bs))) starts))
    /\ length (concat T)
       = length (concat (map (fun i => rows_between emb1 i
                                         (Z.min n_src (i + bs))) starts)).
Proof.
  intros Hrow. induction starts as [|i starts IH].
  - exists [], []. repeat split; reflexivity.
  - destruct IH as (S & T & Hrun & HS & HT & HlenS & HlenT).
    destruct (Hrow (rows_between emb1 i (Z.min n_src (i + bs))))
      as (sc & tg & Htop & Hsc & Htg).
    exists (sc :: S), (tg :: T). cbn [NearestNeighbours.nn_batches].
    rewrite Htop, Hrun. cbn [map concat length].
    rewrite !length_app, HS, HT, HlenS, HlenT, Hsc, Htg.
    repeat split; reflexivity.
Qed.

(** The search of a positive number of rows. *)
Lemma nn_search_run (emb1 emb2 : list Row) (n_src : Z) :
  0 < n_src ->
  one_row_per_query emb2 ->
  concatenates ->
  exists all_scores all_targets,
    nn_search emb1 emb2 n_src = Ok (all_scores, all_targets)
    /\ length all_scores = length (take (Z.to_nat n_src) emb1)
    /\ length all_targets = length (take (Z.to_nat n_src) emb1).
Proof.
  intros Hn Hrow [Hcs Hct].
  destruct (nn_batches_lengths emb1 emb2 n_src (range_step n_src bs) Hrow)
    as (S & T & Hrun & HS & HT & HlenS & HlenT).
  pose proof (range_step_nonempty n_src bs eq_refl Hn) as Hne.
  assert (S <> []) as HSne.
  { intros ->. destruct (range_step n_src bs); [congruence|discriminate]. }
  assert (T <> []) as HTne.
  { intros ->. destruct (range_step n_src bs); [congruence|discriminate]. }
  exists (concat S), (concat T).
  unfold NearestNeighbours.nn_search. rewrite Hrun, (Hcs S HSne), (Hct T HTne).
  rewrite HlenS, HlenT, batches_cover by reflexivity.
  repeat split; reflexivity.
Qed.

(** The sanity check of line 108 on the number of score rows. *)
Lemma too_few_rows_fail (emb1 emb2 : list Row) (p : Params)
    (all_scores : list score_row) (all_targets : list index_row)
    (log : list log_record) :
  search emb1 emb2 p (n_src_of (list Row) (size0 Row) emb1 p)
    = Ok (all_scores, all_targets) ->
  Z.of_nat (length all_scores) <> n_src_of (list Row) (size0 Row) emb1 p ->
  get_candidates emb1 emb2 p log = (Raise AssertionError, log).
Proof.
  intros Hsearch Hlen. unfold DicoBuilder.get_candidates. rewrite Hsearch.
  unfold select_candidates. rewrite run_bind.
  apply Z.eqb_neq in Hlen. rewrite Hlen. reflexivity.
Qed.

(** X27: for a positive number [n_src] of source words, the search scores
    the first [n_src] rows of [emb1] in batches of 128 and returns one
    row of scores and of targets for each: [n_src] rows when the
    vocabulary has that many, and as many as the vocabulary has
    otherwise. *)
Theorem nn_search_row_count (emb1 emb2 : list Row) (n_src : Z) :
  0 < n_src ->
  one_row_per_query emb2 ->
  concatenates ->
  exists all_scores all_targets,
    nn_search emb1 emb2 n_src = Ok (all_scores, all_targets)
    /\ length all_scores = Nat.min (Z.to_nat n_src) (length emb1)
    /\ length all_targets = Nat.min (Z.to_nat n_src) (length emb1).
Proof.
  intros Hn Hrow Hcat.
  destruct (nn_search_run emb1 emb2 n_src Hn Hrow Hcat)
    as (sc & tg & Hrun & Hsc & Htg).
  exists sc, tg. rewrite length_take in Hsc, Htg.
  split; [exact Hrun|]. split; assumption.
Qed.

(** X28: with the [nn] method, a [dico_max_rank] above the number of
    source words makes [get_candidates] fail its sanity check: the number
    of rows asked for is [dico_max_rank] itself, not the smaller of it
    and the vocabulary size. *)
Theorem rank_above_vocabulary_fails_sanity_check (emb1 emb2 : list Row)
    (p : Params) (log : list log_record) :
  dico_method p = "nn"%string ->
  size0 Row emb1 < dico_max_rank p ->
  one_row_per_query emb2 ->
  concatenates ->
  get_candidates emb1 emb2 p log = (Raise AssertionError, log).
Proof.
  intros Hnn Hrank Hrow Hcat. unfold size0 in Hrank.
  assert (n_src_of (list Row) (size0 Row) emb1 p = dico_max_rank p) as Hn.
  { unfold n_src_of. rewrite Hnn.
    replace (0 <? dico_max_rank p) with true by (symmetry; apply Z.ltb_lt; lia).
    reflexivity. }
  destruct (nn_search_run emb1 emb2 (dico_max_rank p)) as
    (sc & tg & Hsearch & Hsc & Htg); [lia|exact Hrow|exact Hcat|].
  rewrite length_take in Hsc.
  apply (too_few_rows_fail emb1 emb2 p sc tg); rewrite Hn; [|lia].
  unfold NearestNeighbours.search. rewrite Hnn. exact Hsearch.
Qed.

End Search.

(** *** Instances *)

Lemma flat_one_row_per_query (emb2 : list Z) :
  one_row_per_query Z flat_topk2 emb2.
Proof.
  intros batch. eexists _, _. split; [reflexivity|].
  rewrite !length_map. split; reflexivity.
Qed.

Lemma list_cat_concatenates : concatenates list_cat list_cat.
Proof. split; intros l _; reflexivity. Qed.

Lemma nn_search_row_count_witness :
  exists all_scores all_targets,
    nn_search Z flat_topk2 list_cat list_cat [10; 20; 30] [1; 2] 2
      = Ok (all_scores, all_targets)
    /\ length all_scores = Nat.min (Z.to_nat 2) (length [10; 20; 30])
    /\ length all_targets = Nat.min (Z.to_nat 2) (length [10; 20; 30]).
Proof.
  apply (nn_search_row_count Z flat_topk2 list_cat list_cat [10; 20; 30]
           [1; 2] 2).
  - reflexivity.
  - apply flat_one_row_per_query.
  - apply list_cat_concatenates.
Defined.

Lemma rank_above_vocabulary_fails_sanity_check_witness :
  get_candidates insertion_argsort (list Z) (size0 Z)
    (search Z flat_topk2 list_cat list_cat no_search)
    [10; 20; 30] [1; 2] (DicoBuilderInputs.params_ranked 5) []
  = (Raise AssertionError, []).
Proof.
  apply (rank_above_vocabulary_fails_sanity_check Z flat_topk2 list_cat
           list_cat no_search insertion_argsort [10; 20; 30] [1; 2]
           (DicoBuilderInputs.params_ranked 5) []).
  - reflexivity.
  - reflexivity.
  - apply flat_one_row_per_query.
  - apply list_cat_concatenates.
Defined.

End NearestNeighboursSpec.

(** ** Properties of the model selection criterion *)

Module MeanCosineSpec.
Import DicoBuilder NearestNeighbours MeanCosine.

Section Evaluator.

Variable Row : Type.
Variable Map : Type.
Variable prepare : Map -> Row -> Row.
Variable topk2 : list Row -> list Row
                 -> result (list score_row * list index_row).
Variable cat_scores : list (list score_row) -> result (list score_row).
Variable cat_targets : list (list index_row) -> result (list index_row).
Variable other_search : list Row -> list Row -> Params -> Z
                        -> result (list score_row * list index_row).
Variable argsort_desc : list float -> list nat.
Variable mean_cosine : list Row -> list Row -> list index_row -> float.

Abbreviation Evaluator := (Evaluator Row Map).
Abbreviation criterion :=
  (criterion Row topk2 cat_scores cat_targets other_search argsort_desc
     mean_cosine).
Abbreviation dist_mean_cosine :=
  (dist_mean_cosine Row Map prepare topk2 cat_scores cat_targets other_search
     argsort_desc mean_cosine).

Lemma on_log_raise {A} (m : Py (list log_record) A) (o : Out) e :
  m (log o) = (Raise e, log o) -> on_log m o = (Raise e, o).
Proof. intros H. unfold on_log. rewrite H. destruct o. reflexivity. Qed.

(** X29: the criterion always asks the selector for 10000 source words;
    so with a target language to evaluate and fewer than 10000 source
    words, [dist_mean_cosine] fails the selector's sanity check at its
    first search, before anything is logged or written to [to_log]. *)
Theorem dist_mean_cosine_needs_10000_source_words (ev : Evaluator)
    (o : Out) (lang : string) (rest : list string) (m0 m : Map)
    (e : list Row) :
  tgt_lang _ _ ev = lang :: rest ->
  mapping _ _ ev !! src_lang _ _ ev = Some m0 ->
  mapping _ _ ev !! lang = Some m ->
  tgt_emb _ _ ev !! lang = Some e ->
  Z.of_nat (length (src_emb _ _ ev)) < 10000 ->
  one_row_per_query Row topk2 (map (prepare m) e) ->
  concatenates cat_scores cat_targets ->
  dist_mean_cosine ev o = (Raise AssertionError, o).
Proof.
  intros Hlangs Hm0 Hm He Hsmall Hrow Hcat.
  unfold MeanCosine.dist_mean_cosine, getitem.
  rewrite run_bind, Hm0. cbn [ret]. rewrite Hlangs. cbn [for_in].
  rewrite run_bind, run_bind, Hm. cbn [ret]. rewrite run_bind, He. cbn [ret].
  rewrite run_bind. unfold MeanCosine.criterion at 1. rewrite run_bind.
  rewrite (on_log_raise _ o AssertionError); [reflexivity|].
  destruct (NearestNeighboursSpec.nn_search_run Row topk2 cat_scores
              cat_targets (map (prepare m0) (src_emb _ _ ev))
              (map (prepare m) e) 10000)
    as (sc & tg & Hsearch & Hsc & _); [reflexivity|exact Hrow|exact Hcat|].
  rewrite length_take, length_map in Hsc.
  apply (NearestNeighboursSpec.too_few_rows_fail Row topk2 cat_scores
           cat_targets other_search argsort_desc _ _ _ sc tg).
  - exact Hsearch.
  - change (Z.of_nat (length sc) <> 10000). lia.
Qed.

End Evaluator.

(** *** Instances *)

Lemma dist_mean_cosine_needs_10000_source_words_witness :
  dist_mean_cosine Z unit (fun _ r => r) flat_topk2 list_cat list_cat
    no_search insertion_argsort (fun _ _ _ => 0%float) evaluator_small
    out_empty
  = (Raise AssertionError, out_empty).
Proof.
  apply (dist_mean_cosine_needs_10000_source_words Z unit (fun _ r => r)
           flat_topk2 list_cat list_cat no_search insertion_argsort
           (fun _ _ _ => 0%float) evaluator_small out_empty "es"%string []
           tt tt [1; 2]).
  - reflexivity.
  - reflexivity.
  - reflexivity.
  - reflexivity.
  - reflexivity.
  - apply NearestNeighboursSpec.flat_one_row_per_query.
  - apply NearestNeighboursSpec.list_cat_concatenates.
Defined.

End MeanCosineSpec.

(** ** Properties of the evaluation of the discriminator *)

Module DisEvalSpec.
Import NearestNeighbours DisEval.

Lemma src_key_not_tgt_key (l : string) :
  ("dis_tgt_pred_" ++ l)%string <> ("dis_src_pred_" ++ l)%string.
Proof. cbn. discriminate. Qed.

Section Evaluator.

Variable Row : Type.
Variable Map : Type.
Variable Dis : Type.
Variable eval_mode : Dis -> Dis.
Variable predict : Dis -> Map -> list Row -> list float.
Variable np_mean : list float -> float.
Variable np_mean_bool : list bool -> float.
Variable float_of_int : Z -> float.

Abbreviation Evaluator := (Evaluator Row Map).
Abbreviation Out := (Out Dis).
Abbreviation eval_dis_loop :=
  (eval_dis_loop Row Map Dis eval_mode predict np_mean np_mean_bool
     float_of_int).
Abbreviation eval_dis :=
  (eval_dis Row Map Dis eval_mode predict np_mean np_mean_bool float_of_int).
Abbreviation predictions := (predictions Row Map Dis predict).
Abbreviation tgt_predictions :=
  (tgt_predictions Row Map Dis eval_mode predict).
Abbreviation evaluable := (evaluable Row Map).

Implicit Types (ev : Evaluator) (o : Out) (d : Dis).

Lemma extend_each_run (starts : list Z) (body : Z -> Py Out (list float))
    (f : Z -> list float) (preds : list float) o :
  (forall i, body i o = (Ok (f i), o)) ->
  extend_each Dis starts body preds o
  = (Ok (preds ++ concat (map f starts)), o).
Proof.
  intros Hbody. revert preds. induction starts as [|i starts IH]; intros preds.
  - cbn. rewrite app_nil_r. reflexivity.
  - cbn [extend_each map concat]. rewrite (run_bind_ok _ _ _ _ _ (Hbody i)).
    rewrite IH, <- app_assoc. reflexivity.
Qed.

Lemma output_getitem_run {A} (g : gmap string A) (k : string) (v : A) o :
  g !! k = Some v -> getitem Dis g k o = (Ok v, o).
Proof. intros H. unfold getitem. rewrite H. reflexivity. Qed.

Lemma src_extend ev (m0 : Map) o (preds : list float) :
  mapping _ _ ev !! src_lang _ _ ev = Some m0 ->
  extend_each Dis (range_step (size0 Row (src_emb _ _ ev)) 128)
    (fun i =>
       let emb := rows_between (src_emb _ _ ev) i (i + 128) in
       o ← get;
       m ← getitem Dis (mapping _ _ ev) (src_lang _ _ ev);
       ret (predict (discriminator _ o) m emb)) preds o
  = (Ok (preds ++ predictions (discriminator _ o) m0 (src_emb _ _ ev)), o).
Proof.
  intros Hm0. apply extend_each_run. intros i. cbv zeta.
  rewrite run_bind. cbn [get]. unfold getitem. rewrite run_bind, Hm0.
  reflexivity.
Qed.

Lemma tgt_extend ev (lang : string) (m : Map) (e : list Row) o
    (preds : list float) :
  mapping _ _ ev !! lang = Some m ->
  tgt_emb _ _ ev !! lang = Some e ->
  extend_each Dis (range_step (size0 Row e) 128)
    (fun i =>
       e ← getitem Dis (tgt_emb _ _ ev) lang;
       let emb := rows_between e i (i + 128) in
       o ← get;
       m ← getitem Dis (mapping _ _ ev) lang;
       ret (predict (discriminator _ o) m emb)) preds o
  = (Ok (preds ++ predictions (discriminator _ o) m e), o).
Proof.
  intros Hm He. apply extend_each_run. intros i. unfold getitem.
  rewrite run_bind, He. cbn [ret]. cbv zeta.
  rewrite run_bind. cbn [get]. rewrite run_bind, Hm. reflexivity.
Qed.

(** The source predictions of the language at position [j]. *)
Abbreviation src_predictions ev m0 d :=
  (fun (j : nat) (_ : string) =>
     predictions (Nat.iter (S j) eval_mode d) m0 (src_emb _ _ ev)).

Lemma tgt_predictions_succ ev d (j : nat) (lang : string) :
  tgt_predictions ev d (S j) lang = tgt_predictions ev (eval_mode d) j lang.
Proof.
  unfold DisEval.tgt_predictions. rewrite (Nat.iter_succ_r (S j)). reflexivity.
Qed.

(** The loop from any two lists of earlier predictions. *)
Lemma eval_dis_loop_run ev (m0 : Map) (langs : list string)
    (src_preds tgt_preds : list float) o :
  mapping _ _ ev !! src_lang _ _ ev = Some m0 ->
  (forall lang, lang ∈ langs -> evaluable ev lang) ->
  exists o',
    eval_dis_loop ev langs src_preds tgt_preds o = (Ok tt, o')
    /\ discriminator _ o' = Nat.iter (length langs) eval_mode (discriminator _ o)
    /\ log _ o'
       = log _ o
         ++ concat (replicate (length langs)
                      [(INFO, msg_predictions); (INFO, msg_accuracy)])
    /\ forall pre l, langs = pre ++ [l] ->
         to_log _ o' !! ("dis_src_pred_" ++ l)%string
         = Some (np_mean
                   (src_preds
                    ++ concat (imap (src_predictions ev m0 (discriminator _ o))
                                 langs)))
         /\ to_log _ o' !! ("dis_tgt_pred_" ++ l)%string
            = Some (np_mean
                      (tgt_preds
                       ++ concat (imap (tgt_predictions ev (discriminator _ o))
                                    langs))).
Proof.
  intros Hm0. revert src_preds tgt_preds o.
  induction langs as [|lang rest IH]; intros src_preds tgt_preds o Hall.
  - exists o. split; [reflexivity|]. split; [reflexivity|].
    split; [cbn; rewrite app_nil_r; reflexivity|].
    intros [|x pre] l Hl; discriminate Hl.
  - destruct (Hall lang) as [[m Hm] [e He]]; [apply elem_of_cons; left; reflexivity|].
    set (d1 := eval_mode (discriminator _ o)).
    set (o1 := set_discriminator Dis d1 o).
    set (sp := src_preds ++ predictions d1 m0 (src_emb _ _ ev)).
    set (tp := tgt_preds ++ predictions d1 m e).
    set (dis_accu :=
           PrimFloat.div
             (PrimFloat.add
                (PrimFloat.mul
                   (np_mean_bool (map (fun x => PrimFloat.leb 0.5 x) sp))
                   (float_of_int (size0 Row (src_emb _ _ ev))))
                (PrimFloat.mul
                   (np_mean_bool (map (fun x => PrimFloat.ltb x 0.5) tp))
                   (float_of_int (size0 Row e))))
             (float_of_int (size0 Row (src_emb _ _ ev) + size0 Row e))).
    set (o2 := setitem Dis ("dis_tgt_pred_" ++ lang) (np_mean tp)
                 (setitem Dis ("dis_src_pred_" ++ lang) (np_mean sp)
                    (setitem Dis ("dis_accu_" ++ lang) dis_accu
                       (logger_info Dis msg_accuracy
                          (logger_info Dis msg_predictions o1))))).
    assert (eval_dis_loop ev (lang :: rest) src_preds tgt_preds o
            = eval_dis_loop ev rest sp tp o2) as Hstep.
    { cbn [DisEval.eval_dis_loop]. rewrite run_bind. cbn [modify].
      fold d1. fold o1.
      rewrite (run_bind_ok _ _ _ _ _ (src_extend ev m0 o1 src_preds Hm0)).
      rewrite (run_bind_ok _ _ _ _ _ (output_getitem_run _ lang e o1 He)).
      rewrite (run_bind_ok _ _ _ _ _ (tgt_extend ev lang m e o1 tgt_preds Hm He)).
      rewrite run_bind. cbn [modify].
      rewrite (run_bind_ok _ _ _ _ _ (output_getitem_run _ lang e _ He)).
      rewrite run_bind. cbn [modify]. rewrite run_bind. cbn [modify].
      rewrite run_bind. cbn [modify]. rewrite run_bind. cbn [modify].
      reflexivity. }
    destruct (IH sp tp o2) as (o' & Hrun & Hdis & Hlog & Hlast).
    { intros l Hl. apply Hall, elem_of_cons. right. exact Hl. }
    exists o'. split; [rewrite Hstep; exact Hrun|].
    split; [|split].
    + rewrite Hdis. cbn [length]. rewrite Nat.iter_succ_r. reflexivity.
    + rewrite Hlog. cbn. rewrite <- !app_assoc. reflexivity.
    + intros pre l Hl. rewrite !imap_cons. cbn [concat].
      assert (tgt_predictions ev (discriminator _ o) 0 lang = predictions d1 m e)
        as Htgt0.
      { unfold DisEval.tgt_predictions. rewrite Hm, He. reflexivity. }
      rewrite Htgt0, !app_assoc. fold sp. fold tp.
      rewrite (imap_ext _ (src_predictions ev m0 d1) rest)
        by (intros j x _; unfold compose; rewrite (Nat.iter_succ_r (S j));
            reflexivity).
      rewrite (imap_ext (tgt_predictions ev (discriminator _ o) ∘ S)
                        (tgt_predictions ev d1) rest)
        by (intros j x _; apply tgt_predictions_succ).
      destruct pre as [|x pre].
      * cbn in Hl. injection Hl as <- ->. cbn [imap concat].
        rewrite !app_nil_r.
        cbn [DisEval.eval_dis_loop ret] in Hrun. injection Hrun as <-.
        split.
        -- cbn. rewrite lookup_insert_ne by apply src_key_not_tgt_key.
           apply lookup_insert_eq.
        -- cbn. apply lookup_insert_eq.
      * cbn in Hl. injection Hl as _ ->. apply (Hlast pre l). reflexivity.
Qed.

(** X30: the two lists of predictions are never emptied between
    languages.  When every target language can be evaluated, [eval_dis]
    returns, and what it writes as the source and target predictions of
    the last language is the mean over the predictions made for all the
    languages so far: the source predictions once per language, and the
    target predictions of every language, not of the last one alone. *)
Theorem eval_dis_accumulates_predictions ev o (m0 : Map)
    (pre : list string) (l : string) :
  tgt_lang _ _ ev = pre ++ [l] ->
  mapping _ _ ev !! src_lang _ _ ev = Some m0 ->
  (forall lang, lang ∈ pre ++ [l] -> evaluable ev lang) ->
  exists o',
    eval_dis ev o = (Ok tt, o')
    /\ to_log _ o' !! ("dis_src_pred_" ++ l)%string
       = Some (np_mean
                 (concat (imap (src_predictions ev m0 (discriminator _ o))
                            (pre ++ [l]))))
    /\ to_log _ o' !! ("dis_tgt_pred_" ++ l)%string
       = Some (np_mean
                 (concat (imap (tgt_predictions ev (discriminator _ o))
                            (pre ++ [l])))).
Proof.
  intros Hlangs Hm0 Hall.
  destruct (eval_dis_loop_run ev m0 (pre ++ [l]) [] [] o Hm0 Hall)
    as (o' & Hrun & _ & _ & Hlast).
  exists o'. split.
  - unfold DisEval.eval_dis. rewrite Hlangs. exact Hrun.
  - exact (Hlast pre l eq_refl).
Qed.

End Evaluator.

(** *** Instances *)

Lemma eval_dis_accumulates_predictions_witness :
  exists o',
    eval_dis float unit unit (fun d => d) (fun _ _ batch => batch)
      first_or_zero (fun _ => 0%float) (fun _ => 0%float)
      evaluator_es_fr out_start = (Ok tt, o')
    /\ to_log _ o' !! "dis_src_pred_fr"%string
       = Some (first_or_zero [0.75; 0.75]%float)
    /\ to_log _ o' !! "dis_tgt_pred_fr"%string
       = Some (first_or_zero [0.25; 0.125; 0.875]%float).
Proof.
  apply (eval_dis_accumulates_predictions float unit unit (fun d => d)
           (fun _ _ batch => batch) first_or_zero (fun _ => 0%float)
           (fun _ => 0%float) evaluator_es_fr out_start tt ["es"%string]
           "fr"%string).
  - reflexivity.
  - reflexivity.
  - intros lang Hl. apply elem_of_cons in Hl as [->|Hl].
    + split; eexists; reflexivity.
    + apply list_elem_of_singleton in Hl as ->. split; eexists; reflexivity.
Defined.

End DisEvalSpec.

(** ** [save_best]: the best value is set before the checkpoint is written *)

Module BestCheckpointSpec.
Import BestCheckpoint.

Section Files.

Variable Tensor : Type.
Variable Array : Type.
Variable to_numpy : Tensor -> Array.
Variable Files : Type.
Variable torch_save : string -> Array -> Files -> result unit * Files.
Variable path_join : string -> string -> string.

Abbreviation Trainer := (Trainer Tensor Files).
Abbreviation save_one := (save_one Tensor Array Files torch_save path_join).
Abbreviation save_best :=
  (save_best Tensor Array to_numpy Files torch_save path_join).
Abbreviation written := (written Tensor Array to_numpy Files torch_save path_join).
Abbreviation path_of := (path_of path_join).
Abbreviation entry_of := (entry_of Tensor Array to_numpy Files).

Implicit Types (t : Trainer) (p : Params) (lang : string).

Lemma entry_of_run t lang (s : Trainer) :
  entry_of t lang s
  = match mapping _ _ t !! lang with
    | Some w => (Ok (lang, to_numpy w), s)
    | None => (Raise (KeyError lang), s)
    end.
Proof.
  unfold BestCheckpoint.entry_of. rewrite run_bind. unfold getitem.
  destruct (mapping _ _ t !! lang); reflexivity.
Qed.

(** Building [W] stops at the first language that has no mapping. *)
Lemma snapshot_missing (pre post : list string) lang t :
  (forall l, l ∈ pre -> is_Some (mapping _ _ t !! l)) ->
  mapping _ _ t !! lang = None ->
  forall s : Trainer,
    mapM (entry_of t) (pre ++ lang :: post) s = (Raise (KeyError lang), s).
Proof.
  intros Hpre Hlang s. induction pre as [|l pre IH]; cbn [app].
  - rewrite run_mapM_cons, entry_of_run, Hlang. reflexivity.
  - destruct (Hpre l) as [w Hw]; [apply elem_of_cons; left; reflexivity|].
    rewrite run_mapM_cons, entry_of_run, Hw, IH; [reflexivity|].
    intros l' Hl'. apply Hpre, elem_of_cons. right. exact Hl'.
Qed.

(** The arrays of [W] when every language has a mapping: the last entry
    of a language is the one that stays. *)
Lemma snapshot_built (ls : list string) t :
  (forall l, l ∈ ls -> is_Some (mapping _ _ t !! l)) ->
  forall s : Trainer,
  exists W,
    mapM (entry_of t) ls s = (Ok W, s)
    /\ map fst W = ls
    /\ forall (d : gmap string Array) l,
         l ∈ ls ->
         foldl (fun d kv => <[fst kv := snd kv]> d) d W !! l
         = to_numpy <$> mapping _ _ t !! l.
Proof.
  intros Hall s. induction ls as [|l0 ls IH].
  - exists []. split; [reflexivity|]. split; [reflexivity|]. intros d l Hl.
    apply elem_of_nil in Hl. contradiction.
  - destruct (Hall l0) as [w Hw]; [apply elem_of_cons; left; reflexivity|].
    destruct IH as (W & Hrun & Hkeys & Hlook).
    { intros l Hl. apply Hall, elem_of_cons. right. exact Hl. }
    exists ((l0, to_numpy w) :: W). split; [|split].
    + rewrite run_mapM_cons, entry_of_run, Hw, Hrun. reflexivity.
    + cbn [map fst]. rewrite Hkeys. reflexivity.
    + intros d l Hl. cbn [foldl fst snd].
      destruct (decide (l ∈ ls)) as [Hin|Hin]; [apply Hlook; exact Hin|].
      apply elem_of_cons in Hl as [->|Hl]; [|contradiction].
      assert (forall (W' : list (string * Array)) (d' : gmap string Array),
                l0 ∉ map fst W' ->
                foldl (fun d kv => <[fst kv := snd kv]> d) d' W' !! l0
                = d' !! l0) as Hkeep.
      { induction W' as [|kv W' IHW]; intros d' Hn; [reflexivity|].
        cbn [foldl]. cbn [map] in Hn. apply not_elem_of_cons in Hn as [Hne Hn].
        rewrite (IHW _ Hn). apply lookup_insert_ne. congruence. }
      rewrite Hkeep by (rewrite Hkeys; exact Hin).
      rewrite lookup_insert_eq, Hw. reflexivity.
Qed.

Lemma save_for_in_app {S A} (l1 l2 : list A) (body : A -> Py S unit) (s : S) :
  for_in (l1 ++ l2) body s
  = match for_in l1 body s with
    | (Ok _, s') => for_in l2 body s'
    | (Raise e, s') => (Raise e, s')
    end.
Proof.
  revert s. induction l1 as [|x l1 IH]; intros s; [reflexivity|].
  cbn [app for_in]. rewrite !run_bind.
  destruct (body x s) as [[[]|e] s1]; [apply IH|reflexivity].
Qed.

(** One pass of the saving loop, whatever the write answers. *)
Lemma save_one_run p (W : gmap string Array) lang (a : Array) t :
  W !! lang = Some a ->
  save_one p W lang t
  = (fst (torch_save (path_of p lang) a (files _ _ t)),
     set_files _ _ (snd (torch_save (path_of p lang) a (files _ _ t)))
       (logger_info _ _ msg_saving t)).
Proof.
  intros Ha. unfold BestCheckpoint.save_one. rewrite run_bind. cbn [modify].
  rewrite run_bind. unfold getitem. rewrite Ha. cbn [ret].
  unfold save. cbn [files logger_info].
  destruct (torch_save _ a (files _ _ t)) as [r f]. reflexivity.
Qed.

(** The saving loop when every write returns. *)
Lemma save_loop_returns p (t0 : Trainer) (W : gmap string Array)
    (ls : list string) t :
  (forall l, l ∈ ls -> W !! l = to_numpy <$> mapping _ _ t0 !! l) ->
  (forall l, l ∈ ls -> is_Some (mapping _ _ t0 !! l)) ->
  (forall l a f, l ∈ ls -> fst (torch_save (path_of p l) a f) = Ok tt) ->
  exists t',
    for_in ls (save_one p W) t = (Ok tt, t')
    /\ mapping _ _ t' = mapping _ _ t
    /\ best_valid_metric _ _ t' = best_valid_metric _ _ t
    /\ log _ _ t' = log _ _ t ++ replicate (length ls) (INFO, msg_saving)
    /\ files _ _ t' = written p t0 ls (files _ _ t).
Proof.
  revert t. induction ls as [|l ls IH]; intros t HW Hall Hok.
  - exists t. split; [reflexivity|]. split; [reflexivity|].
    split; [reflexivity|]. split; [cbn; rewrite app_nil_r; reflexivity|].
    reflexivity.
  - destruct (Hall l) as [w Hw]; [apply elem_of_cons; left; reflexivity|].
    assert (W !! l = Some (to_numpy w)) as Ha.
    { rewrite HW, Hw by (apply elem_of_cons; left; reflexivity). reflexivity. }
    set (t1 := set_files _ _
                 (snd (torch_save (path_of p l) (to_numpy w) (files _ _ t)))
                 (logger_info _ _ msg_saving t)).
    destruct (IH t1) as (t' & Hrun & Hmap & Hbest & Hlog & Hfiles).
    { intros l' Hl'. apply HW, elem_of_cons. right. exact Hl'. }
    { intros l' Hl'. apply Hall, elem_of_cons. right. exact Hl'. }
    { intros l' a f Hl'. apply Hok, elem_of_cons. right. exact Hl'. }
    exists t'. split; [|split; [|split; [|split]]].
    + cbn [for_in]. rewrite run_bind, (save_one_run p W l _ t Ha).
      rewrite Hok by (apply elem_of_cons; left; reflexivity). exact Hrun.
    + rewrite Hmap. reflexivity.
    + rewrite Hbest. reflexivity.
    + rewrite Hlog. cbn. rewrite <- app_assoc. reflexivity.
    + rewrite Hfiles. unfold BestCheckpoint.written. cbn [foldl].
      rewrite Hw. reflexivity.
Qed.

(** X18: [save_best] stores and logs the new best value before it builds
    the arrays and writes them, so a failure leaves a logged best value
    without all its files.  For a metric above the best so far: when a
    language of [[src_lang] + tgt_lang] has no mapping, the first such
    language raises [KeyError] with the best value stored and logged and
    nothing written; when every language has a mapping and the write of
    one language raises after those before it returned, that exception is
    raised with the best value stored and one line logged per write that
    was attempted; when every write returns, every language's array is
    written, source first, each after its log line.  A metric that is
    not above the best changes nothing. *)
Theorem best_value_is_set_before_saving p (to_log : gmap string float)
    (metric : string) (m : float) t :
  to_log !! metric = Some m ->
  let t1 := logger_info _ _ msg_best (set_best _ _ m t) in
  (PrimFloat.ltb (best_valid_metric _ _ t) m = false ->
   save_best p to_log metric t = (Ok tt, t))
  /\ (PrimFloat.ltb (best_valid_metric _ _ t) m = true ->
      (forall pre lang post,
         langs p = pre ++ lang :: post ->
         (forall l, l ∈ pre -> is_Some (mapping _ _ t !! l)) ->
         mapping _ _ t !! lang = None ->
         save_best p to_log metric t = (Raise (KeyError lang), t1))
      /\ (forall pre lang post w e,
            langs p = pre ++ lang :: post ->
            (forall l, l ∈ langs p -> is_Some (mapping _ _ t !! l)) ->
            mapping _ _ t !! lang = Some w ->
            (forall l a f, l ∈ pre ->
               fst (torch_save (path_of p l) a f) = Ok tt) ->
            (forall f, fst (torch_save (path_of p lang) (to_numpy w) f)
                       = Raise e) ->
            exists t',
              save_best p to_log metric t = (Raise e, t')
              /\ best_valid_metric _ _ t' = m
              /\ mapping _ _ t' = mapping _ _ t
              /\ log _ _ t'
                 = log _ _ t1 ++ replicate (S (length pre)) (INFO, msg_saving)
              /\ files _ _ t'
                 = written p t (pre ++ [lang]) (files _ _ t))
      /\ ((forall l, l ∈ langs p -> is_Some (mapping _ _ t !! l)) ->
          (forall l a f, l ∈ langs p ->
             fst (torch_save (path_of p l) a f) = Ok tt) ->
          exists t',
            save_best p to_log metric t = (Ok tt, t')
            /\ best_valid_metric _ _ t' = m
            /\ mapping _ _ t' = mapping _ _ t
            /\ log _ _ t'
               = log _ _ t1 ++ replicate (length (langs p)) (INFO, msg_saving)
            /\ files _ _ t' = written p t (langs p) (files _ _ t))).
Proof.
  intros Hm t1.
  assert (forall k : Py Trainer unit,
            PrimFloat.ltb (best_valid_metric _ _ t) m = true ->
            save_best p to_log metric t
            = (W ← mapM (entry_of t1) (langs p);
               for_in (langs p)
                 (save_one p (foldl (fun d kv => <[fst kv := snd kv]> d)
                                (∅ : gmap string Array) W))) t1) as Hstart.
  { intros _ Hlt. unfold BestCheckpoint.save_best. rewrite run_bind.
    unfold getitem at 1. rewrite Hm. cbn [ret]. rewrite run_bind. cbn [get].
    rewrite Hlt. rewrite run_bind. cbn [modify]. rewrite run_bind.
    cbn [modify]. rewrite run_bind. cbn [get]. reflexivity. }
  specialize (Hstart (ret tt)).
  split.
  - intros Hlt. unfold BestCheckpoint.save_best. rewrite run_bind.
    unfold getitem at 1. rewrite Hm. cbn [ret]. rewrite run_bind. cbn [get].
    rewrite Hlt. reflexivity.
  - intros Hlt. rewrite (Hstart Hlt). clear Hstart.
    change (entry_of t1) with (entry_of t).
    split; [|split].
    + intros pre lang post Hl Hpre Hlang. rewrite Hl.
      apply run_bind_raise. apply snapshot_missing; assumption.
    + intros pre lang post w e Hl Hall Hw Hpre Hfail.
      destruct (snapshot_built (langs p) t Hall t1) as (W & HW & _ & Hlook).
      rewrite (run_bind_ok _ _ _ _ _ HW).
      set (Wd := foldl (fun d kv => <[fst kv := snd kv]> d) ∅ W).
      rewrite Hl, save_for_in_app.
      destruct (save_loop_returns p t Wd pre t1)
        as (t2 & Hrun & Hmap & Hbest & Hlog & Hfiles).
      { intros l Hin. apply Hlook. rewrite Hl, elem_of_app. left. exact Hin. }
      { intros l Hin. apply Hall. rewrite Hl, elem_of_app. left. exact Hin. }
      { intros l a f Hin. apply Hpre. exact Hin. }
      rewrite Hrun. cbn [for_in]. rewrite run_bind.
      assert (Wd !! lang = Some (to_numpy w)) as Ha.
      { unfold Wd. rewrite Hlook, Hw; [reflexivity|].
        rewrite Hl, elem_of_app. right. apply elem_of_cons. left. reflexivity. }
      rewrite (save_one_run p Wd lang _ t2 Ha), Hfail.
      eexists. split; [reflexivity|].
      cbn [set_files logger_info best_valid_metric mapping log files].
      split; [rewrite Hbest; reflexivity|]. split; [exact Hmap|].
      split.
      * rewrite Hlog. rewrite <- app_assoc. f_equal.
        change [(INFO, msg_saving)] with (replicate 1 (INFO, msg_saving)).
        rewrite <- replicate_add, Nat.add_1_r. reflexivity.
      * rewrite Hfiles. unfold BestCheckpoint.written.
        rewrite foldl_app. cbn [foldl]. rewrite Hw. reflexivity.
    + intros Hall Hok.
      destruct (snapshot_built (langs p) t Hall t1) as (W & HW & _ & Hlook).
      rewrite (run_bind_ok _ _ _ _ _ HW).
      destruct (save_loop_returns p t
                  (foldl (fun d kv => <[fst kv := snd kv]> d) ∅ W)
                  (langs p) t1)
        as (t2 & Hrun & Hmap & Hbest & Hlog & Hfiles).
      { intros l Hin. apply Hlook. exact Hin. }
      { exact Hall. }
      { intros l a f Hin. apply Hok. exact Hin. }
      exists t2. split; [exact Hrun|]. split; [rewrite Hbest; reflexivity|].
      split; [exact Hmap|]. split; [exact Hlog|exact Hfiles].
Qed.

End Files.

(** *** Instances *)

Abbreviation table_save_best :=
  (save_best (list Z) (list Z) (fun v => v) (gmap string (list Z)) table_save
     slash_join).

(** A new best value with a French mapping missing: the value is stored
    and logged, and [KeyError] is raised before any file is written. *)
Lemma best_value_is_set_before_saving_witness :
  table_save_best params_en_es_fr to_log_half "mean_cosine" trainer_new
  = (Raise (KeyError "fr"),
     logger_info _ _ msg_best (set_best _ _ 0.5%float trainer_new)).
Proof.
  destruct (best_value_is_set_before_saving (list Z) (list Z) (fun v => v)
              (gmap string (list Z)) table_save slash_join params_en_es_fr
              to_log_half "mean_cosine" 0.5%float trainer_new)
    as [_ H]; [reflexivity|].
  destruct H as [H _]; [reflexivity|].
  apply (H ["en"; "es"]%string "fr"%string []).
  - reflexivity.
  - intros l Hl. apply elem_of_cons in Hl as [->|Hl]; [eexists; reflexivity|].
    apply list_elem_of_singleton in Hl as ->. eexists. reflexivity.
  - reflexivity.
Defined.

(** The two other ways: a directory that cannot be written, and one that
    can. *)
Lemma save_best_read_only_directory :
  table_save_best (params_en_es "ro") to_log_half "mean_cosine" trainer_new
  = (Raise (KeyError "ro/best_mapping.en.pth"),
     {| mapping := mapping _ _ trainer_new;
        best_valid_metric := 0.5%float;
        files := ∅;
        log := [(INFO, msg_best); (INFO, msg_saving)] |})
  /\ table_save_best (params_en_es "exp") to_log_half "mean_cosine" trainer_new
     = (Ok tt,
        {| mapping := mapping _ _ trainer_new;
           best_valid_metric := 0.5%float;
           files := {[ "exp/best_mapping.en.pth"%string := [5; 5];
                       "exp/best_mapping.es.pth"%string := [6; 6] ]};
           log := [(INFO, msg_best); (INFO, msg_saving); (INFO, msg_saving)] |}).
Proof. split; vm_compute; reflexivity. Qed.

End BestCheckpointSpec.
